(** * Segmentation, embedding index and change detection of the RAG pipeline

    A shallow embedding of three scripts of the repository,

    - [scripts/rag/guideline_ingester.py]  (module [Ingester]),
    - [scripts/rag/batch_indexer.py]       (module [Indexer]),
    - [scripts/rag/diff_analysis.py]       (module [Diff]),

    together with the parts of the Python runtime they lean on
    ([str] methods in [PyStr], the [re] module in [Re]).

    Conventions.
    - A Python [str] is a [list ascii]; a character is a code point below 256.
    - A Python exception is a value of [exn]; a call that may raise returns
      a [result].
    - A Python [float] and a numpy [float32] are IEEE 754 numbers
      ([spec_float] of the Standard Library), binary64 and binary32; the
      operations of [float32] are those of [SpecFloat] at 24 bits and round
      to nearest, ties to even (module [F32]).
    - The remote services (embedding model, classification model) are
      functions of a call number, so that any sequence of answers can be
      described. *)

From Stdlib Require Import Ascii String.
From Stdlib Require Import List Arith Lia Bool.
From Stdlib Require Import ZArith QArith.
From Stdlib Require Import SpecFloat.
From Stdlib Require Import Permutation Sorted.
From Stdlib Require DecimalString DecimalNat DecimalFacts.
Import ListNotations.

Set Implicit Arguments.
Set Warnings "-register-all".

Close Scope Q_scope.
Close Scope Z_scope.
Open Scope nat_scope.
Open Scope list_scope.

(* ================================================================== *)
(** * Python strings *)
(* ================================================================== *)

Module PyStr.

Definition str := list ascii.

(** A string literal as a [str]. *)
Definition L (s : string) : str := list_ascii_of_string s.

Definition code (c : ascii) : nat := nat_of_ascii c.

Definition eqc (a b : ascii) : bool := Ascii.eqb a b.

(** [c.isspace()] for code points below 256. *)
Definition is_space (c : ascii) : bool :=
  let n := code c in
  ((9 <=? n) && (n <=? 13)) || ((28 <=? n) && (n <=? 32))
  || (n =? 133) || (n =? 160).

Fixpoint lstrip (s : str) : str :=
  match s with
  | c :: s' => if is_space c then lstrip s' else s
  | [] => []
  end.

Definition rstrip (s : str) : str := rev (lstrip (rev s)).

(** [s.strip()] *)
Definition strip (s : str) : str := rstrip (lstrip s).

(** [s.split()] : the maximal runs of non-blank characters.  [cur] holds the
    run being read, last character first. *)
Fixpoint split_from (cur : str) (s : str) : list str :=
  match s with
  | [] => match cur with [] => [] | _ => [rev cur] end
  | c :: s' =>
      if is_space c
      then match cur with
           | [] => split_from [] s'
           | _ => rev cur :: split_from [] s'
           end
      else split_from (c :: cur) s'
  end.

Definition split (s : str) : list str := split_from [] s.

(** [sep.join(parts)] *)
Fixpoint join (sep : str) (parts : list str) : str :=
  match parts with
  | [] => []
  | [p] => p
  | p :: rest => p ++ sep ++ join sep rest
  end.

Fixpoint startswith (p s : str) : bool :=
  match p, s with
  | [], _ => true
  | a :: p', b :: s' => eqc a b && startswith p' s'
  | _ :: _, [] => false
  end.

(** [p in s] *)
Fixpoint contains (p s : str) : bool :=
  startswith p s ||
  match s with
  | [] => false
  | _ :: s' => contains p s'
  end.

(** [s.replace(old, new)] for a non-empty [old]: leftmost occurrences, not
    overlapping.  [skip] counts the characters of an occurrence still to be
    dropped. *)
Fixpoint replace_from (old new : str) (skip : nat) (s : str) : str :=
  match s with
  | [] => []
  | c :: s' =>
      match skip with
      | S k => replace_from old new k s'
      | O =>
          if startswith old s
          then new ++ replace_from old new (length old - 1) s'
          else c :: replace_from old new 0 s'
      end
  end.

Definition replace (old new s : str) : str := replace_from old new 0 s.

(** [c.lower()] for code points below 256 (A-Z, and the Latin-1 capitals). *)
Definition lower_char (c : ascii) : ascii :=
  let n := code c in
  if ((65 <=? n) && (n <=? 90))
     || ((192 <=? n) && (n <=? 222) && negb (n =? 215))
  then ascii_of_nat (n + 32) else c.

Definition lower (s : str) : str := map lower_char s.

(** [str(n)] for a non-negative integer. *)
Definition of_nat (n : nat) : str :=
  L (DecimalString.NilZero.string_of_uint (Nat.to_uint n)).

(** [range(0, stop, step)] for a positive step. *)
Definition range_step (stop step : nat) : list nat :=
  map (fun j => j * step) (seq 0 ((stop + step - 1) / step)).

(** [l[i:i+n]] *)
Definition slice {A} (l : list A) (i n : nat) : list A := firstn n (skipn i l).

(** [os.path.basename(p)] : what follows the last slash. *)
Fixpoint basename_from (cur : str) (p : str) : str :=
  match p with
  | [] => rev cur
  | c :: p' => if eqc c "/"%char then basename_from [] p'
               else basename_from (c :: cur) p'
  end.

Definition basename (p : str) : str := basename_from [] p.

End PyStr.

(* ================================================================== *)
(** * The fragment of Python's [re] used by the ingester *)
(* ================================================================== *)

Module Re.
Import PyStr.

(** Regular expressions without groups.  Every quantifier of the ingester's
    patterns applies to a single character class, so [Rep] takes a class, a
    minimum and an optional maximum; it is greedy, as [+], [*], [?] and
    [{m,n}] are. *)
Inductive re :=
| Eps
| Chr (p : ascii -> bool)
| Seq (r1 r2 : re)
| Alt (r1 r2 : re)
| Rep (p : ascii -> bool) (lo : nat) (hi : option nat)
| Bol                       (* ^ under (?m) *)
| Eol.                      (* $ under (?m) *)

(** A pattern with exactly one capture group, which every match goes
    through: [before (group) after]. *)
Record pattern := { before : re; group : re; after : re }.

Definition newline : ascii := ascii_of_nat 10.

Definition at_bol (prev : option ascii) : bool :=
  match prev with None => true | Some c => eqc c newline end.

Definition at_eol (s : str) : bool :=
  match s with [] => true | c :: _ => eqc c newline end.

Definition below (n : nat) (hi : option nat) : bool :=
  match hi with None => true | Some h => n <? h end.

Definition orelse {A} (x y : option A) : option A :=
  match x with Some _ => x | None => y end.

Section Matcher.
Variable A : Type.

(** A continuation receives the character before the current position and
    the remaining input. *)
Definition cont := option ascii -> str -> option A.

(** Greedy repetition of a class: take one more character when allowed, and
    stop here when the rest cannot match after that. *)
Fixpoint rep (p : ascii -> bool) (lo : nat) (hi : option nat) (n : nat)
    (prev : option ascii) (s : str) (k : cont) : option A :=
  let stop := if lo <=? n then k prev s else None in
  match s with
  | c :: s' =>
      if p c && below n hi
      then orelse (rep p lo hi (S n) (Some c) s' k) stop
      else stop
  | [] => stop
  end.

(** Backtracking matcher: alternatives left to right, the first success
    wins. *)
Fixpoint run (r : re) (prev : option ascii) (s : str) (k : cont) : option A :=
  match r with
  | Eps => k prev s
  | Chr p =>
      match s with
      | c :: s' => if p c then k (Some c) s' else None
      | [] => None
      end
  | Seq r1 r2 => run r1 prev s (fun prev' s' => run r2 prev' s' k)
  | Alt r1 r2 => orelse (run r1 prev s k) (run r2 prev s k)
  | Rep p lo hi => rep p lo hi 0 prev s k
  | Bol => if at_bol prev then k prev s else None
  | Eol => if at_eol s then k prev s else None
  end.

End Matcher.

(** A match found at the current position: the text of group 1, the
    character before the end of the match, and what follows the match. *)
Record hit := { captured : str; last_char : option ascii; rest : str }.

(** Try the pattern at the current position only. *)
Definition match_here (p : pattern) (prev : option ascii) (s : str) : option hit :=
  run (before p) prev s (fun p1 s1 =>
    run (group p) p1 s1 (fun p2 s2 =>
      run (after p) p2 s2 (fun p3 s3 =>
        Some {| captured := firstn (length s1 - length s2) s1;
                last_char := p3; rest := s3 |}))).

(** [re.match(p, s)] as a truth value. *)
Definition re_match (p : pattern) (s : str) : bool :=
  match match_here p None s with Some _ => true | None => false end.

(** [re.split(p, s)]: the text between the matches, interleaved with what
    group 1 captured.  [piece] is the text read since the last match, last
    character first.  A match that consumes nothing is passed over (none of
    the ingester's patterns has one). *)
Fixpoint split_at (fuel : nat) (p : pattern) (prev : option ascii)
    (piece : str) (s : str) : list str :=
  match fuel with
  | O => [rev piece ++ s]
  | S fuel' =>
      let step :=
        match s with
        | [] => [rev piece]
        | c :: s' => split_at fuel' p (Some c) (c :: piece) s'
        end in
      match match_here p prev s with
      | Some h =>
          if length (rest h) <? length s
          then rev piece :: captured h
                 :: split_at fuel' p (last_char h) [] (rest h)
          else step
      | None => step
      end
  end.

Definition re_split (p : pattern) (s : str) : list str :=
  split_at (S (length s)) p None [] s.

(** [re.sub(r, repl, s)] for a pattern without group and a replacement
    without escapes: every match, from left to right, is replaced by
    [repl].  A match that consumes nothing is passed over (the ingester
    has none). *)
Fixpoint sub_at (fuel : nat) (r : re) (repl : str) (prev : option ascii)
    (s : str) : str :=
  match fuel with
  | O => s
  | S fuel' =>
      let step :=
        match s with
        | [] => []
        | c :: s' => c :: sub_at fuel' r repl (Some c) s'
        end in
      match run r prev s (fun prev' s' => Some (prev', s')) with
      | Some (prev', s') =>
          if length s' <? length s
          then repl ++ sub_at fuel' r repl prev' s'
          else step
      | None => step
      end
  end.

Definition re_sub (r : re) (repl : str) (s : str) : str :=
  sub_at (S (length s)) r repl None s.

(** ** Character classes and the usual abbreviations *)

Definition between (lo hi : nat) (c : ascii) : bool :=
  (lo <=? code c) && (code c <=? hi).

Definition digit : ascii -> bool := between 48 57.         (* \d *)
Definition upper : ascii -> bool := between 65 90.         (* [A-Z] *)
Definition anychar (c : ascii) : bool := negb (eqc c newline). (* . *)
Definition exactly (a : ascii) (c : ascii) : bool := eqc a c.

Definition plus (p : ascii -> bool) : re := Rep p 1 None.
Definition star (p : ascii -> bool) : re := Rep p 0 None.
Definition opt (p : ascii -> bool) : re := Rep p 0 (Some 1).

Fixpoint lit (s : str) : re :=
  match s with
  | [] => Eps
  | c :: s' => Seq (Chr (exactly c)) (lit s')
  end.

Fixpoint seqs (rs : list re) : re :=
  match rs with
  | [] => Eps
  | [r] => r
  | r :: rs' => Seq r (seqs rs')
  end.

Fixpoint alts (r : re) (rs : list re) : re :=
  match rs with
  | [] => r
  | r' :: rs' => Alt r (alts r' rs')
  end.

End Re.

(* ================================================================== *)
(** * Chunks, as the three scripts exchange them *)
(* ================================================================== *)

Module Data.
Import PyStr.

(** The [metadata] object of a chunk. *)
Record metadata := { source : str; type : str; topic : str }.

(** One line of a [.jsonl] chunk file. *)
Record chunk := { id : str; text : str; meta : metadata }.

(** A Python [float]: a binary64 number. *)
Definition pyfloat := spec_float.

(** The Python float [m * 2**e]. *)
Definition py (m e : Z) : pyfloat := binary_normalize 53 1024 m e false.

(** An embedding vector, as the service answers it and as JSON holds it. *)
Definition vector := list pyfloat.

(** [enumerate(l)] *)
Definition enumerate {A} (l : list A) : list (nat * A) :=
  combine (seq 0 (length l)) l.

(** The exceptions that occur.  [ApiError] is whatever a remote call
    raises, [str(e)] being its message; [Exception] is a plain
    [raise Exception(message)]. *)
Inductive exn :=
| ApiError (message : str)
| Exception (message : str)
| IndexError
| KeyError
| AttributeError
| TypeError
| ValueError
| AxisError.

(** The outcome of a call that may raise. *)
Inductive result (A : Type) :=
| Ok (a : A)
| Raise (e : exn).
Arguments Ok {A} a.
Arguments Raise {A} e.

End Data.

(* ================================================================== *)
(** * guideline_ingester.py *)
(* ================================================================== *)

Module Ingester.
Import PyStr Re Data.

Definition nl : str := [newline].

(** [\n{3,}] *)
Definition pat_blank_lines : re := Rep (exactly newline) 3 None.

(** [Page \d+ of \d+] *)
Definition pat_page_number : re :=
  seqs [lit (L "Page "); plus digit; lit (L " of "); plus digit].

(** [GuidelineChunker.clean_text(text)] *)
Definition clean_text (txt : str) : str :=
  let txt := re_sub pat_blank_lines (nl ++ nl) txt in
  let txt := re_sub pat_page_number [] txt in
  strip txt.

(** The six header patterns of [chunk_by_headers], in the order tried. *)

(** [(?m)^(\d+\.\d+\s+[A-Z].+)$] *)
Definition pat_numbered : pattern :=
  {| before := Bol;
     group := seqs [plus digit; Chr (exactly "."%char); plus digit;
                    plus is_space; Chr upper; plus anychar];
     after := Eol |}.

Definition chapter_tail : list re :=
  [plus is_space; plus digit;
   plus (fun c => exactly ":"%char c || is_space c || exactly "-"%char c);
   plus anychar].

(** [(?m)^(Chapter\s+\d+[:\s-]+.+)$] *)
Definition pat_chapter : pattern :=
  {| before := Bol;
     group := seqs (lit (L "Chapter") :: chapter_tail);
     after := Eol |}.

(** [(?m)^(CHAPTER\s+\d+[:\s-]+.+)$] *)
Definition pat_chapter_caps : pattern :=
  {| before := Bol;
     group := seqs (lit (L "CHAPTER") :: chapter_tail);
     after := Eol |}.

(** [(?m)^([A-Z][A-Z\s]{5,40})$] *)
Definition pat_all_caps : pattern :=
  {| before := Bol;
     group := Seq (Chr upper)
                  (Rep (fun c => upper c || is_space c) 5 (Some 40));
     after := Eol |}.

(** [(?m)^(\d+\.\s+[A-Z].+)$] *)
Definition pat_item : pattern :=
  {| before := Bol;
     group := seqs [plus digit; Chr (exactly "."%char);
                    plus is_space; Chr upper; plus anychar];
     after := Eol |}.

(** [(?m)^(Key\s+Points?|Recommendations?|Summary|Definition|Management|Treatment|Diagnosis).*$] *)
Definition pat_keyword : pattern :=
  {| before := Bol;
     group :=
       alts (seqs [lit (L "Key"); plus is_space; lit (L "Point");
                   opt (exactly "s"%char)])
            [Seq (lit (L "Recommendation")) (opt (exactly "s"%char));
             lit (L "Summary"); lit (L "Definition"); lit (L "Management");
             lit (L "Treatment"); lit (L "Diagnosis")];
     after := Seq (star anychar) Eol |}.

Definition patterns : list pattern :=
  [pat_numbered; pat_chapter; pat_chapter_caps; pat_all_caps; pat_item;
   pat_keyword].

(** The chunk appended by either loop: [n] is [len(chunks)] at that time. *)
Definition make_chunk (src header body : str) (n : nat) : chunk :=
  {| id := L "guide_" ++ replace (L ".pdf") [] (basename src)
             ++ L "_" ++ of_nat n;
     text := L "TOPIC: " ++ header ++ nl ++ L "SOURCE: " ++ basename src
               ++ nl ++ nl ++ body;
     meta := {| source := basename src; type := L "guideline";
                topic := header |} |}.

(** The inner loop [for i, part in enumerate(splits)]. *)
Fixpoint scan_parts (p : pattern) (src : str) (parts : list (nat * str))
    (current_header : str) (chunks : list chunk) : list chunk :=
  match parts with
  | [] => chunks
  | (i, part) :: parts' =>
      if i =? 0 then scan_parts p src parts' current_header chunks
      else
        let part := strip part in
        if re_match p part
        then scan_parts p src parts' part chunks
        else if 50 <? length part
             then scan_parts p src parts' current_header
                    (chunks ++ [make_chunk src current_header part
                                  (length chunks)])
             else scan_parts p src parts' current_header chunks
  end.

(** One turn of [for pattern in patterns], up to the test for a break. *)
Definition scan_pattern (p : pattern) (txt src : str) (chunks : list chunk)
  : list chunk :=
  scan_parts p src (enumerate (re_split p txt)) (L "Introduction") chunks.

(** The loop over the patterns, with its break at the first pattern that
    left a chunk. *)
Fixpoint try_patterns (ps : list pattern) (txt src : str)
    (chunks : list chunk) : list chunk :=
  match ps with
  | [] => chunks
  | p :: ps' =>
      let chunks' := scan_pattern p txt src chunks in
      if 0 <? length chunks' then chunks'
      else try_patterns ps' txt src chunks'
  end.

Definition chunk_size : nat := 2000.

(** One turn of the fallback loop, for the window starting at word [i]. *)
Definition window_step (words : list str) (src : str) (chunks : list chunk)
    (i : nat) : list chunk :=
  let chunk_text := join (L " ") (slice words i (chunk_size / 5)) in
  if 100 <? length chunk_text
  then chunks ++ [make_chunk src (L "Section " ++ of_nat (length chunks + 1))
                    chunk_text (length chunks)]
  else chunks.

(** The fixed-size fallback. *)
Definition fallback (txt src : str) (chunks : list chunk) : list chunk :=
  if (length chunks =? 0) && (200 <? length txt)
  then let words := split txt in
       fold_left (window_step words src)
                 (range_step (length words) (chunk_size / 5)) chunks
  else chunks.

(** [GuidelineChunker.chunk_by_headers(text, source)] *)
Definition chunk_by_headers (txt src : str) : list chunk :=
  fallback txt src (try_patterns patterns txt src []).

(** [GuidelineChunker.load_pdf(file_path)]'s loop over the pages, each
    given by the text extracted from it, or by nothing when its extraction
    raises: what was read before is kept. *)
Fixpoint read_pages (pages : list (option str)) (text : str) : str :=
  match pages with
  | [] => text
  | Some page_text :: more => read_pages more (text ++ page_text ++ nl)
  | None :: _ => text
  end.

(** [GuidelineChunker.load_pdf(file_path)], given the pages of the file,
    or nothing when the file cannot be opened or read as a PDF. *)
Definition load_pdf (file : option (list (option str))) : str :=
  match file with
  | None => []
  | Some pages => read_pages pages []
  end.

(** A file of the directory: its path, and what the reader finds there. *)
Definition pdf_file : Type := str * option (list (option str)).

(** [GuidelineChunker.process_directory()], given the [*.pdf] files of
    [DATA_DIR] when it exists: the chunks written to
    [guideline_chunks.jsonl], one a line. *)
Definition process_directory (DATA_DIR : option (list pdf_file))
  : option (list chunk) :=
  match DATA_DIR with
  | None => None
  | Some files =>
      Some (flat_map (fun f => chunk_by_headers (clean_text (load_pdf (snd f)))
                                                (fst f))
                     files)
  end.

(** The file name without its directories and without ".pdf". *)
Definition stem (src : str) : str := replace (L ".pdf") [] (basename src).

(** The id of the chunk appended when [n] chunks are there. *)
Definition chunk_id (src : str) (n : nat) : str :=
  L "guide_" ++ replace (L ".pdf") [] (basename src) ++ L "_" ++ of_nat n.

(** The chunks are numbered from 0 in their order. *)
Definition numbered (src : str) (chunks : list chunk) : Prop :=
  map id chunks = map (chunk_id src) (seq 0 (length chunks)).

(** The chunks are labelled "Section 1", "Section 2", ... in their
    order. *)
Definition sectioned (chunks : list chunk) : Prop :=
  map (fun c => topic (meta c)) chunks
  = map (fun k => L "Section " ++ of_nat (k + 1)) (seq 0 (length chunks)).

(** A chunk with its header, its body and its number, the body longer
    than [least] and no longer than the text. *)
Definition chunk_of (txt src : str) (least : nat) (c : chunk) : Prop :=
  exists header body n,
    c = make_chunk src header body n /\
    least < length body /\ length body <= length txt.

(** ** Notions used to state where chunks come from *)

(** Where a chunk left by the inner loop comes from: it was there before,
    or it was made of a part that is not the first and is no header. *)
Definition made_of (p : pattern) (src : str) (parts : list (nat * str))
    (c : chunk) : Prop :=
  exists i part header n,
    In (i, part) parts /\ i <> 0 /\ 50 < length (strip part) /\
    re_match p (strip part) = false /\
    c = make_chunk src header (strip part) n.

(** A chunk made by the pattern loop out of a part of some split that is
    not the first part. *)
Definition from_later_part (txt src : str) (c : chunk) : Prop :=
  exists p part header n,
    In p patterns /\ In part (tl (re_split p txt)) /\
    50 < length (strip part) /\ c = make_chunk src header (strip part) n.

(** A chunk made by the fallback loop. *)
Definition from_window (src : str) (c : chunk) : Prop :=
  exists k body, c = make_chunk src (L "Section " ++ of_nat (k + 1)) body k.

(** Total length of the words of a list. *)
Definition letters (ws : list str) : nat := list_sum (map (@length _) ws).

End Ingester.

(* ================================================================== *)
(** * batch_indexer.py *)
(* ================================================================== *)

Module Indexer.
Import PyStr Data.

Definition BATCH_SIZE : nat := 100.
Definition RATE_LIMIT_DELAY : Q := 1 # 2.

(** What [client.models.embed_content] does on one call: it hands back the
    embeddings, or raises an error with a message. *)
Inductive response :=
| Embeddings (values : list vector)
| Fails (message : str).

(** The embedding service: its response to the [n]-th call of the run,
    given the texts sent. *)
Definition service := nat -> list str -> response.

(** What the run does to the outside, in order. *)
Inductive event :=
| Request (n : nat)
| Sleep (seconds : Q).

(** Calls made so far and the events so far, the latest last. *)
Record world := { calls : nat; trace : list event }.

Definition start : world := {| calls := 0; trace := [] |}.

Definition request (w : world) : world :=
  {| calls := S (calls w); trace := trace w ++ [Request (calls w)] |}.

Definition sleep (seconds : Q) (w : world) : world :=
  {| calls := calls w; trace := trace w ++ [Sleep seconds] |}.

(** The test of the [except] branch on [str(e).lower()]. *)
Definition rate_limited (message : str) : bool :=
  let error_str := lower message in
  contains (L "rate") error_str || contains (L "429") error_str
  || contains (L "quota") error_str.

(** [(2 ** (attempt + 1)) * 1] *)
Definition backoff (attempt : nat) : Q :=
  inject_Z (2 ^ Z.of_nat (attempt + 1) * 1).

(** The loop [for attempt in range(retries)], over the attempts still to
    make, and the [raise] that follows it. *)
Fixpoint attempts (api : service) (texts : list str) (retries : nat)
    (todo : list nat) (w : world) : result (list vector) * world :=
  match todo with
  | [] => (Raise (Exception (L "Failed after retries")), w)
  | attempt :: todo' =>
      let w1 := request w in
      match api (calls w) texts with
      | Embeddings values => (Ok values, w1)
      | Fails message =>
          if rate_limited message
          then attempts api texts retries todo' (sleep (backoff attempt) w1)
          else if attempt =? retries - 1
               then (Raise (ApiError message), w1)
               else attempts api texts retries todo' (sleep (inject_Z 1) w1)
      end
  end.

(** [generate_batch_embeddings(texts, retries)] *)
Definition generate_batch_embeddings (api : service) (texts : list str)
    (retries : nat) (w : world) : result (list vector) * world :=
  attempts api texts retries (seq 0 retries) w.

(** An element of [mapping]. *)
Record entry := { entry_id : str; entry_text : str; entry_metadata : metadata;
                  embeddingIndex : nat }.

(** [embeddings_data] and [mapping]. *)
Record storage := { ids : list str; embeddings : list vector;
                    mapping : list entry }.

Definition empty : storage := {| ids := []; embeddings := []; mapping := [] |}.

(** The loop [for j, chunk in enumerate(batch)] that stores the results of
    the batch starting at chunk [i].  The lists are updated in place, so
    what was appended stays when [batch_embeddings[j]] raises. *)
Fixpoint store (i : nat) (batch : list (nat * chunk))
    (batch_embeddings : list vector) (st : storage) : storage * option exn :=
  match batch with
  | [] => (st, None)
  | (j, c) :: batch' =>
      let global_index := i + j in
      match nth_error batch_embeddings j with
      | None => (st, Some IndexError)
      | Some embedding =>
          store i batch' batch_embeddings
            {| ids := ids st ++ [id c];
               embeddings := embeddings st ++ [embedding];
               mapping := mapping st ++
                 [{| entry_id := id c; entry_text := text c;
                     entry_metadata := meta c;
                     embeddingIndex := global_index |}] |}
      end
  end.

(** One turn of [for i in range(0, len(chunks), BATCH_SIZE)]: the [try]
    block, its [except] that only prints, and the pause between batches. *)
Definition process_batch (api : service) (chunks : list chunk)
    (s : storage * world) (i : nat) : storage * world :=
  let (st, w) := s in
  let batch := slice chunks i BATCH_SIZE in
  let texts := map text batch in
  let (r, w1) := generate_batch_embeddings api texts 3 w in
  let st1 := match r with
             | Ok batch_embeddings =>
                 fst (store i (enumerate batch) batch_embeddings st)
             | Raise _ => st
             end in
  let w2 := if i + BATCH_SIZE <? length chunks
            then sleep RATE_LIMIT_DELAY w1 else w1 in
  (st1, w2).

(** The indexing loop of [main], from empty storage. *)
Definition index_chunks (api : service) (chunks : list chunk)
  : storage * world :=
  fold_left (process_batch api chunks)
            (range_step (length chunks) BATCH_SIZE) (empty, start).

(** The pauses of a trace, in order. *)
Fixpoint sleeps (t : list event) : list Q :=
  match t with
  | [] => []
  | Sleep seconds :: t' => seconds :: sleeps t'
  | Request _ :: t' => sleeps t'
  end.

(** The requests of a trace, in order. *)
Fixpoint requests (t : list event) : list nat :=
  match t with
  | [] => []
  | Request n :: t' => n :: requests t'
  | Sleep _ :: t' => requests t'
  end.

(** What the design asks a run to store, said without the two parallel
    lists: batch after batch, for each batch whose request succeeded, the
    ids of its chunks paired with the vectors answered, in chunk order. *)
Fixpoint expected_pairs (api : service) (chunks : list chunk)
    (starts : list nat) (w : world) : list (str * vector) :=
  match starts with
  | [] => []
  | i :: starts' =>
      let batch := slice chunks i BATCH_SIZE in
      let (r, w1) := generate_batch_embeddings api (map text batch) 3 w in
      let w2 := if i + BATCH_SIZE <? length chunks
                then sleep RATE_LIMIT_DELAY w1 else w1 in
      match r with
      | Ok values => combine (map id batch) values
      | Raise _ => []
      end ++ expected_pairs api chunks starts' w2
  end.

(** [l] is [m] with some elements left out, the order kept. *)
Inductive Subseq {A} : list A -> list A -> Prop :=
| Subseq_nil : forall m, Subseq [] m
| Subseq_take : forall x l m, Subseq l m -> Subseq (x :: l) (x :: m)
| Subseq_skip : forall x l m, Subseq l m -> Subseq l (x :: m).

(** A rate-limit failure of the call numbered [n]. *)
Definition rate_limit_at (api : service) (texts : list str) (n : nat)
  : Prop :=
  exists message, api n texts = Fails message /\ rate_limited message = true.

(** [totalChunks] and [embeddingDimension] of the saved metadata. *)
Definition totalChunks (st : storage) : nat := length (ids st).

Definition embeddingDimension (st : storage) : nat :=
  match embeddings st with
  | v :: _ => length v
  | [] => 768
  end.

(** [total_batches = (len(chunks) + BATCH_SIZE - 1) // BATCH_SIZE] *)
Definition total_batches (chunks : list chunk) : nat :=
  (length chunks + BATCH_SIZE - 1) / BATCH_SIZE.

(** ** Notions used to state what a run does *)

(** The vectors the call numbered [n] answered, none when it failed. *)
Definition answered (api : service) (n : nat) (texts : list str)
  : list vector :=
  match api n texts with
  | Embeddings values => values
  | Fails _ => []
  end.

(** A service that answers every call, with one vector for each text. *)
Definition dependable (api : service) : Prop :=
  forall n texts,
    exists values, api n texts = Embeddings values /\
                   length values = length texts.

(** The texts of the batch numbered [k]. *)
Definition batch_texts (chunks : list chunk) (k : nat) : list str :=
  map text (slice chunks (k * BATCH_SIZE) BATCH_SIZE).

(** The events of [b] batches that each succeed at the first request: one
    request a batch, and a pause after every batch but the last. *)
Definition quiet_trace (b : nat) : list event :=
  flat_map (fun k => Request k ::
                     (if S k <? b then [Sleep RATE_LIMIT_DELAY] else []))
           (seq 0 b).

(** The entry of [mapping] describes the chunk at its [embeddingIndex] in
    the input. *)
Definition describes (chunks : list chunk) (e : entry) : Prop :=
  exists c, nth_error chunks (embeddingIndex e) = Some c /\
            entry_id e = id c /\ entry_text e = text c /\
            entry_metadata e = meta c.

(** What holds of the storage while the chunks before [bound] are being
    stored. *)
Definition kept (chunks : list chunk) (bound : nat) (st : storage) : Prop :=
  map entry_id (mapping st) = ids st /\
  Forall (describes chunks) (mapping st) /\
  StronglySorted lt (map embeddingIndex (mapping st)) /\
  Forall (fun e => embeddingIndex e < bound) (mapping st).

(** The entry appended for the chunk numbered [fst jc] of the batch that
    starts at [i]. *)
Definition entry_of (i : nat) (jc : nat * chunk) : entry :=
  {| entry_id := id (snd jc); entry_text := text (snd jc);
     entry_metadata := meta (snd jc); embeddingIndex := i + fst jc |}.

(** What holds of the storage and of the world after [k] batches that
    each succeeded at the first request. *)
Definition orderly (api : service) (chunks : list chunk) (k : nat)
    (s : storage * world) : Prop :=
  ids (fst s) = map id (firstn (k * BATCH_SIZE) chunks) /\
  embeddings (fst s)
  = flat_map (fun j => answered api j (batch_texts chunks j)) (seq 0 k) /\
  map embeddingIndex (mapping (fst s))
  = seq 0 (length (firstn (k * BATCH_SIZE) chunks)) /\
  calls (snd s) = k /\
  trace (snd s)
  = flat_map (fun j => Request j ::
                       (if S j <? total_batches chunks
                        then [Sleep RATE_LIMIT_DELAY] else []))
             (seq 0 k).

End Indexer.

(* ================================================================== *)
(** * Floating-point numbers *)
(* ================================================================== *)

Module F32.
Import Data.

(** ** numpy's [float32] *)

(** IEEE 754 binary32: 24 bits of precision, exponents below 128. *)
Definition f32 := spec_float.

Definition zero : f32 := S754_zero false.
Definition nan : f32 := S754_nan.

(** The float32 number [m * 2**e]. *)
Definition num (m e : Z) : f32 := binary_normalize 24 128 m e false.

(** [2.0] *)
Definition two : f32 := S754_finite false 8388608 (-22).

Definition add : f32 -> f32 -> f32 := SFadd 24 128.
Definition mul : f32 -> f32 -> f32 := SFmul 24 128.
Definition div : f32 -> f32 -> f32 := SFdiv 24 128.
Definition sqrt : f32 -> f32 := SFsqrt 24 128.

(** [x == 0] *)
Definition is_zero (x : f32) : bool := SFeqb x zero.

(** The order in which numpy sorts: ascending, NaN after everything. *)
Definition leb (a b : f32) : bool :=
  match a, b with
  | _, S754_nan => true
  | S754_nan, _ => false
  | _, _ => SFleb a b
  end.

(** The conversion of a Python float that [np.array(..., dtype='float32')]
    makes: to the nearest float32, to an infinity beyond the range. *)
Definition of_float (x : pyfloat) : f32 :=
  match x with
  | S754_finite s m e => binary_round 24 128 s m e
  | _ => x
  end.

(** ** The range in which doubling is exact *)

(** A normal number of magnitude from [2**-125] up to [2**126]: not in the
    lowest binade, and two doublings away from overflow. *)
Definition normal (x : f32) : bool :=
  match x with
  | S754_finite _ m e =>
      (Zpos (digits2_pos m) =? 24)%Z && (-149 <? e)%Z && (e <? 103)%Z
  | _ => false
  end.

(** Zero, or normal. *)
Definition core (x : f32) : bool := is_zero x || normal x.

(** The product of two numbers other than zero is normal: it has not
    underflowed. *)
Definition sound_mul (x y : f32) : bool :=
  match x, y with
  | S754_finite _ _ _, S754_finite _ _ _ => normal (mul x y)
  | _, _ => true
  end.



(** ** Notions used to follow the rounding of [SpecFloat] *)






End F32.

(* ================================================================== *)
(** * diff_analysis.py *)
(* ================================================================== *)

Module Diff.
Import PyStr Data F32.

(** ** Arrays *)

(** The sum of the products of two float32 vectors, added to [acc] from
    left to right, each product and each sum rounded to float32.  (numpy
    and BLAS are free to add in another order, or to keep more bits of
    the sums.) *)
Fixpoint dot_from (acc : f32) (a b : list f32) : f32 :=
  match a, b with
  | x :: a', y :: b' => dot_from (add acc (mul x y)) a' b'
  | _, _ => acc
  end.

(** [np.dot(a, b)] of two float32 vectors of one length. *)
Definition dot (a b : list f32) : f32 := dot_from zero a b.

(** [np.linalg.norm(v)] of a float32 vector. *)
Definition norm (v : list f32) : f32 := sqrt (dot v v).

(** What [np.array(rows, dtype='float32')] is for a list of lists. *)
Inductive ndarray :=
| Array1 (values : list f32)                      (* shape (n,)   *)
| Array2 (cols : nat) (rows : list (list f32)).   (* shape (n, cols), n > 0 *)

(** [np.array(values, dtype='float32')] for a list of Python floats. *)
Definition float32_array (values : vector) : list f32 := map of_float values.

(** [np.array(rows, dtype='float32')] for a list of lists of Python
    floats: the empty list gives a one-dimensional array of shape (0,);
    rows of unequal length are refused; the numbers are converted. *)
Definition np_array (rows : list vector) : result ndarray :=
  match rows with
  | [] => Ok (Array1 [])
  | r :: _ =>
      if forallb (fun r' => length r' =? length r) rows
      then Ok (Array2 (length r) (map float32_array rows))
      else Raise ValueError
  end.

(** [np.linalg.norm(a, axis=1)]: a one-dimensional array has no axis 1. *)
Definition norm_axis1 (a : ndarray) : result (list f32) :=
  match a with
  | Array1 _ => Raise AxisError
  | Array2 _ rows => Ok (map norm rows)
  end.

(** [np.dot(a, v)] of a matrix and a vector: the shapes must agree. *)
Definition np_dot (a : ndarray) (v : list f32) : result (list f32) :=
  match a with
  | Array1 values =>
      if length values =? length v then Ok [dot values v]
      else Raise ValueError
  | Array2 cols rows =>
      if cols =? length v then Ok (map (fun row => dot row v) rows)
      else Raise ValueError
  end.

Fixpoint zip_with {A B C} (f : A -> B -> C) (l : list A) (m : list B)
  : list C :=
  match l, m with
  | a :: l', b :: m' => f a b :: zip_with f l' m'
  | _, _ => []
  end.

(** ** JSON values *)

Inductive json :=
| JNull
| JBool (b : bool)
| JNumber (q : Q)
| JString (s : str)
| JArray (items : list json)
| JObject (fields : list (str * json)).

Definition eqs (a b : str) : bool :=
  if list_eq_dec ascii_dec a b then true else false.

(** [d.get(key)] of a dict given by its items in order: a later item
    replaces an earlier one of the same key. *)
Definition dict_get {V} (d : list (str * V)) (key : str) : option V :=
  match find (fun kv => eqs (fst kv) key) (rev d) with
  | Some kv => Some (snd kv)
  | None => None
  end.

(** The truth value [bool(v)] of a decoded JSON value. *)
Definition truthy (v : json) : bool :=
  match v with
  | JNull => false
  | JBool b => b
  | JNumber q => negb (Qeq_bool q 0)
  | JString s => negb (length s =? 0)
  | JArray items => negb (length items =? 0)
  | JObject fields => negb (length fields =? 0)
  end.

(** ** What the script takes from outside *)

(** Library functions and constants used as given. *)
Record runtime := {
  argsort : list f32 -> list nat;      (* np.argsort, default kind *)
  format_2f : f32 -> str;              (* f"{x:.2f}" *)
  json_loads : str -> option json;     (* json.loads; None when it raises *)
  DIFF_PROMPT : str -> str -> str      (* DIFF_PROMPT.format(guideline_text=, textbook_text=) *)
}.

(** The two remote models, for the guideline chunk at position [n] of the
    run: [None] when the call (or reading its result) raises. *)
Record services := {
  embed_content : nat -> str -> option vector;
  generate_content : nat -> str -> option str
}.

(** The object decoded from [data/rag/embeddings.json]: what it has
    under the keys [ids] and [embeddings], when it has these keys. *)
Record embeddings_json := {
  json_ids : option (list str);
  json_embeddings : option (list vector)
}.

(** The two files [load_vector_db] reads, when they exist, each by what
    reading it gives.  Reading can raise: [json.load] on a text that is
    not JSON and, for [chunk_mapping.json], the building of the id-to-text
    map from an entry without [id] or [text].  What is read has the types
    the indexer writes: ids and texts are strings, rows are lists of
    numbers; the mapping is given by its (id, text) pairs. *)
Record files := {
  TEXTBOOK_EMBEDDINGS : option (result embeddings_json);
  chunk_mapping : option (result (list (str * str)))
}.

(** The dict [load_vector_db] returns. *)
Record vector_db := {
  ids : list str;
  embeddings : ndarray;
  texts : list (str * str)
}.

(** [load_vector_db()] *)
Definition load_vector_db (fs : files) : result (option vector_db) :=
  match TEXTBOOK_EMBEDDINGS fs with
  | None => Ok None
  | Some (Raise e) => Raise e
  | Some (Ok data) =>
      match chunk_mapping fs with
      | None => Ok None
      | Some (Raise e) => Raise e
      | Some (Ok mapping) =>
          match json_ids data, json_embeddings data with
          | None, _ => Raise KeyError
          | Some _, None => Raise KeyError
          | Some data_ids, Some rows =>
              match np_array rows with
              | Raise e => Raise e
              | Ok a => Ok (Some {| ids := data_ids; embeddings := a;
                                    texts := mapping |})
              end
          end
      end
  end.

(** [get_embedding(text)], for the chunk at position [n]. *)
Definition get_embedding (sv : services) (n : nat) (txt : str) : vector :=
  match embed_content sv n txt with
  | Some values => values
  | None => repeat (S754_zero false) 768
  end.

(** One match of the similarity search. *)
Record hit := { chunk_id : str; score : f32; hit_text : str }.

(** The loop [for idx in top_indices]. *)
Fixpoint collect (db : vector_db) (scores : list f32)
    (top_indices : list nat)
  : result (list hit) :=
  match top_indices with
  | [] => Ok []
  | idx :: more =>
      match nth_error (ids db) idx, nth_error scores idx with
      | Some cid, Some s =>
          match collect db scores more with
          | Ok hits =>
              Ok ({| chunk_id := cid; score := s;
                     hit_text := match dict_get (texts db) cid with
                                 | Some t => t
                                 | None => []
                                 end |} :: hits)
          | Raise e => Raise e
          end
      | _, _ => Raise IndexError
      end
  end.

(** [scores = np.dot(vectors, query_vec) / (norms * query_norm)] *)
Definition cosine_scores (dots norms : list f32) (query_norm : f32)
  : list f32 :=
  zip_with div dots (map (fun n => mul n query_norm) norms).

(** The search of [find_relevant_textbook_chunks], from the loaded index
    and the float32 query vector to the matches its loop goes through; [k]
    is the 3 of [[:3]].  A query of norm zero ends the function with the
    empty string, which is the join of no match. *)
Definition search (rt : runtime) (db : vector_db) (query_vec : list f32)
    (k : nat) : result (list hit) :=
  let vectors := embeddings db in
  match norm_axis1 vectors with
  | Raise e => Raise e
  | Ok norms =>
      let query_norm := norm query_vec in
      if is_zero query_norm then Ok []
      else
        match np_dot vectors query_vec with
        | Raise e => Raise e
        | Ok dots =>
            let scores := cosine_scores dots norms query_norm in
            let top_indices := firstn k (rev (argsort rt scores)) in
            collect db scores top_indices
        end
  end.

(** [f"--- MATCH (Score: {scores[idx]:.2f}) ---\n{text}"] *)
Definition show_hit (rt : runtime) (h : hit) : str :=
  L "--- MATCH (Score: " ++ format_2f rt (score h) ++ L ") ---"
    ++ [Re.newline] ++ hit_text h.

Definition unavailable : str := L "Reference textbook content unavailable.".

(** [find_relevant_textbook_chunks(guideline_chunk)] for the chunk at
    position [n].  The global [VECTOR_DB] goes in and comes out. *)
Definition find_relevant_textbook_chunks (rt : runtime) (sv : services)
    (fs : files) (VECTOR_DB : option vector_db) (n : nat) (c : chunk)
  : result str * option vector_db :=
  let loaded :=
    match VECTOR_DB with
    | Some db => Ok (Some db)
    | None => load_vector_db fs
    end in
  match loaded with
  | Raise e => (Raise e, VECTOR_DB)
  | Ok None => (Ok unavailable, None)
  | Ok (Some db) =>
      let query_vec := get_embedding sv n (text c) in
      let query_vec := float32_array query_vec in
      match search rt db query_vec 3 with
      | Raise e => (Raise e, Some db)
      | Ok hits =>
          (Ok (join ([Re.newline] ++ [Re.newline]) (map (show_hit rt) hits)),
           Some db)
      end
  end.

(** [{"has_shift": False}] *)
Definition no_shift : json := JObject [(L "has_shift", JBool false)].

(** [response.text.strip().replace('```json', '').replace('```', '')] *)
Definition unfence (response_text : str) : str :=
  replace (L "```") [] (replace (L "```json") [] (strip response_text)).

(** [analyze_chunk(chunk)] for the chunk at position [n]. *)
Definition analyze_chunk (rt : runtime) (sv : services) (fs : files)
    (VECTOR_DB : option vector_db) (n : nat) (c : chunk)
  : result json * option vector_db :=
  let (found, VECTOR_DB') :=
    find_relevant_textbook_chunks rt sv fs VECTOR_DB n c in
  match found with
  | Raise e => (Raise e, VECTOR_DB')
  | Ok textbook_context =>
      if (length textbook_context =? 0)
         || contains (L "unavailable") textbook_context
      then (Ok no_shift, VECTOR_DB')
      else
        let prompt := DIFF_PROMPT rt (firstn 4000 (text c))
                                     (firstn 4000 textbook_context) in
        match generate_content sv n prompt with
        | None => (Ok no_shift, VECTOR_DB')
        | Some response_text =>
            match json_loads rt (unfence response_text) with
            | None => (Ok no_shift, VECTOR_DB')
            | Some verdict => (Ok verdict, VECTOR_DB')
            end
        end
  end.

Definition any_in (keywords : list string) (combined : str) : bool :=
  existsb (fun kw => contains (L kw) combined) keywords.

(** [detect_category(topic, text)] *)
Definition detect_category (topic txt : str) : str :=
  let combined := lower (topic ++ L " " ++ txt) in
  if any_in ["tuberculosis"; " tb "; "dr-tb"; "mdr-tb"; "xdr-tb"; "ntep";
             "rntcp"; "dots"]%string combined then L "TB"
  else if any_in ["asthma"; "gina"; "bronchodilator"; "ics-formoterol";
                  "inhaler"]%string combined then L "Asthma"
  else if any_in ["ards"; "acute respiratory distress"; "ventilation";
                  "plateau pressure"]%string combined then L "ARDS"
  else if any_in ["copd"; "gold report"; "emphysema";
                  "chronic obstructive"]%string combined then L "COPD"
  else if any_in ["pneumonia"; "cap "; "community-acquired"]%string combined
       then L "Pneumonia"
  else L "Other".

(** An element of [trends]: the verdict's own fields, and the two added. *)
Record trend := {
  verdict_fields : list (str * json);
  source_guideline : str;
  category : str
}.

(** [result.get(key, '')] used as a string operand of [+]. *)
Definition get_str (fields : list (str * json)) (key : str) : result str :=
  match dict_get fields key with
  | None => Ok []
  | Some (JString s) => Ok s
  | Some _ => Raise TypeError
  end.

(** The body of [for i, chunk in enumerate(chunks)] after the call of
    [analyze_chunk]: what becomes of [trends]. *)
Definition record_verdict (c : chunk) (verdict : json) (trends : list trend)
  : result (list trend) :=
  match verdict with
  | JObject fields =>
      if match dict_get fields (L "has_shift") with
         | Some v => truthy v
         | None => false
         end
      then
        match get_str fields (L "topic"), get_str fields (L "new_concept") with
        | Ok topic, Ok new_concept =>
            let cat := detect_category topic new_concept in
            match dict_get fields (L "exam_relevance_score") with
            | None => Raise KeyError
            | Some _ =>
                Ok (trends ++ [{| verdict_fields := fields;
                                  source_guideline := source (meta c);
                                  category := cat |}])
            end
        | _, _ => Raise TypeError
        end
      else Ok trends
  | _ => Raise AttributeError
  end.

(** The loop of [main] over the chunks still to scan. *)
Fixpoint scan (rt : runtime) (sv : services) (fs : files)
    (todo : list (nat * chunk)) (VECTOR_DB : option vector_db)
    (trends : list trend) : result (list trend) :=
  match todo with
  | [] => Ok trends
  | (i, c) :: todo' =>
      let (analysed, VECTOR_DB') := analyze_chunk rt sv fs VECTOR_DB i c in
      match analysed with
      | Raise e => Raise e
      | Ok verdict =>
          match record_verdict c verdict trends with
          | Raise e => Raise e
          | Ok trends' => scan rt sv fs todo' VECTOR_DB' trends'
          end
      end
  end.

(** The object written to [exam_forecast_trends.json], its time stamp
    left out. *)
Record report := {
  total_trends : nat;
  sources_analyzed : list str;
  trends_out : list trend
}.

(** [main()], given the guideline chunks when their file exists: the
    report written, none when the file is missing, or the exception that
    ends the run. *)
Definition main (rt : runtime) (sv : services) (fs : files)
    (GUIDELINE_CHUNKS : option (list chunk)) : result (option report) :=
  match GUIDELINE_CHUNKS with
  | None => Ok None
  | Some chunks =>
      match scan rt sv fs (enumerate chunks) None [] with
      | Raise e => Raise e
      | Ok trends =>
          Ok (Some {| total_trends := length trends;
                      sources_analyzed :=
                        nodup (list_eq_dec ascii_dec)
                              (map source_guideline trends);
                      trends_out := trends |})
      end
  end.

(** ** Notions used to state what a report holds *)

(** A trend as [main] records them for one of the chunks: the source of
    that chunk, a verdict whose [has_shift] is true and which has a score,
    and the category of its topic and new concept. *)
Definition recorded (chunks : list chunk) (t : trend) : Prop :=
  (exists c, In c chunks /\ source_guideline t = source (meta c)) /\
  (exists v, dict_get (verdict_fields t) (L "has_shift") = Some v /\
             truthy v = true) /\
  dict_get (verdict_fields t) (L "exam_relevance_score") <> None /\
  exists topic_text new_concept,
    get_str (verdict_fields t) (L "topic") = Ok topic_text /\
    get_str (verdict_fields t) (L "new_concept") = Ok new_concept /\
    category t = detect_category topic_text new_concept.

(** ** Notions used to state what the search returns *)

(** [c * v] for a float32 number and a float32 vector. *)
Definition scale (c : f32) (v : list f32) : list f32 := map (mul c) v.

(** The cosine of a stored row and the query, as [search] computes it. *)
Definition cosine (q row : list f32) : f32 :=
  div (dot row q) (mul (norm row) (norm q)).

(** The match made of the stored chunk at position [i]. *)
Definition hit_at (db : vector_db) (q : list f32) (rows : list (list f32))
    (i : nat) : hit :=
  let cid := nth i (ids db) [] in
  {| chunk_id := cid;
     score := cosine q (nth i rows []);
     hit_text := match dict_get (texts db) cid with
                 | Some t => t
                 | None => []
                 end |}.

(** Position [i] ranks no lower than position [j]. *)
Definition outranks (q : list f32) (rows : list (list f32)) (i j : nat)
  : Prop :=
  leb (cosine q (nth j rows [])) (cosine q (nth i rows [])) = true.

(** The index loaded from the files of a run that stored nothing. *)
Definition empty_db : vector_db :=
  {| ids := []; embeddings := Array1 []; texts := [] |}.

(** ** Notions used to state when doubling a query changes nothing *)

(** The rows of a loaded index. *)
Definition rows_of (db : vector_db) : list (list f32) :=
  match embeddings db with
  | Array2 _ rows => rows
  | Array1 _ => []
  end.

(** The dot product of [a] and [b], added to [acc], stays in range: no
    product of two numbers other than zero underflows, and every partial
    sum is zero or normal. *)
Fixpoint steady_from (acc : f32) (a b : list f32) : bool :=
  match a, b with
  | x :: a', y :: b' =>
      sound_mul x y && core (add acc (mul x y))
      && steady_from (add acc (mul x y)) a' b'
  | _, _ => true
  end.

Definition steady (a b : list f32) : bool := steady_from zero a b.


End Diff.

(* ================================================================== *)
(** * From the indexer to the change detection *)
(* ================================================================== *)

Module Pipeline.
Import PyStr Data.

(** [embeddings.json] and [chunk_mapping.json] as [main] of the indexer
    dumps them from its storage and [load_vector_db] reads them back; of
    the mapping entries only [id] and [text] are read. *)
Definition saved_files (st : Indexer.storage) : Diff.files :=
  {| Diff.TEXTBOOK_EMBEDDINGS :=
       Some (Ok {| Diff.json_ids := Some (Indexer.ids st);
                   Diff.json_embeddings := Some (Indexer.embeddings st) |});
     Diff.chunk_mapping :=
       Some (Ok (map (fun e => (Indexer.entry_id e, Indexer.entry_text e))
                     (Indexer.mapping st))) |}.

(** A service that never answers. *)
Definition unanswering (api : Indexer.service) : Prop :=
  forall n texts, exists message, api n texts = Indexer.Fails message.

(** Every vector the service answers has length [d]. *)
Definition of_dimension (d : nat) (api : Indexer.service) : Prop :=
  forall n texts v, In v (Indexer.answered api n texts) -> length v = d.

End Pipeline.

(* ================================================================== *)
(** * numpy's argsort and a JSON decoder *)
(* ================================================================== *)

Module Numpy.
Import PyStr Data F32 Diff.

(** Insertion of index [i] after the indices whose score is not greater. *)
Fixpoint insert_index (scores : list f32) (i : nat) (sorted : list nat)
  : list nat :=
  match sorted with
  | [] => [i]
  | j :: sorted' =>
      if leb (nth j scores nan) (nth i scores nan)
      then j :: insert_index scores i sorted'
      else i :: sorted
  end.

(** A stable insertion sort of the indices, which is what numpy's default
    sort does on arrays of fewer than 17 scalars when it does not use SIMD
    code. *)
Definition argsort_stable (scores : list f32) : list nat :=
  fold_left (fun sorted i => insert_index scores i sorted)
            (seq 0 (length scores)) [].

(** What numpy promises of [argsort] whatever the kind: the indices of the
    array, each once, in an order in which the values never decrease (NaN
    last).  The order among equal values is not promised. *)
Definition ascending (scores : list f32) (i j : nat) : Prop :=
  leb (nth i scores nan) (nth j scores nan) = true.

Definition sorts (f : list f32 -> list nat) : Prop :=
  forall scores,
    Permutation (f scores) (seq 0 (length scores)) /\
    StronglySorted (ascending scores) (f scores).

End Numpy.

Module Json.
Import PyStr Data Diff.

(** The blanks JSON allows between tokens. *)
Definition blank (c : ascii) : bool :=
  let n := code c in (n =? 32) || (n =? 9) || (n =? 10) || (n =? 13).

Fixpoint skip (s : str) : str :=
  match s with
  | c :: s' => if blank c then skip s' else s
  | [] => []
  end.

(** The characters of a string up to its closing quote; escapes are not
    read. *)
Fixpoint chars (acc : str) (s : str) : option (str * str) :=
  match s with
  | [] => None
  | c :: s' =>
      if eqc c (ascii_of_nat 34) then Some (rev acc, s')
      else if eqc c (ascii_of_nat 92) then None
      else chars (c :: acc) s'
  end.

Fixpoint digits (acc : Z) (s : str) : Z * str :=
  match s with
  | c :: s' =>
      if Re.digit c
      then digits (10 * acc + Z.of_nat (code c - 48))%Z s'
      else (acc, s)
  | [] => (acc, [])
  end.

Definition quote : ascii := ascii_of_nat 34.

(** One JSON value at the head of [s], and what follows it.  Read are the
    three literals, integers, strings without escapes, arrays and objects:
    enough for the verdicts of the examples. *)
Fixpoint value (fuel : nat) (s : str) : option (json * str) :=
  match fuel with
  | O => None
  | S f =>
      let fix items (g : nat) (acc : list json) (s : str) :=
        match g with
        | O => None
        | S g' =>
            match value f s with
            | Some (v, s1) =>
                match skip s1 with
                | c :: s2 =>
                    if eqc c ","%char then items g' (v :: acc) s2
                    else if eqc c "]"%char
                         then Some (JArray (rev (v :: acc)), s2)
                         else None
                | [] => None
                end
            | None => None
            end
        end in
      let fix members (g : nat) (acc : list (str * json)) (s : str) :=
        match g with
        | O => None
        | S g' =>
            match skip s with
            | c :: s1 =>
                if eqc c quote then
                  match chars [] s1 with
                  | Some (key, s2) =>
                      match skip s2 with
                      | c2 :: s3 =>
                          if eqc c2 ":"%char then
                            match value f s3 with
                            | Some (v, s4) =>
                                match skip s4 with
                                | c4 :: s5 =>
                                    if eqc c4 ","%char
                                    then members g' ((key, v) :: acc) s5
                                    else if eqc c4 "}"%char
                                         then Some (JObject
                                                      (rev ((key, v) :: acc)),
                                                    s5)
                                         else None
                                | [] => None
                                end
                            | None => None
                            end
                          else None
                      | [] => None
                      end
                  | None => None
                  end
                else None
            | [] => None
            end
        end in
      match skip s with
      | [] => None
      | c :: s1 =>
          if eqc c "["%char then
            match skip s1 with
            | c' :: s2 => if eqc c' "]"%char then Some (JArray [], s2)
                          else items (length s1) [] s1
            | [] => None
            end
          else if eqc c "{"%char then
            match skip s1 with
            | c' :: s2 => if eqc c' "}"%char then Some (JObject [], s2)
                          else members (length s1) [] s1
            | [] => None
            end
          else if eqc c quote then
            match chars [] s1 with
            | Some (str_read, s2) => Some (JString str_read, s2)
            | None => None
            end
          else if startswith (L "true") (c :: s1)
               then Some (JBool true, skipn 3 s1)
          else if startswith (L "false") (c :: s1)
               then Some (JBool false, skipn 4 s1)
          else if startswith (L "null") (c :: s1)
               then Some (JNull, skipn 3 s1)
          else if Re.digit c
               then let (n, s2) := digits 0 (c :: s1) in
                    Some (JNumber (inject_Z n), s2)
          else None
      end
  end.

(** [json.loads] on the texts that [value] reads. *)
Definition loads (s : str) : option json :=
  match value (S (length s)) s with
  | Some (v, s') => match skip s' with [] => Some v | _ => None end
  | None => None
  end.

End Json.

(* ================================================================== *)
(** * Concrete inputs *)
(* ================================================================== *)

Module IngesterExamples.
Import PyStr Re Data Ingester.

Definition preamble : str :=
  L "This guideline covers the management of asthma in adult patients.".

Definition heading : str := L "1.1 Background of disease".

Definition paragraph : str :=
  L "Asthma is a chronic inflammatory disease of the airways in adults.".

(** A preamble of 65 characters, a numbered heading and one paragraph. *)
Definition guideline : str := preamble ++ nl ++ heading ++ nl ++ paragraph.

Definition pdf : str := L "data/guidelines/gina.pdf".

(** Two words kept apart by three hundred blanks. *)
Definition sparse : str := L "a" ++ repeat " "%char 300 ++ L "b".

(** Thirty times the same six-letter word, one blank between. *)
Definition plain : str := join (L " ") (repeat (L "asthma") 30).

(** A second file, with the same text. *)
Definition pdf2 : str := L "data/guidelines/gold.pdf".

(** A directory of three files: one read, one that cannot be opened, one
    whose second page cannot be extracted. *)
Definition directory : list pdf_file :=
  [(pdf, Some [Some guideline]);
   (L "data/guidelines/broken.pdf", None);
   (pdf2, Some [Some guideline; None; Some paragraph])].

(** What is written for that directory. *)
Definition written : list chunk :=
  match process_directory (Some directory) with
  | Some chunks => chunks
  | None => []
  end.

(** A note too short to make a chunk. *)
Definition note : str := L "Summary" ++ nl ++ L "See the full text.".

End IngesterExamples.

Module IndexerExamples.
Import PyStr Data Indexer.

(** A service that is rate-limited once and then answers one vector per
    text. *)
Definition limited_once : service :=
  fun n texts =>
    if n <? 1 then Fails (L "429 RESOURCE_EXHAUSTED: rate limit exceeded")
    else Embeddings (map (fun _ => [py 1 0; py 0 0]) texts).

(** A service that answers every call with one vector per text. *)
Definition steady : service :=
  fun _ texts => Embeddings (map (fun _ => [py 1 0; py 0 0]) texts).

(** A service that is out of quota for good. *)
Definition out_of_quota : service :=
  fun _ _ => Fails (L "429 quota exhausted").

Definition some_meta : metadata :=
  {| source := L "book.pdf"; type := L "textbook"; topic := L "COPD" |}.

Definition two_chunks : list chunk :=
  [{| id := L "c0"; text := L "first"; meta := some_meta |};
   {| id := L "c1"; text := L "second"; meta := some_meta |}].

(** The index that loads after [steady] indexed [two_chunks]. *)
Definition two_chunk_index : Diff.vector_db :=
  {| Diff.ids := [L "c0"; L "c1"];
     Diff.embeddings :=
       Diff.Array2 2 [[F32.num 1 0; F32.zero]; [F32.num 1 0; F32.zero]];
     Diff.texts := [(L "c0", L "first"); (L "c1", L "second")] |}.

End IndexerExamples.

Module DiffExamples.
Import PyStr Data F32 Diff Numpy.

(** The runtime of the examples: stable argsort, a decoder for simple JSON
    texts, a prompt made of its two fields, and scores shown as a mark. *)
Definition runtime_ex : runtime :=
  {| argsort := argsort_stable;
     format_2f := fun _ => L "#.##";
     json_loads := Json.loads;
     DIFF_PROMPT := fun guideline_text textbook_text =>
                      L "GUIDELINE: " ++ guideline_text
                        ++ L " TEXTBOOK: " ++ textbook_text |}.

(** The vector (1, 0), as Python floats and as float32. *)
Definition e1_py : vector := [py 1 0; py 0 0].
Definition e1 : list f32 := [num 1 0; zero].

(** Two stored chunks with the same vector. *)
Definition twins : vector_db :=
  {| ids := [L "first"; L "second"];
     embeddings := Array2 2 [e1; e1];
     texts := [(L "first", L "COPD is staged by FEV1.");
               (L "second", L "COPD staging uses FEV1.")] |}.

(** An index of dimension 2. *)
Definition small_files : files :=
  {| TEXTBOOK_EMBEDDINGS :=
       Some (Ok {| json_ids := Some [L "first"; L "second"];
                   json_embeddings := Some [e1_py; e1_py] |});
     chunk_mapping := Some (Ok (texts twins)) |}.

(** What the indexer writes when it stored nothing. *)
Definition empty_files : files :=
  {| TEXTBOOK_EMBEDDINGS :=
       Some (Ok {| json_ids := Some []; json_embeddings := Some [] |});
     chunk_mapping := Some (Ok []) |}.

(** No baseline at all. *)
Definition no_files : files :=
  {| TEXTBOOK_EMBEDDINGS := None; chunk_mapping := None |}.

(** Three stored chunks: the two axes, and the direction (3, 2). *)
Definition trio : vector_db :=
  {| ids := [L "x"; L "y"; L "d"];
     embeddings := Array2 2 [[num 1 0; zero]; [zero; num 1 0];
                             [num 3 0; num 2 0]];
     texts := [(L "x", L "First axis."); (L "y", L "Second axis.");
               (L "d", L "Diagonal.")] |}.


(** The query (3 * 2**62, 2**63), of magnitude about 1.7e19: the squares
    of its entries are float32 numbers, those of its double are not. *)
Definition big : list f32 := [num 3 62; num 1 63].

(** One stored chunk, whose text has the word "unavailable". *)
Definition caveat : vector_db :=
  {| ids := [L "only"];
     embeddings := Array2 2 [e1];
     texts := [(L "only", L "Long-term data are unavailable.")] |}.

Definition guideline_chunk : chunk :=
  {| id := L "guide_gold_0";
     text := L "COPD is staged by symptoms and exacerbations.";
     meta := {| source := L "gold.pdf"; type := L "guideline";
                topic := L "1.1 Staging" |} |}.

End DiffExamples.

Module DiffServices.
Import PyStr Data Diff Numpy DiffExamples.

(** Embeddings always answered with [e1]; a model that answers prose. *)
Definition prose : services :=
  {| embed_content := fun _ _ => Some e1_py;
     generate_content := fun _ _ => Some (L "Sorry, I cannot compare these.") |}.

(** Both remote models down. *)
Definition down : services :=
  {| embed_content := fun _ _ => None;
     generate_content := fun _ _ => None |}.

(** A model that answers a JSON list. *)
Definition listing : services :=
  {| embed_content := fun _ _ => Some e1_py;
     generate_content := fun _ _ => Some (L "[1, 2]") |}.

(** An embedding model of dimension 3. *)
Definition wide : services :=
  {| embed_content := fun _ _ => Some [py 1 0; py 0 0; py 0 0];
     generate_content := fun _ _ => None |}.

(** The context found for any chunk embedded as [e1] against the twins. *)
Definition twins_context : str :=
  join ([Re.newline] ++ [Re.newline])
       (map (show_hit runtime_ex)
            [hit_at twins e1 [e1; e1] 1; hit_at twins e1 [e1; e1] 0]).

End DiffServices.

Module Scenario.
Import PyStr Data Diff DiffExamples.

Definition quoted (s : string) : str := [Json.quote] ++ L s ++ [Json.quote].

(** A verdict as the model is asked to write it, inside a code fence. *)
Definition verdict_text : str :=
  L "```json" ++ [Re.newline] ++ L "{"
    ++ quoted "has_shift" ++ L ": true, "
    ++ quoted "topic" ++ L ": " ++ quoted "COPD GOLD staging update" ++ L ", "
    ++ quoted "old_concept" ++ L ": " ++ quoted "Staging by FEV1" ++ L ", "
    ++ quoted "new_concept" ++ L ": "
    ++ quoted "Staging by symptoms and exacerbations" ++ L ", "
    ++ quoted "exam_relevance_score" ++ L ": 9, "
    ++ quoted "reason" ++ L ": " ++ quoted "Changed classification"
    ++ L "}" ++ [Re.newline] ++ L "```".

(** The verdict of no shift, and a reply that has it inside a code fence,
    on lines of its own. *)
Definition calm_verdict : str :=
  [Re.newline] ++ L "{" ++ quoted "has_shift" ++ L ": false}" ++ [Re.newline].

Definition fenced_reply : str :=
  [Re.newline] ++ L "```json" ++ calm_verdict ++ L "```" ++ L "  ".

Definition answering : services :=
  {| embed_content := fun _ _ => Some e1_py;
     generate_content := fun _ _ => Some verdict_text |}.

End Scenario.

(* ================================================================== *)
(** * Properties of the batch indexer *)
(* ================================================================== *)

Section IndexerFacts.
Import PyStr Data Indexer.

Variable api : service.


Lemma attempts_rate_limited texts retries attempt todo w :
  rate_limit_at api texts (calls w) ->
  attempts api texts retries (attempt :: todo) w =
  attempts api texts retries todo (sleep (backoff attempt) (request w)).
Proof.
  intros [message [Hcall Hrate]]. simpl. rewrite Hcall, Hrate. reflexivity.
Qed.

Lemma attempts_success texts retries attempt todo w values :
  api (calls w) texts = Embeddings values ->
  attempts api texts retries (attempt :: todo) w = (Ok values, request w).
Proof.
  intros Hcall. simpl. rewrite Hcall. reflexivity.
Qed.

Lemma sleeps_app t u : sleeps (t ++ u) = sleeps t ++ sleeps u.
Proof.
  induction t as [|[n|q] t IH]; simpl; [reflexivity|assumption|].
  now rewrite IH.
Qed.

Lemma requests_app t u : requests (t ++ u) = requests t ++ requests u.
Proof.
  induction t as [|[n|q] t IH]; simpl; [reflexivity| |assumption].
  now rewrite IH.
Qed.

(** C2.  Retry policy of [generate_batch_embeddings] with its default of
    three attempts.  When the first [N] calls fail with a rate-limit error
    and the next one succeeds, the batch's embeddings are returned exactly
    when [N < 3], after [N + 1] requests.  When three calls in a row fail
    so, the function gives up after exactly three requests, having waited
    2, 4 and 8 seconds after them, and raises; [main] then leaves the
    storage as it was for that batch.  In all cases the waits never
    decrease. *)
Theorem retry_policy (texts : list str) (w : world) (N : nat)
    (values : list vector) :
  (forall i, i < N -> rate_limit_at api texts (calls w + i)) ->
  (N < 3 -> api (calls w + N) texts = Embeddings values) ->
  let run := generate_batch_embeddings api texts 3 w in
  (fst run = Ok values <-> N < 3) /\
  (N < 3 ->
     requests (trace (snd run))
     = requests (trace w) ++ seq (calls w) (N + 1)) /\
  (3 <= N ->
     fst run = Raise (Exception (L "Failed after retries")) /\
     trace (snd run)
     = trace w ++ [Request (calls w); Sleep (2 # 1);
                   Request (calls w + 1); Sleep (4 # 1);
                   Request (calls w + 2); Sleep (8 # 1)] /\
     forall chunks st i,
       map text (slice chunks i BATCH_SIZE) = texts ->
       fst (process_batch api chunks (st, w) i) = st) /\
  exists waits,
    sleeps (trace (snd run)) = sleeps (trace w) ++ waits /\
    StronglySorted Qle waits.
Proof.
  intros Hfail Hok run. subst run.
  unfold generate_batch_embeddings. change (seq 0 3) with [0; 1; 2].
  assert (Hle : forall a b : Q, Qle_bool a b = true -> Qle a b)
    by (intros a b; apply Qle_bool_iff).
  assert (E0 : calls w + 0 = calls w) by lia.
  assert (E1 : calls w + 1 = S (calls w)) by lia.
  assert (E2 : calls w + 2 = S (S (calls w))) by lia.
  destruct N as [|[|[|N]]].
  - (* the first call succeeds *)
    rewrite E0 in Hok.
    rewrite attempts_success with (values := values) by (apply Hok; lia).
    simpl. repeat split; try lia; try reflexivity.
    + rewrite requests_app. reflexivity.
    + exists []. rewrite sleeps_app. simpl. split; [reflexivity|constructor].
  - (* one failure *)
    pose proof (Hfail 0 ltac:(lia)) as H0. rewrite E0 in H0.
    rewrite E1 in Hok.
    rewrite attempts_rate_limited by exact H0.
    rewrite attempts_success with (values := values) by (apply Hok; lia).
    simpl. repeat split; try lia; try reflexivity.
    + rewrite !requests_app. simpl. rewrite <- !app_assoc. simpl.
      reflexivity.
    + exists [2 # 1]%Q. rewrite !sleeps_app. simpl. rewrite <- !app_assoc.
      split; [reflexivity|]. repeat constructor.
  - (* two failures *)
    pose proof (Hfail 0 ltac:(lia)) as H0. rewrite E0 in H0.
    pose proof (Hfail 1 ltac:(lia)) as H1. rewrite E1 in H1.
    rewrite E2 in Hok.
    rewrite attempts_rate_limited by exact H0.
    rewrite attempts_rate_limited by exact H1.
    rewrite attempts_success with (values := values) by (apply Hok; lia).
    simpl. repeat split; try lia; try reflexivity.
    + rewrite !requests_app. simpl. rewrite <- !app_assoc. simpl.
      reflexivity.
    + exists [2 # 1; 4 # 1]%Q. rewrite !sleeps_app. simpl.
      rewrite <- !app_assoc. split; [reflexivity|].
      repeat constructor. now apply Hle.
  - (* three failures: the loop runs out *)
    pose proof (Hfail 0 ltac:(lia)) as H0. rewrite E0 in H0.
    pose proof (Hfail 1 ltac:(lia)) as H1. rewrite E1 in H1.
    pose proof (Hfail 2 ltac:(lia)) as H2. rewrite E2 in H2.
    assert (Hrun : attempts api texts 3 [0; 1; 2] w =
                   (Raise (Exception (L "Failed after retries")),
                    sleep (backoff 2) (request (sleep (backoff 1)
                      (request (sleep (backoff 0) (request w))))))).
    { rewrite attempts_rate_limited by exact H0.
      rewrite attempts_rate_limited by exact H1.
      rewrite attempts_rate_limited by exact H2.
      reflexivity. }
    rewrite Hrun. simpl fst. simpl snd.
    split; [split; [discriminate|lia]|].
    split; [lia|]. split.
    + intros _. split; [reflexivity|]. split.
      * simpl. rewrite <- !app_assoc. simpl. rewrite E1, E2. reflexivity.
      * intros chunks st i Htexts. unfold process_batch.
        rewrite Htexts. unfold generate_batch_embeddings.
        change (seq 0 3) with [0; 1; 2]. rewrite Hrun. reflexivity.
    + exists [2 # 1; 4 # 1; 8 # 1]%Q. simpl. rewrite !sleeps_app. simpl.
      rewrite <- !app_assoc. split; [reflexivity|].
      repeat constructor; now apply Hle.
Qed.

(** ** The two parallel lists *)

Lemma combine_snoc {A B} (l : list A) (m : list B) a b :
  length l = length m ->
  combine (l ++ [a]) (m ++ [b]) = combine l m ++ [(a, b)].
Proof.
  revert m. induction l as [|x l IH]; intros [|y m] Hlen;
    simpl in *; try discriminate; [reflexivity|].
  f_equal. apply IH. now injection Hlen.
Qed.

Lemma skipn_nth_error {A} (l : list A) n x :
  nth_error l n = Some x -> skipn n l = x :: skipn (S n) l.
Proof.
  revert l. induction n as [|n IH]; intros [|y l] H; simpl in *;
    try discriminate.
  - now injection H as ->.
  - now apply IH.
Qed.

Lemma skipn_nth_error_none {A} (l : list A) n :
  nth_error l n = None -> skipn n l = [].
Proof.
  intros H. apply skipn_all2. now apply nth_error_None.
Qed.

(** The inner loop keeps the lists in step and appends the batch's ids
    paired with the answered vectors, as far as these go. *)
Lemma store_pairs i (batch : list chunk) :
  forall a values st,
    length (ids st) = length (embeddings st) ->
    let st' := fst (store i (combine (seq a (length batch)) batch) values st) in
    length (ids st') = length (embeddings st') /\
    combine (ids st') (embeddings st')
    = combine (ids st) (embeddings st)
        ++ combine (map id batch) (skipn a values).
Proof.
  induction batch as [|c batch IH]; intros a values st Hlen; simpl.
  - split; [assumption|]. now rewrite app_nil_r.
  - destruct (nth_error values a) as [embedding|] eqn:Hnth.
    + rewrite (skipn_nth_error _ _ Hnth).
      specialize (IH (S a) values
        {| ids := ids st ++ [id c];
           embeddings := embeddings st ++ [embedding];
           mapping := mapping st ++
             [{| entry_id := id c; entry_text := text c;
                 entry_metadata := meta c; embeddingIndex := i + a |}] |}).
      simpl in IH. destruct IH as [IHlen IHpairs].
      { rewrite !length_app. simpl. lia. }
      split; [exact IHlen|].
      rewrite IHpairs, combine_snoc by assumption.
      rewrite <- app_assoc. reflexivity.
    + rewrite (skipn_nth_error_none _ _ Hnth). simpl.
      split; [assumption|]. now rewrite app_nil_r.
Qed.

(** The loop over the batches, from any storage whose lists are in step. *)
Lemma fold_pairs (chunks : list chunk) (starts : list nat) :
  forall st w,
    length (ids st) = length (embeddings st) ->
    let st' := fst (fold_left (process_batch api chunks) starts (st, w)) in
    length (ids st') = length (embeddings st') /\
    combine (ids st') (embeddings st')
    = combine (ids st) (embeddings st)
        ++ expected_pairs api chunks starts w.
Proof.
  induction starts as [|i starts IH]; intros st w Hlen; simpl.
  - split; [assumption|]. now rewrite app_nil_r.
  - destruct (generate_batch_embeddings api
                (map text (slice chunks i BATCH_SIZE)) 3 w) as [r w1].
    destruct r as [values|e].
    + pose proof (store_pairs i (slice chunks i BATCH_SIZE) 0 values st Hlen)
        as [Hlen' Hpairs].
      unfold enumerate.
      specialize (IH _ (if i + BATCH_SIZE <? length chunks
                        then sleep RATE_LIMIT_DELAY w1 else w1) Hlen').
      destruct IH as [IHlen IHpairs]. split; [exact IHlen|].
      rewrite IHpairs, Hpairs. simpl skipn. now rewrite <- app_assoc.
    + specialize (IH st (if i + BATCH_SIZE <? length chunks
                         then sleep RATE_LIMIT_DELAY w1 else w1) Hlen).
      exact IH.
Qed.

(** ** Order and uniqueness of the stored ids *)

Lemma Subseq_refl {A} (l : list A) : Subseq l l.
Proof. induction l; constructor; assumption. Qed.

Lemma Subseq_app {A} (l1 m1 l2 m2 : list A) :
  Subseq l1 m1 -> Subseq l2 m2 -> Subseq (l1 ++ l2) (m1 ++ m2).
Proof.
  intros H1 H2. induction H1 as [m| |]; simpl.
  - induction m; simpl; [assumption|now constructor].
  - now constructor.
  - now constructor.
Qed.

Lemma Subseq_In {A} (l m : list A) x : Subseq l m -> In x l -> In x m.
Proof.
  induction 1 as [| y l m H IH | y l m H IH]; simpl; intros Hin.
  - contradiction.
  - destruct Hin; [now left|right; auto].
  - right; auto.
Qed.

Lemma Subseq_NoDup {A} (l m : list A) : Subseq l m -> NoDup m -> NoDup l.
Proof.
  induction 1 as [| y l m H IH | y l m H IH]; intros Hm.
  - constructor.
  - inversion Hm as [|? ? Hnotin Hm']; subst. constructor.
    + intros Hin. apply Hnotin. eapply Subseq_In; eassumption.
    + auto.
  - inversion Hm; auto.
Qed.

Lemma Subseq_combine_fst {A B} (l : list A) (m : list B) :
  Subseq (map fst (combine l m)) l.
Proof.
  revert m. induction l as [|x l IH]; intros [|y m]; simpl;
    try constructor. apply IH.
Qed.

Lemma map_fst_combine {A B} (l : list A) (m : list B) :
  length l = length m -> map fst (combine l m) = l.
Proof.
  revert m. induction l as [|x l IH]; intros [|y m] H; simpl in *;
    try discriminate; [reflexivity|]. f_equal. apply IH. now injection H.
Qed.

(** The ids expected from the batches number [a], [a + 1], ... are among
    the ids of the chunks from [a * BATCH_SIZE] on, in their order. *)
Lemma expected_ids_in_order (chunks : list chunk) (n : nat) :
  forall a w,
    Subseq (map fst (expected_pairs api chunks
                       (map (fun j => j * BATCH_SIZE) (seq a n)) w))
           (map id (skipn (a * BATCH_SIZE) chunks)).
Proof.
  induction n as [|n IH]; intros a w; simpl.
  - constructor.
  - set (rest := skipn (a * BATCH_SIZE) chunks).
    destruct (generate_batch_embeddings api
                (map text (slice chunks (a * BATCH_SIZE) BATCH_SIZE)) 3 w)
      as [r w1].
    rewrite map_app.
    rewrite <- (firstn_skipn BATCH_SIZE rest), map_app.
    apply Subseq_app.
    + destruct r as [values|e]; [apply Subseq_combine_fst|constructor].
    + unfold rest. rewrite skipn_skipn.
      replace (BATCH_SIZE + a * BATCH_SIZE) with (S a * BATCH_SIZE)
        by (simpl; lia).
      apply IH.
Qed.

(** C3.  After an indexing run, whatever batches failed: the id list and
    the embedding list have one length; position by position they hold the
    id of a chunk and the vector answered for it; the stored ids follow the
    order of the input chunks and, the input ids being distinct, none is
    stored twice. *)
Theorem index_invariant (chunks : list chunk) :
  NoDup (map id chunks) ->
  let st := fst (index_chunks api chunks) in
  length (ids st) = length (embeddings st) /\
  combine (ids st) (embeddings st)
  = expected_pairs api chunks (range_step (length chunks) BATCH_SIZE) start /\
  Subseq (ids st) (map id chunks) /\
  NoDup (ids st).
Proof.
  intros Hdistinct st.
  pose proof (fold_pairs chunks (range_step (length chunks) BATCH_SIZE)
                empty start eq_refl) as [Hlen Hpairs].
  fold (index_chunks api chunks) in Hlen, Hpairs. fold st in Hlen, Hpairs.
  simpl in Hpairs.
  assert (Horder : Subseq (ids st) (map id chunks)).
  { rewrite <- (map_fst_combine _ _ Hlen), Hpairs.
    apply (expected_ids_in_order chunks _ 0 start). }
  repeat split; try assumption.
  eapply Subseq_NoDup; eassumption.
Qed.

End IndexerFacts.

(** ** The indexer on concrete runs *)


(** A service that is always rate-limited: three requests, three waits of
    2, 4 and 8 seconds, and the batch fails. *)
Example always_limited :
  Indexer.generate_batch_embeddings
    (fun _ _ => Indexer.Fails (PyStr.L "Quota exceeded")) [PyStr.L "first"] 3
    Indexer.start
  = (Data.Raise (Data.Exception (PyStr.L "Failed after retries")),
     {| Indexer.calls := 3;
        Indexer.trace :=
          [Indexer.Request 0; Indexer.Sleep (2 # 1);
           Indexer.Request 1; Indexer.Sleep (4 # 1);
           Indexer.Request 2; Indexer.Sleep (8 # 1)] |}).
Proof. vm_compute. reflexivity. Qed.

(** Another kind of failure is retried after one second and raised again
    as it is at the third attempt. *)
Example always_broken :
  Indexer.generate_batch_embeddings
    (fun _ _ => Indexer.Fails (PyStr.L "500 internal")) [PyStr.L "first"] 3
    Indexer.start
  = (Data.Raise (Data.ApiError (PyStr.L "500 internal")),
     {| Indexer.calls := 3;
        Indexer.trace :=
          [Indexer.Request 0; Indexer.Sleep (1 # 1);
           Indexer.Request 1; Indexer.Sleep (1 # 1);
           Indexer.Request 2] |}).
Proof. vm_compute. reflexivity. Qed.

(** One rate-limit failure, then success: the embeddings come back. *)
Lemma retry_policy_witness :
  let api := IndexerExamples.limited_once in
  let texts := [PyStr.L "first"; PyStr.L "second"] in
  let run := Indexer.generate_batch_embeddings api texts 3 Indexer.start in
  fst run = Data.Ok [[Data.py 1 0; Data.py 0 0];
                     [Data.py 1 0; Data.py 0 0]] <-> 1 < 3.
Proof.
  intros api texts run.
  refine (proj1 (@retry_policy api texts Indexer.start 1
                   [[Data.py 1 0; Data.py 0 0];
                    [Data.py 1 0; Data.py 0 0]] _ _)).
  - intros i Hi. exists (PyStr.L "429 RESOURCE_EXHAUSTED: rate limit exceeded").
    assert (i = 0) as -> by lia. split; reflexivity.
  - intros _. reflexivity.
Defined.

(** The run over two chunks with distinct ids. *)
Lemma index_invariant_witness :
  let st := fst (Indexer.index_chunks IndexerExamples.limited_once
                   IndexerExamples.two_chunks) in
  length (Indexer.ids st) = length (Indexer.embeddings st) /\
  Indexer.ids st = [PyStr.L "c0"; PyStr.L "c1"] /\
  NoDup (Indexer.ids st).
Proof.
  assert (Hdistinct : NoDup (map Data.id IndexerExamples.two_chunks)).
  { repeat constructor; simpl; intuition discriminate. }
  pose proof (@index_invariant IndexerExamples.limited_once
                IndexerExamples.two_chunks Hdistinct)
    as [Hlen [_ [_ Hnodup]]].
  intros st. split; [exact Hlen|]. split; [reflexivity|exact Hnodup].
Defined.

(* ================================================================== *)
(** * Properties of the guideline segmenter *)
(* ================================================================== *)


Section IngesterFacts.
Import PyStr Re Data Ingester.

Variable p : pattern.
Variable src : str.

Lemma enumerate_cons {A} (x : A) (l : list A) :
  enumerate (x :: l) = (0, x) :: combine (seq 1 (length l)) l.
Proof. reflexivity. Qed.


Lemma scan_parts_origin (parts : list (nat * str)) :
  forall header chunks c,
    In c (scan_parts p src parts header chunks) ->
    In c chunks \/ made_of p src parts c.
Proof.
  induction parts as [|[i part] parts IH]; intros header chunks c Hin;
    simpl in Hin.
  - now left.
  - assert (Hweaken : forall c', made_of p src parts c' ->
                                 made_of p src ((i, part) :: parts) c').
    { intros c' (i' & part' & h & n & Hin' & Hrest).
      exists i', part', h, n. split; [now right|exact Hrest]. }
    destruct (i =? 0) eqn:Hi.
    { apply IH in Hin. destruct Hin; [now left|right; auto]. }
    destruct (re_match p (strip part)) eqn:Hm.
    { apply IH in Hin. destruct Hin; [now left|right; auto]. }
    destruct (50 <? length (strip part)) eqn:Hlen.
    + apply IH in Hin. destruct Hin as [Hin|Hin]; [|right; auto].
      apply in_app_or in Hin. destruct Hin as [Hin|[<-|[]]]; [now left|].
      right. exists i, part, header, (length chunks).
      split; [now left|]. split; [now apply Nat.eqb_neq|].
      split; [now apply Nat.ltb_lt|]. split; [assumption|reflexivity].
    + apply IH in Hin. destruct Hin; [now left|right; auto].
Qed.

End IngesterFacts.

Section SegmenterFacts.
Import PyStr Re Data Ingester.

Variable txt src : str.



Lemma enumerate_later {A} (l : list A) i x :
  In (i, x) (enumerate l) -> i <> 0 -> In x (tl l).
Proof.
  destruct l as [|y l]; [intros []|].
  rewrite enumerate_cons. intros [Heq|Hin] Hi.
  - injection Heq as <- _. contradiction.
  - simpl. eapply in_combine_r. exact Hin.
Qed.

Lemma try_patterns_origin (ps : list pattern) :
  forall chunks c,
    incl ps patterns ->
    In c (try_patterns ps txt src chunks) ->
    In c chunks \/ from_later_part txt src c.
Proof.
  induction ps as [|p ps IH]; intros chunks c Hincl Hin; simpl in Hin.
  - now left.
  - assert (Hscan : forall c', In c' (scan_pattern p txt src chunks) ->
                               In c' chunks \/ from_later_part txt src c').
    { intros c' Hc'. apply scan_parts_origin in Hc'.
      destruct Hc' as [Hc'|(i & part & h & n & Hi & Hnz & Hlen & _ & ->)];
        [now left|right].
      exists p, part, h, n. split; [apply Hincl; now left|].
      split; [eapply enumerate_later; eassumption|]. now split. }
    destruct (0 <? length (scan_pattern p txt src chunks)).
    + now apply Hscan.
    + apply IH in Hin; [|intros q Hq; apply Hincl; now right].
      destruct Hin as [Hin|Hin]; [now apply Hscan|now right].
Qed.

Lemma windows_origin (words : list str) (starts : list nat) :
  forall chunks c,
    In c (fold_left (window_step words src) starts chunks) ->
    In c chunks \/ from_window src c.
Proof.
  induction starts as [|i starts IH]; intros chunks c Hin; simpl in Hin.
  - now left.
  - apply IH in Hin. destruct Hin as [Hin|Hin]; [|now right].
    unfold window_step in Hin.
    destruct (100 <? _); [|now left].
    apply in_app_or in Hin. destruct Hin as [Hin|[<-|[]]]; [now left|].
    right. now exists (length chunks), (join (L " ") (slice words i (chunk_size / 5))).
Qed.

Lemma fallback_origin (chunks : list chunk) c :
  In c (fallback txt src chunks) -> In c chunks \/ from_window src c.
Proof.
  unfold fallback. destruct (_ && _); [apply windows_origin|now left].
Qed.

(** ** The fallback and the length of the rejoined words *)

Lemma split_from_nonempty (s : str) :
  forall cur, Forall (fun w => w <> []) (split_from cur s).
Proof.
  assert (Hrev : forall (c : ascii) cur, rev (c :: cur) <> []).
  { intros c cur H. apply (f_equal (@length _)) in H.
    rewrite length_rev in H. discriminate. }
  induction s as [|c s IH]; intros cur; simpl.
  - destruct cur; repeat constructor. apply Hrev.
  - destruct (is_space c); [|apply IH].
    destruct cur; [apply IH|]. constructor; [apply Hrev|apply IH].
Qed.


Lemma join_length (sep : str) (ws : list str) :
  length (join sep ws) = letters ws + length sep * (length ws - 1).
Proof.
  unfold letters.
  induction ws as [|w [|w' ws] IH]; simpl in *.
  - lia.
  - lia.
  - rewrite !length_app, IH. simpl. lia.
Qed.

Lemma letters_ge (ws : list str) :
  Forall (fun w => w <> []) ws -> length ws <= letters ws.
Proof.
  unfold letters. induction 1 as [|w ws Hw _ IH]; simpl; [lia|].
  destruct w; [contradiction|simpl; lia].
Qed.

Lemma letters_firstn n (ws : list str) : letters (firstn n ws) <= letters ws.
Proof.
  unfold letters. revert n. induction ws as [|w ws IH]; intros [|n]; simpl;
    try lia. specialize (IH n). lia.
Qed.

Lemma letters_skipn n (ws : list str) : letters (skipn n ws) <= letters ws.
Proof.
  unfold letters. revert n. induction ws as [|w ws IH]; intros [|n]; simpl;
    try lia. specialize (IH n). lia.
Qed.

(** A window is never longer, rejoined, than all the words rejoined. *)
Lemma window_length (ws : list str) i n :
  length (join (L " ") (slice ws i n)) <= length (join (L " ") ws).
Proof.
  rewrite !join_length. unfold slice.
  pose proof (letters_firstn n (skipn i ws)).
  pose proof (letters_skipn i ws).
  pose proof (length_firstn n (skipn i ws)).
  pose proof (length_skipn i ws). simpl. lia.
Qed.

Lemma windows_grow (words : list str) (starts : list nat) :
  forall chunks,
    length chunks <= length (fold_left (window_step words src) starts chunks).
Proof.
  induction starts as [|i starts IH]; intros chunks; simpl; [lia|].
  etransitivity; [|apply IH]. unfold window_step.
  destruct (100 <? _); [rewrite length_app; simpl; lia|lia].
Qed.

Lemma windows_idle (words : list str) (starts : list nat) chunks :
  length (join (L " ") words) <= 100 ->
  fold_left (window_step words src) starts chunks = chunks.
Proof.
  intros Hshort. revert chunks.
  induction starts as [|i starts IH]; intros chunks; simpl; [reflexivity|].
  unfold window_step at 2.
  pose proof (window_length words i (chunk_size / 5)).
  destruct (100 <? _) eqn:Hlong; [apply Nat.ltb_lt in Hlong; lia|apply IH].
Qed.

(** The first window is long enough as soon as all the words are. *)
Lemma first_window_long (words : list str) :
  Forall (fun w => w <> []) words ->
  100 < length (join (L " ") words) ->
  100 < length (join (L " ") (slice words 0 (chunk_size / 5))).
Proof.
  intros Hwords Hlong. unfold slice. simpl skipn.
  change (chunk_size / 5) with 400.
  destruct (Nat.le_gt_cases (length words) 400) as [Hfew|Hmany].
  - now rewrite firstn_all2.
  - rewrite join_length.
    assert (Hfirst : Forall (fun w => w <> []) (firstn 400 words)).
    { clear Hlong Hmany. generalize 400.
      induction Hwords as [|w ws Hw _ IH]; intros [|n]; simpl;
        constructor; auto. }
    apply letters_ge in Hfirst. rewrite length_firstn in Hfirst.
    rewrite length_firstn. change (length (L " ")) with 1. lia.
Qed.

End SegmenterFacts.

Section SegmenterTheorems.
Import PyStr Re Data Ingester IngesterExamples.

(** The splits of Python's [re.split] on three small texts. *)
Example split_keyword :
  re_split pat_keyword
    (L "Intro" ++ nl ++ L "Key Points of care" ++ nl ++ L "Body")
  = [L "Intro" ++ nl; L "Key Points"; nl ++ L "Body"].
Proof. vm_compute. reflexivity. Qed.

Example split_all_caps :
  re_split pat_all_caps
    (L "x" ++ nl ++ L "CLINICAL FEATURES" ++ nl ++ L "text")
  = [L "x" ++ nl; L "CLINICAL FEATURES"; nl ++ L "text"].
Proof. vm_compute. reflexivity. Qed.

Example split_no_match :
  re_split pat_item (L "1.1 Background") = [L "1.1 Background"].
Proof. vm_compute. reflexivity. Qed.

(** C4, as the code has it.  The part of a split that precedes the first
    match is passed over: the inner loop behaves as if started at the
    second part, with "Introduction" as the header in force, so that label
    can only go to a later part met before any header.  Every chunk of
    [chunk_by_headers] is made of a later part of some pattern's split, or
    is a window of the fallback, labelled "Section k". *)
Theorem preamble_is_skipped (p : pattern) (txt src : str)
    (chunks : list chunk) :
  let later := tl (re_split p txt) in
  scan_pattern p txt src chunks
  = scan_parts p src (combine (seq 1 (length later)) later)
      (L "Introduction") chunks
  /\ forall c, In c (chunk_by_headers txt src) ->
               from_later_part txt src c \/ from_window src c.
Proof.
  split.
  - unfold scan_pattern. destruct (re_split p txt) as [|pre parts].
    + reflexivity.
    + rewrite enumerate_cons. reflexivity.
  - intros c Hin. unfold chunk_by_headers in Hin.
    apply fallback_origin in Hin. destruct Hin as [Hin|Hin]; [|now right].
    apply try_patterns_origin in Hin; [|apply incl_refl].
    destruct Hin as [[]|Hin]. now left.
Qed.

(** C4 as stated fails: a preamble of 65 characters before a numbered
    heading, and the only chunk is the one under that heading. *)
Lemma introduction_counterexample :
  In pat_numbered patterns /\
  re_split pat_numbered guideline
  = [preamble ++ nl; heading; nl ++ paragraph] /\
  50 < length (strip (preamble ++ nl)) /\
  map (fun c => topic (meta c)) (chunk_by_headers guideline pdf) = [heading].
Proof.
  split; [now left|]. split; [vm_compute; reflexivity|].
  split; [apply Nat.ltb_lt; vm_compute; reflexivity|].
  vm_compute. reflexivity.
Qed.

Lemma range_step_first n step :
  0 < n -> 0 < step ->
  exists more, range_step n step = 0 :: more.
Proof.
  intros Hn Hstep. unfold range_step.
  destruct ((n + step - 1) / step) as [|k] eqn:Hdiv.
  - apply Nat.div_small_iff in Hdiv; lia.
  - simpl. eexists. reflexivity.
Qed.

(** C5, as the code has it.  When no pattern left a chunk and the text has
    more than 200 characters, the fallback emits a chunk exactly when the
    words of the text, rejoined by single blanks, make more than 100
    characters. *)
Theorem fallback_emits (txt src : str) :
  try_patterns patterns txt src [] = [] ->
  200 < length txt ->
  (chunk_by_headers txt src <> []
   <-> 100 < length (join (L " ") (split txt))).
Proof.
  intros Hnone Hlong. unfold chunk_by_headers, fallback. rewrite Hnone.
  apply Nat.ltb_lt in Hlong. rewrite Hlong. simpl andb. cbv iota.
  set (words := split txt). split.
  - intros Hsome.
    destruct (Nat.le_gt_cases (length (join (L " ") words)) 100)
      as [Hshort|Hok]; [|exact Hok].
    exfalso. apply Hsome. now apply windows_idle.
  - intros Hwords.
    assert (Hne : 0 < length words).
    { destruct words; [simpl in Hwords; lia|simpl; lia]. }
    destruct (range_step_first (n := length words) (step := chunk_size / 5) Hne)
      as [more ->]; [vm_compute; lia|].
    simpl fold_left.
    pose proof (first_window_long (split_from_nonempty txt []) Hwords)
      as Hfirst.
    fold (split txt) in Hfirst. fold words in Hfirst.
    unfold window_step at 2. apply Nat.ltb_lt in Hfirst. rewrite Hfirst.
    match goal with
    | |- fold_left ?f ?l ?c <> [] =>
        pose proof (windows_grow src words l c) as Hgrow;
        destruct (fold_left f l c); [simpl in Hgrow; lia|discriminate]
    end.
Qed.

(** C5 as stated fails: 302 characters, no heading, and no chunk. *)
Lemma fallback_counterexample :
  sparse <> [] /\
  try_patterns patterns sparse pdf [] = [] /\
  200 < length sparse /\
  chunk_by_headers sparse pdf = [].
Proof.
  split; [discriminate|]. split; [vm_compute; reflexivity|].
  split; [apply Nat.ltb_lt; vm_compute; reflexivity|].
  vm_compute. reflexivity.
Qed.

End SegmenterTheorems.

(** Thirty words, 209 characters, no heading: one window is emitted. *)
Lemma fallback_emits_witness :
  Ingester.chunk_by_headers IngesterExamples.plain IngesterExamples.pdf <> [].
Proof.
  apply (fallback_emits IngesterExamples.plain IngesterExamples.pdf).
  - vm_compute. reflexivity.
  - apply Nat.ltb_lt. vm_compute. reflexivity.
  - apply Nat.ltb_lt. vm_compute. reflexivity.
Defined.

(* ================================================================== *)
(** * Properties of the change-detection script *)
(* ================================================================== *)


Unset Implicit Arguments.

(** ** The rounding of float32 operations under a change of exponent *)

Section RoundingFacts.
Import F32.
Local Open Scope Z_scope.












Lemma loc_of_rec m l : loc_of_shr_record (shr_record_of_loc m l) = l.
Proof. destruct l as [|[| |]]; reflexivity. Qed.








(** *** Doubling a number *)










(** *** Products *)





(** *** Quotients *)


(** *** Sums *)












(** *** Square roots *)



End RoundingFacts.

(** ** The order of the scores *)

Section OrderFacts.
Import PyStr Data F32 Diff Numpy.

Lemma compare_cont_spec (m n : positive) :
  CompareSpec (m = n) (Pos.lt m n) (Pos.lt n m) (Pos.compare_cont Eq m n).
Proof. apply Pos.compare_spec. Qed.

Ltac order_cases :=
  repeat match goal with
         | |- context [Z.compare ?x ?y] =>
             destruct (Z.compare_spec x y); subst
         | |- context [Pos.compare_cont Eq ?x ?y] =>
             destruct (compare_cont_spec x y); subst
         | H : context [Z.compare ?x ?y] |- _ =>
             destruct (Z.compare_spec x y); subst
         | H : context [Pos.compare_cont Eq ?x ?y] |- _ =>
             destruct (compare_cont_spec x y); subst
         end;
  cbn in *; try reflexivity; try discriminate; try lia; auto.

Lemma leb_refl a : leb a a = true.
Proof.
  destruct a as [[]|[]| |[] m e]; try reflexivity;
    unfold leb, SFleb, SFcompare; order_cases.
Qed.

Lemma leb_total a b : leb a b = true \/ leb b a = true.
Proof.
  destruct a as [[]|[]| |[] m e], b as [[]|[]| |[] n f]; auto;
    unfold leb, SFleb, SFcompare; order_cases.
Qed.

Lemma leb_trans a b c :
  leb a b = true -> leb b c = true -> leb a c = true.
Proof.
  destruct a as [[]|[]| |[] m e], b as [[]|[]| |[] n f],
           c as [[]|[]| |[] k g];
    try reflexivity; try discriminate;
    unfold leb, SFleb, SFcompare; intros H1 H2; order_cases.
Qed.

Lemma insert_index_perm scores i sorted :
  Permutation (insert_index scores i sorted) (i :: sorted).
Proof.
  induction sorted as [|j sorted IH]; simpl; [reflexivity|].
  destruct (leb _ _); [|reflexivity].
  rewrite IH. apply perm_swap.
Qed.

Lemma insert_index_sorted scores i sorted :
  StronglySorted (ascending scores) sorted ->
  StronglySorted (ascending scores) (insert_index scores i sorted).
Proof.
  induction 1 as [|j sorted Hsorted IH Hj]; simpl.
  - repeat constructor.
  - destruct (leb (nth j scores nan) (nth i scores nan)) eqn:Hji.
    + constructor; [exact IH|].
      rewrite insert_index_perm. constructor; assumption.
    + assert (Hij : ascending scores i j).
      { destruct (leb_total (nth i scores nan) (nth j scores nan));
          [assumption|congruence]. }
      constructor; [now constructor|].
      constructor; [assumption|].
      eapply Forall_impl; [|exact Hj].
      intros k Hjk. eapply leb_trans; eassumption.
Qed.

Lemma insertion_fold scores (todo : list nat) :
  forall sorted,
    StronglySorted (ascending scores) sorted ->
    let out := fold_left (fun s i => insert_index scores i s) todo sorted in
    Permutation out (rev todo ++ sorted) /\
    StronglySorted (ascending scores) out.
Proof.
  induction todo as [|i todo IH]; intros sorted Hsorted; simpl.
  - split; [reflexivity|assumption].
  - destruct (IH _ (insert_index_sorted scores i sorted Hsorted))
      as [Hperm Hs].
    split; [|exact Hs].
    rewrite Hperm, insert_index_perm, <- app_assoc. reflexivity.
Qed.

(** The insertion sort is an argsort. *)
Lemma argsort_stable_sorts : sorts argsort_stable.
Proof.
  intros scores. unfold argsort_stable.
  destruct (insertion_fold scores (seq 0 (length scores)) [])
    as [Hperm Hs]; [constructor|].
  split; [|exact Hs].
  rewrite Hperm, app_nil_r. symmetry. apply Permutation_rev.
Qed.

End OrderFacts.

(** ** Norms, dot products and the doubling of a query *)

Section VectorFacts.
Import PyStr Data F32 Diff.

Lemma dot_zeros (n : nat) : dot (repeat zero n) (repeat zero n) = zero.
Proof.
  unfold dot. induction n as [|n IH]; [reflexivity|exact IH].
Qed.

Lemma norm_zeros (n : nat) : norm (repeat zero n) = zero.
Proof. unfold norm. now rewrite dot_zeros. Qed.

(** The 768 Python zeros of the fallback, as a float32 array. *)
Lemma float32_zeros (n : nat) :
  float32_array (repeat (S754_zero false) n) = repeat zero n.
Proof. unfold float32_array. now rewrite map_repeat. Qed.

Lemma length_scale c v : length (scale c v) = length v.
Proof. apply length_map. Qed.

Lemma cosine_scores_rows (rows : list (list f32)) (q : list f32) :
  cosine_scores (map (fun row => dot row q) rows) (map norm rows) (norm q)
  = map (cosine q) rows.
Proof.
  unfold cosine_scores. induction rows as [|row rows IH]; simpl;
    [reflexivity|]. now rewrite IH.
Qed.

(** What [search] does on a two-dimensional index whose rows have the
    length of the query, the norm of the query not being zero. *)
Lemma search_scored rt db d rows q k :
  embeddings db = Array2 d rows ->
  d = length q ->
  is_zero (norm q) = false ->
  search rt db q k
  = collect db (map (cosine q) rows)
      (firstn k (rev (argsort rt (map (cosine q) rows)))).
Proof.
  intros Harr -> Hnorm. unfold search. rewrite Harr. simpl.
  rewrite Hnorm, Nat.eqb_refl, cosine_scores_rows. reflexivity.
Qed.

(** *** Doubling *)














End VectorFacts.

(** ** The ranking of the matches *)

Section SortedFacts.
Variable A : Type.
Variable R : A -> A -> Prop.

Lemma StronglySorted_app_inv (l m : list A) :
  StronglySorted R (l ++ m) ->
  StronglySorted R l /\ StronglySorted R m /\
  forall x y, In x l -> In y m -> R x y.
Proof.
  induction l as [|a l IH]; simpl; intros H.
  - split; [constructor|]. split; [assumption|]. intros x y [].
  - apply StronglySorted_inv in H. destruct H as [Hs Ha].
    destruct (IH Hs) as [Hl [Hm Hlm]].
    rewrite Forall_app in Ha. destruct Ha as [Hal Ham].
    split; [now constructor|]. split; [assumption|].
    intros x y [<-|Hx] Hy; [|now apply Hlm].
    rewrite Forall_forall in Ham. now apply Ham.
Qed.

Lemma StronglySorted_snoc (S : A -> A -> Prop) (l : list A) (a : A) :
  StronglySorted S l -> Forall (fun x => S x a) l ->
  StronglySorted S (l ++ [a]).
Proof.
  induction 1 as [|b l Hs IH Hb]; simpl; intros Hall.
  - repeat constructor.
  - inversion Hall as [|? ? Hba Hall']; subst.
    constructor; [now apply IH|].
    rewrite Forall_app. split; [assumption|now repeat constructor].
Qed.

Lemma StronglySorted_rev (l : list A) :
  StronglySorted R l -> StronglySorted (fun x y => R y x) (rev l).
Proof.
  induction 1 as [|a l Hs IH Ha]; simpl; [constructor|].
  apply StronglySorted_snoc; [assumption|].
  rewrite Forall_forall in *. intros x Hx. apply Ha. now apply in_rev.
Qed.

End SortedFacts.

Section RankingFacts.
Import PyStr Data F32 Diff Numpy.

Variable rt : runtime.
Variable db : vector_db.
Variable q : list f32.
Variable rows : list (list f32).

(** The cosine with a row of no entry: zero divided by zero. *)
Lemma cosine_nil : cosine q [] = nan.
Proof.
  unfold cosine. change (dot [] q) with zero. change (norm []) with zero.
  destruct (norm q) as [[]|[]| |[] m e]; reflexivity.
Qed.

Lemma nth_scores i :
  nth i (map (cosine q) rows) nan = nth i (map (cosine q) rows) (cosine q []).
Proof. now rewrite cosine_nil. Qed.

Lemma ascending_outranks i j :
  ascending (map (cosine q) rows) j i <-> outranks q rows i j.
Proof.
  unfold ascending, outranks. now rewrite !nth_scores, !map_nth.
Qed.

Lemma collect_ok (top : list nat) :
  Forall (fun i => i < length rows) top ->
  length rows <= length (ids db) ->
  collect db (map (cosine q) rows) top = Ok (map (hit_at db q rows) top).
Proof.
  intros Hin Hids. induction Hin as [|i top Hi _ IH]; simpl;
    [reflexivity|].
  rewrite (nth_error_nth' (ids db) [] (n := i)) by lia.
  rewrite (nth_error_nth' (map (cosine q) rows) (cosine q []) (n := i))
    by (now rewrite length_map).
  rewrite IH, map_nth. reflexivity.
Qed.

(** C6, as the code has it.  On an index of at least one row whose rows
    have the length of the query and whose ids are as many, a query of
    non-zero norm gets the matches of [min k n] distinct stored chunks,
    each with its cosine, never a higher score after a lower one (NaN, the
    score of a stored zero vector, counts as highest), and no chunk left
    out outranks one returned.  Which of several equal scores comes first
    is left to [argsort]. *)
Theorem search_ranked (d k : nat) :
  sorts (argsort rt) ->
  embeddings db = Array2 d rows ->
  d = length q ->
  length rows <= length (ids db) ->
  is_zero (norm q) = false ->
  exists top : list nat,
    search rt db q k = Ok (map (hit_at db q rows) top) /\
    length top = Nat.min k (length rows) /\
    length (map (hit_at db q rows) top) <= k /\
    NoDup top /\
    Forall (fun i => i < length rows) top /\
    StronglySorted (outranks q rows) top /\
    forall j, j < length rows -> ~ In j top ->
              Forall (fun i => outranks q rows i j) top.
Proof.
  intros Hsorts Harr Hd Hids Hnorm.
  rewrite (search_scored rt db d rows q k Harr Hd Hnorm).
  set (scores := map (cosine q) rows).
  destruct (Hsorts scores) as [Hperm Hsorted].
  assert (Hlen : length scores = length rows) by apply length_map.
  rewrite Hlen in Hperm.
  set (ranked := rev (argsort rt scores)).
  assert (Hperm' : Permutation ranked (seq 0 (length rows))).
  { unfold ranked. rewrite <- Hperm. symmetry. apply Permutation_rev. }
  assert (Hnodup : NoDup ranked).
  { eapply Permutation_NoDup; [symmetry; exact Hperm'|apply seq_NoDup]. }
  assert (Hdesc : StronglySorted (fun i j => ascending scores j i) ranked).
  { apply StronglySorted_rev. exact Hsorted. }
  rewrite <- (firstn_skipn k ranked) in Hnodup, Hdesc.
  apply StronglySorted_app_inv in Hdesc.
  destruct Hdesc as [Htop [_ Hcross]].
  assert (Hrange : Forall (fun i => i < length rows) (firstn k ranked)).
  { apply Forall_forall. intros i Hi.
    assert (Hi' : In i ranked)
      by (rewrite <- (firstn_skipn k ranked); apply in_or_app; now left).
    eapply Permutation_in in Hi'; [|exact Hperm'].
    apply in_seq in Hi'. lia. }
  exists (firstn k ranked).
  split; [now apply collect_ok|].
  assert (Hcount : length (firstn k ranked) = Nat.min k (length rows)).
  { rewrite length_firstn. f_equal.
    rewrite (Permutation_length Hperm'). apply length_seq. }
  split; [exact Hcount|].
  split; [rewrite length_map, Hcount; lia|].
  split; [eapply NoDup_app_remove_r; exact Hnodup|].
  split; [exact Hrange|]. split.
  - clear - Htop. induction Htop as [|i l Hs IH Hi]; constructor; auto.
    eapply Forall_impl; [|exact Hi]. intros j Hj.
    now apply ascending_outranks.
  - intros j Hj Hnot. apply Forall_forall. intros i Hi.
    apply ascending_outranks. apply Hcross; [exact Hi|].
    assert (Hj' : In j ranked).
    { eapply Permutation_in; [symmetry; exact Hperm'|].
      apply in_seq. lia. }
    rewrite <- (firstn_skipn k ranked) in Hj'.
    apply in_app_or in Hj'. destruct Hj'; [contradiction|assumption].
Qed.

End RankingFacts.



(** ** The search on the two twins *)

Section TwinFacts.
Import PyStr Data F32 Diff Numpy DiffExamples.

Lemma norm_e1 : norm e1 = num 1 0.
Proof. reflexivity. Qed.

Lemma norm_e1_nonzero : is_zero (norm e1) = false.
Proof. reflexivity. Qed.

(** With the stable argsort the later of two equal scores comes first. *)
Lemma twins_search :
  search runtime_ex twins e1 3 = Ok [hit_at twins e1 [e1; e1] 1;
                                     hit_at twins e1 [e1; e1] 0].
Proof.
  rewrite (search_scored runtime_ex twins 2 [e1; e1] e1 3 eq_refl eq_refl
             norm_e1_nonzero).
  remember (cosine e1 e1) as s eqn:Hs.
  assert (Hsort : argsort runtime_ex [s; s] = [0; 1]).
  { simpl. unfold argsort_stable. simpl. now rewrite leb_refl. }
  simpl map. rewrite <- Hs, Hsort. simpl rev. simpl firstn.
  unfold collect, hit_at. simpl. rewrite <- Hs. reflexivity.
Qed.

Lemma load_small_files : load_vector_db small_files = Ok (Some twins).
Proof. reflexivity. Qed.

End TwinFacts.

(** ** Queries of norm zero, and indexes without rows *)

Section SkipFacts.
Import PyStr Data F32 Diff Numpy DiffExamples.

Variable rt : runtime.
Variable sv : services.
Variable fs : files.

Lemma search_zero_norm db d rows q k :
  embeddings db = Array2 d rows ->
  is_zero (norm q) = true ->
  search rt db q k = Ok [].
Proof.
  intros Harr Hnorm. unfold search. rewrite Harr. simpl.
  now rewrite Hnorm.
Qed.

Lemma get_embedding_failed n txt :
  embed_content sv n txt = None ->
  get_embedding sv n txt = repeat (S754_zero false) 768.
Proof. intros H. unfold get_embedding. now rewrite H. Qed.

(** The float32 array of the 768 zeros has norm zero. *)
Lemma zeros_norm (n : nat) :
  is_zero (norm (float32_array (repeat (S754_zero false) n))) = true.
Proof. now rewrite float32_zeros, norm_zeros. Qed.

(** A failed embedding call against a loaded index with rows, whatever
    their length: the chunk is skipped before the model is asked. *)
Lemma failed_embedding_skips db d rows n c :
  embeddings db = Array2 d rows ->
  embed_content sv n (text c) = None ->
  analyze_chunk rt sv fs (Some db) n c = (Ok no_shift, Some db).
Proof.
  intros Harr Hfail. unfold analyze_chunk, find_relevant_textbook_chunks.
  rewrite (get_embedding_failed n (text c) Hfail).
  rewrite (search_zero_norm db d rows _ 3 Harr (zeros_norm 768)).
  reflexivity.
Qed.

Lemma record_no_shift c trends : record_verdict c no_shift trends = Ok trends.
Proof. reflexivity. Qed.

(** An index file without rows makes every search raise. *)
Lemma search_no_rows db q k :
  embeddings db = Array1 [] -> search rt db q k = Raise AxisError.
Proof. intros Harr. unfold search. now rewrite Harr. Qed.


Lemma load_empty_files : load_vector_db empty_files = Ok (Some empty_db).
Proof. reflexivity. Qed.

Lemma analyze_no_rows n c :
  analyze_chunk rt sv empty_files None n c = (Raise AxisError, Some empty_db).
Proof. reflexivity. Qed.

(** Without a loadable baseline every chunk is skipped. *)
Lemma analyze_unavailable n c :
  load_vector_db fs = Ok None ->
  analyze_chunk rt sv fs None n c = (Ok no_shift, None).
Proof.
  intros Hload. unfold analyze_chunk, find_relevant_textbook_chunks.
  rewrite Hload. reflexivity.
Qed.

Lemma scan_unavailable (todo : list (nat * chunk)) trends :
  load_vector_db fs = Ok None ->
  scan rt sv fs todo None trends = Ok trends.
Proof.
  intros Hload. induction todo as [|[i c] todo IH]; simpl; [reflexivity|].
  rewrite (analyze_unavailable i c Hload), record_no_shift. exact IH.
Qed.

(** With the model down and a search that never raises, the loop of
    [main] comes to its end and leaves the trends as they were. *)
Lemma scan_model_down (todo : list (nat * chunk)) :
  (forall i prompt, generate_content sv i prompt = None) ->
  (forall g i c e, fst (find_relevant_textbook_chunks rt sv fs g i c)
                   <> Raise e) ->
  forall g trends, scan rt sv fs todo g trends = Ok trends.
Proof.
  intros Hdown Hfound.
  induction todo as [|[i c] todo IH]; intros g trends; simpl; [reflexivity|].
  unfold analyze_chunk.
  destruct (find_relevant_textbook_chunks rt sv fs g i c) as [found g']
    eqn:Hfind.
  destruct found as [context|e].
  - destruct ((length context =? 0) || contains (L "unavailable") context).
    + rewrite record_no_shift. apply IH.
    + rewrite Hdown, record_no_shift. apply IH.
  - exfalso. apply (Hfound g i c e). now rewrite Hfind.
Qed.

End SkipFacts.

(** ** Failure containment, the baseline and the fallback vector *)

Section DiffTheorems.
Import PyStr Data F32 Diff Numpy DiffExamples.

(** C6 as stated fails on ties: two chunks stored with the same vector
    score the same, and the one stored second is returned first. *)
Lemma tie_order_counterexample :
  sorts (argsort runtime_ex) /\
  is_zero (norm e1) = false /\
  exists s,
    search runtime_ex twins e1 3
    = Ok [{| chunk_id := L "second"; score := s;
             hit_text := L "COPD staging uses FEV1." |};
          {| chunk_id := L "first"; score := s;
             hit_text := L "COPD is staged by FEV1." |}].
Proof.
  split; [exact argsort_stable_sorts|]. split; [exact norm_e1_nonzero|].
  exists (cosine e1 e1). rewrite twins_search. reflexivity.
Qed.

(** C1.  When the textbook context was found and is fit to be sent (not
    empty, without the word "unavailable"), and the model call raises or
    its text, stripped of code fences, is refused by [json.loads], then
    [analyze_chunk] answers [{"has_shift": False}] without raising, and the
    run goes on as if the chunk had not been there: no trend is added for
    it. *)
Theorem oracle_failure_is_no_shift rt sv fs VECTOR_DB n c context VECTOR_DB' :
  find_relevant_textbook_chunks rt sv fs VECTOR_DB n c
  = (Ok context, VECTOR_DB') ->
  (length context =? 0) || contains (L "unavailable") context = false ->
  let prompt := DIFF_PROMPT rt (firstn 4000 (text c)) (firstn 4000 context) in
  (generate_content sv n prompt = None \/
   exists response_text,
     generate_content sv n prompt = Some response_text /\
     json_loads rt (unfence response_text) = None) ->
  analyze_chunk rt sv fs VECTOR_DB n c = (Ok no_shift, VECTOR_DB') /\
  forall todo trends,
    scan rt sv fs ((n, c) :: todo) VECTOR_DB trends
    = scan rt sv fs todo VECTOR_DB' trends.
Proof.
  intros Hfound Hsent prompt Hfailure.
  assert (Hanalysis : analyze_chunk rt sv fs VECTOR_DB n c
                      = (Ok no_shift, VECTOR_DB')).
  { unfold analyze_chunk. rewrite Hfound, Hsent. fold prompt.
    destruct Hfailure as [Hcall|[response_text [Hcall Hparse]]];
      rewrite Hcall; [reflexivity|]. now rewrite Hparse. }
  split; [exact Hanalysis|].
  intros todo trends. simpl. rewrite Hanalysis, record_no_shift. reflexivity.
Qed.

(** C7, on the code.  Without a baseline to load, every chunk is skipped
    and the report has no trend.  With the index a run leaves when it
    stored nothing, the first guideline chunk makes the search raise and
    the run ends there, no report written. *)
Theorem empty_baseline_aborts rt sv :
  (forall chunks,
     main rt sv no_files (Some chunks)
     = Ok (Some {| total_trends := 0; sources_analyzed := [];
                   trends_out := [] |})) /\
  (forall c chunks,
     main rt sv empty_files (Some (c :: chunks)) = Raise AxisError).
Proof.
  split.
  - intros chunks. unfold main.
    now rewrite (scan_unavailable rt sv no_files _ [] eq_refl).
  - intros c chunks. reflexivity.
Qed.

(** C8, on the code.  The zero vector has norm zero, and against the index
    of a run that stored nothing the search with it raises instead of
    returning no match; so does the analysis of any chunk, whether its
    embedding call failed or not. *)
Theorem zero_query_on_empty_index rt sv n c :
  norm (float32_array (repeat (S754_zero false) 768)) = zero /\
  load_vector_db empty_files = Ok (Some empty_db) /\
  search rt empty_db (float32_array (repeat (S754_zero false) 768)) 3
  = Raise AxisError /\
  analyze_chunk rt sv empty_files None n c
  = (Raise AxisError, Some empty_db).
Proof.
  split; [rewrite float32_zeros; apply norm_zeros|]. split; [reflexivity|].
  split; reflexivity.
Qed.

(** C10, as the code has it.  A failed embedding call gives 768 zeros
    whatever the index; against a loaded index with rows of any length the
    chunk is then skipped, the test of the norm coming before the dot
    product, and no trend is added. *)
Theorem zero_fallback_any_dimension rt sv fs db d rows n c trends :
  embed_content sv n (text c) = None ->
  embeddings db = Array2 d rows ->
  get_embedding sv n (text c) = repeat (S754_zero false) 768 /\
  length (get_embedding sv n (text c)) = 768 /\
  analyze_chunk rt sv fs (Some db) n c = (Ok no_shift, Some db) /\
  record_verdict c no_shift trends = Ok trends.
Proof.
  intros Hfail Harr.
  rewrite (get_embedding_failed sv n (text c) Hfail).
  split; [reflexivity|]. split; [apply repeat_length|].
  split; [|reflexivity].
  exact (failed_embedding_skips rt sv fs db d rows n c Harr Hfail).
Qed.

(** C10 as stated fails: an index of dimension 2, not 768, and the chunk
    whose embedding call failed is skipped all the same. *)
Lemma dimension_768_counterexample :
  embeddings twins = Array2 2 [e1; e1] /\
  2 <> 768 /\
  forall rt sv fs n c,
    embed_content sv n (text c) = None ->
    analyze_chunk rt sv fs (Some twins) n c = (Ok no_shift, Some twins).
Proof.
  split; [reflexivity|]. split; [lia|].
  intros rt sv fs n c Hfail.
  exact (failed_embedding_skips rt sv fs twins 2 [e1; e1] n c eq_refl Hfail).
Qed.

End DiffTheorems.

(** ** The theorems at concrete runs *)


Lemma found_twins_context :
  Diff.find_relevant_textbook_chunks DiffExamples.runtime_ex
    DiffServices.prose DiffExamples.small_files None 0
    DiffExamples.guideline_chunk
  = (Data.Ok DiffServices.twins_context, Some DiffExamples.twins).
Proof.
  unfold Diff.find_relevant_textbook_chunks.
  rewrite load_small_files. cbv zeta.
  change (Diff.float32_array
            (Diff.get_embedding DiffServices.prose 0
               (Data.text DiffExamples.guideline_chunk)))
    with DiffExamples.e1.
  rewrite twins_search. reflexivity.
Qed.

(** The model answers prose: the chunk leaves no trend. *)
Lemma oracle_failure_witness :
  Diff.analyze_chunk DiffExamples.runtime_ex DiffServices.prose
    DiffExamples.small_files None 0 DiffExamples.guideline_chunk
  = (Data.Ok Diff.no_shift, Some DiffExamples.twins) /\
  forall todo trends,
    Diff.scan DiffExamples.runtime_ex DiffServices.prose
      DiffExamples.small_files ((0, DiffExamples.guideline_chunk) :: todo)
      None trends
    = Diff.scan DiffExamples.runtime_ex DiffServices.prose
        DiffExamples.small_files todo (Some DiffExamples.twins) trends.
Proof.
  apply (oracle_failure_is_no_shift DiffExamples.runtime_ex
           DiffServices.prose DiffExamples.small_files None 0
           DiffExamples.guideline_chunk DiffServices.twins_context
           (Some DiffExamples.twins)).
  - exact found_twins_context.
  - reflexivity.
  - right. exists (PyStr.L "Sorry, I cannot compare these.").
    split; [reflexivity|]. vm_compute. reflexivity.
Defined.

(** The twins, ranked for the query [e1]. *)
Lemma search_ranked_witness :
  exists top : list nat,
    Diff.search DiffExamples.runtime_ex DiffExamples.twins DiffExamples.e1 3
    = Data.Ok (map (Diff.hit_at DiffExamples.twins DiffExamples.e1
                      [DiffExamples.e1; DiffExamples.e1]) top) /\
    length top = 2.
Proof.
  destruct (search_ranked DiffExamples.runtime_ex DiffExamples.twins
              DiffExamples.e1 [DiffExamples.e1; DiffExamples.e1] 2 3
              argsort_stable_sorts eq_refl eq_refl (le_n 2)
              norm_e1_nonzero)
    as [top [Hsearch [Hlen _]]].
  exists top. split; [exact Hsearch|exact Hlen].
Defined.

Section OverflowFacts.
Import PyStr Data F32 Diff Numpy DiffExamples.

(** The scores of the three chunks for [big], and for its double. *)
Lemma big_scores :
  map (cosine big) (rows_of trio)
  = [S754_finite false 13959488 (-24); S754_finite false 9306325 (-24);
     S754_finite false 8388608 (-23)] /\
  map (cosine (scale two big)) (rows_of trio) = [zero; zero; zero].
Proof. split; vm_compute; reflexivity. Qed.



End OverflowFacts.


(** Embedding service down, index of dimension 2: the chunk is skipped. *)
Lemma zero_fallback_witness :
  Diff.get_embedding DiffServices.down 0
    (Data.text DiffExamples.guideline_chunk) = repeat (S754_zero false) 768
  /\
  Diff.analyze_chunk DiffExamples.runtime_ex DiffServices.down
    DiffExamples.small_files (Some DiffExamples.twins) 0
    DiffExamples.guideline_chunk
  = (Data.Ok Diff.no_shift, Some DiffExamples.twins).
Proof.
  destruct (zero_fallback_any_dimension DiffExamples.runtime_ex
              DiffServices.down DiffExamples.small_files DiffExamples.twins
              2 [DiffExamples.e1; DiffExamples.e1] 0
              DiffExamples.guideline_chunk [] eq_refl eq_refl)
    as [Hzeros [_ [Hskip _]]].
  split; [exact Hzeros|exact Hskip].
Defined.

(** ** A run that records a trend *)


Lemma found_context_for sv n c :
  Diff.embed_content sv n (Data.text c) = Some DiffExamples.e1_py ->
  Diff.find_relevant_textbook_chunks DiffExamples.runtime_ex sv
    DiffExamples.small_files None n c
  = (Data.Ok DiffServices.twins_context, Some DiffExamples.twins).
Proof.
  intros Hembed. unfold Diff.find_relevant_textbook_chunks.
  rewrite load_small_files. unfold Diff.get_embedding. rewrite Hembed.
  cbv zeta.
  change (Diff.float32_array DiffExamples.e1_py) with DiffExamples.e1.
  rewrite twins_search. reflexivity.
Qed.

(** One guideline chunk, a baseline about COPD staging, a model that
    reports a shift: the report holds one trend, filed under COPD. *)
Example copd_scenario :
  exists fields,
    Diff.main DiffExamples.runtime_ex Scenario.answering
      DiffExamples.small_files (Some [DiffExamples.guideline_chunk])
    = Data.Ok (Some {| Diff.total_trends := 1;
                       Diff.sources_analyzed := [PyStr.L "gold.pdf"];
                       Diff.trends_out :=
                         [{| Diff.verdict_fields := fields;
                             Diff.source_guideline := PyStr.L "gold.pdf";
                             Diff.category := PyStr.L "COPD" |}] |}).
Proof.
  eexists. unfold Diff.main.
  change (Data.enumerate [DiffExamples.guideline_chunk])
    with [(0, DiffExamples.guideline_chunk)].
  cbn [Diff.scan]. unfold Diff.analyze_chunk.
  rewrite (found_context_for Scenario.answering 0
             DiffExamples.guideline_chunk eq_refl).
  lazy. reflexivity.
Qed.

(* ================================================================== *)
(** * More on the batch indexer *)
(* ================================================================== *)

Section RetryFacts.
Import PyStr Data Indexer.

Variable api : service.
Variable texts : list str.
Variable retries : nat.

(** What an outcome of the retry loop says about the calls made. *)
Lemma attempts_outcome (n : nat) :
  forall a w r w',
    a + n = retries ->
    attempts api texts retries (seq a n) w = (r, w') ->
    calls w <= calls w' /\
    calls w' - calls w <= n /\
    requests (trace w')
    = requests (trace w) ++ seq (calls w) (calls w' - calls w) /\
    (forall i, calls w <= i -> S i < calls w' ->
               exists m, api i texts = Fails m) /\
    match r with
    | Ok values =>
        calls w < calls w' /\
        api (calls w' - 1) texts = Embeddings values
    | Raise (ApiError m) =>
        calls w' = calls w + n /\ 0 < n /\
        api (calls w' - 1) texts = Fails m /\ rate_limited m = false
    | Raise (Exception msg) =>
        msg = L "Failed after retries" /\
        calls w' = calls w + n /\
        (n = 0 \/
         exists m, api (calls w' - 1) texts = Fails m /\
                   rate_limited m = true)
    | Raise _ => False
    end.
Proof.
  induction n as [|n IH]; intros a w r w' Hsum Hrun; simpl in Hrun.
  - injection Hrun as <- <-.
    rewrite Nat.sub_diag. simpl. rewrite app_nil_r.
    repeat split; try lia.
  - assert (Hstep : forall q r0 w0,
              attempts api texts retries (seq (S a) n) (sleep q (request w))
              = (r0, w0) ->
              forall m, api (calls w) texts = Fails m ->
              (n = 0 -> rate_limited m = true) ->
              calls w <= calls w0 /\
              calls w0 - calls w <= S n /\
              requests (trace w0)
              = requests (trace w) ++ seq (calls w) (calls w0 - calls w) /\
              (forall i, calls w <= i -> S i < calls w0 ->
                         exists m', api i texts = Fails m') /\
              match r0 with
              | Ok values =>
                  calls w < calls w0 /\
                  api (calls w0 - 1) texts = Embeddings values
              | Raise (ApiError m') =>
                  calls w0 = calls w + S n /\ 0 < S n /\
                  api (calls w0 - 1) texts = Fails m' /\
                  rate_limited m' = false
              | Raise (Exception msg) =>
                  msg = L "Failed after retries" /\
                  calls w0 = calls w + S n /\
                  (S n = 0 \/
                   exists m', api (calls w0 - 1) texts = Fails m' /\
                              rate_limited m' = true)
              | Raise _ => False
              end).
    { intros q r0 w0 Hrest m Hcall Hlast.
      apply IH in Hrest; [|lia]. simpl calls in Hrest. simpl trace in Hrest.
      destruct Hrest as (Hle & Hmade & Hreq & Hearlier & Hend).
      split; [lia|]. split; [lia|]. split.
      { rewrite Hreq, !requests_app. simpl. rewrite app_nil_r, <- app_assoc.
        f_equal. replace (calls w0 - calls w) with (S (calls w0 - S (calls w)))
          by lia. reflexivity. }
      split.
      { intros i Hi Hlt. destruct (Nat.eq_dec i (calls w)) as [->|Hne];
          [now exists m|]. apply Hearlier; lia. }
      destruct r0 as [values|[m'|msg| | | | | |]]; try exact Hend.
      - destruct Hend as [Hlt Hans]. split; [lia|exact Hans].
      - destruct Hend as (Hc & Hn & Hans & Hrl). repeat split; try lia;
          assumption.
      - destruct Hend as (Hmsg & Hc & Hwhy). split; [exact Hmsg|].
        split; [lia|]. right. destruct Hwhy as [Hn0|Hwhy]; [|exact Hwhy].
        exists m. subst n. replace (calls w0 - 1) with (calls w) by lia.
        split; [exact Hcall|now apply Hlast]. }
    destruct (api (calls w) texts) as [values|m] eqn:Hcall.
    + injection Hrun as <- <-. simpl calls. simpl trace.
      replace (S (calls w) - calls w) with 1 by lia.
      rewrite requests_app. simpl.
      repeat split; try lia; rewrite Nat.sub_0_r; exact Hcall.
    + destruct (rate_limited m) eqn:Hrl.
      * exact (Hstep _ _ _ Hrun m eq_refl (fun _ => Hrl)).
      * destruct (a =? retries - 1) eqn:Hlast.
        -- apply Nat.eqb_eq in Hlast. assert (n = 0) as -> by lia.
           injection Hrun as <- <-. simpl calls. simpl trace.
           replace (S (calls w) - calls w) with 1 by lia.
           rewrite requests_app. simpl.
           repeat split; try lia; try exact Hrl.
           rewrite Nat.sub_0_r. exact Hcall.
        -- apply Nat.eqb_neq in Hlast.
           apply (Hstep _ _ _ Hrun m eq_refl). intros Hn. lia.
Qed.

End RetryFacts.

Section RetryTheorems.
Import PyStr Data Indexer.

(** X1.  Whatever the service does and whatever [retries] is,
    [generate_batch_embeddings] makes at most [retries] requests, numbered
    one after the other; every request but the last one made has failed;
    and embeddings, when returned, are those of the last request. *)
Theorem retry_requests (api : service) (texts : list str) (retries : nat)
    (w : world) :
  let run := generate_batch_embeddings api texts retries w in
  let made := calls (snd run) - calls w in
  calls w <= calls (snd run) /\
  made <= retries /\
  requests (trace (snd run)) = requests (trace w) ++ seq (calls w) made /\
  (forall i, calls w <= i -> S i < calls (snd run) ->
             exists m, api i texts = Fails m) /\
  match fst run with
  | Ok values =>
      0 < made /\ api (calls (snd run) - 1) texts = Embeddings values
  | Raise _ => made = retries
  end.
Proof.
  intros run made. subst made.
  destruct run as [r w'] eqn:Hrun. unfold run in Hrun.
  unfold generate_batch_embeddings in Hrun.
  destruct (attempts_outcome api texts retries retries 0 w r w' eq_refl Hrun)
    as (Hle & Hmade & Hreq & Hearlier & Hend).
  simpl fst. simpl snd.
  split; [exact Hle|]. split; [exact Hmade|]. split; [exact Hreq|].
  split; [exact Hearlier|].
  destruct r as [values|[m|msg| | | | | |]]; try contradiction.
  - destruct Hend as [Hlt Hans]. split; [lia|exact Hans].
  - destruct Hend as [Hc _]. lia.
  - destruct Hend as (_ & Hc & _). lia.
Qed.

(** X2.  How [generate_batch_embeddings] fails.  It raises the error of
    the service only for a failure of the last attempt that is not of the
    rate-limit kind; when the last attempt is rate-limited, or when
    [retries] is 0, it raises "Failed after retries" instead; it raises
    nothing else. *)
Theorem retry_failure (api : service) (texts : list str) (retries : nat)
    (w : world) :
  let run := generate_batch_embeddings api texts retries w in
  match fst run with
  | Ok _ => True
  | Raise (ApiError m) =>
      0 < retries /\
      api (calls w + retries - 1) texts = Fails m /\
      rate_limited m = false
  | Raise (Exception msg) =>
      msg = L "Failed after retries" /\
      (retries = 0 \/
       exists m, api (calls w + retries - 1) texts = Fails m /\
                 rate_limited m = true)
  | Raise _ => False
  end.
Proof.
  intros run. destruct run as [r w'] eqn:Hrun. unfold run in Hrun.
  unfold generate_batch_embeddings in Hrun.
  destruct (attempts_outcome api texts retries retries 0 w r w' eq_refl Hrun)
    as (_ & _ & _ & _ & Hend).
  simpl fst.
  destruct r as [values|[m|msg| | | | | |]]; try contradiction; try exact I.
  - destruct Hend as (Hc & Hn & Hans & Hrl). rewrite Hc in Hans.
    repeat split; assumption.
  - destruct Hend as (Hmsg & Hc & Hwhy). rewrite Hc in Hwhy.
    split; assumption.
Qed.

End RetryTheorems.

(** ** The mapping list *)

Section MappingFacts.
Import PyStr Data Indexer.

Variable api : service.
Variable chunks : list chunk.

Lemma kept_weaken bound bound' st :
  bound <= bound' -> kept chunks bound st -> kept chunks bound' st.
Proof.
  intros Hle (Hids & Hdesc & Hsorted & Hbound).
  repeat split; try assumption.
  eapply Forall_impl; [|exact Hbound]. simpl. intros e He. lia.
Qed.

Lemma nth_error_slice {A} (l : list A) i n j x :
  nth_error (slice l i n) j = Some x -> nth_error l (i + j) = Some x.
Proof.
  unfold slice. rewrite nth_error_firstn.
  destruct (j <? n); [|discriminate]. now rewrite nth_error_skipn.
Qed.

Lemma store_kept i (batch : list chunk) :
  forall a values st,
    (forall t c, nth_error batch t = Some c ->
                 nth_error chunks (i + a + t) = Some c) ->
    kept chunks (i + a) st ->
    kept chunks (i + a + length batch)
         (fst (store i (combine (seq a (length batch)) batch) values st)).
Proof.
  induction batch as [|c batch IH]; intros a values st Hat Hkept; simpl.
  - eapply kept_weaken; [|exact Hkept]. lia.
  - destruct (nth_error values a) as [embedding|].
    + replace (i + a + S (length batch)) with (i + S a + length batch) by lia.
      apply IH.
      * intros t c' Ht. replace (i + S a + t) with (i + a + S t) by lia.
        now apply Hat.
      * destruct Hkept as (Hids & Hdesc & Hsorted & Hbound).
        unfold kept. simpl. rewrite !map_app. simpl.
        split; [now rewrite Hids|]. split.
        { apply Forall_app. split; [exact Hdesc|]. constructor; [|constructor].
          exists c. simpl. split; [|auto].
          rewrite <- (Nat.add_0_r (i + a)). now apply Hat. }
        split.
        { apply StronglySorted_snoc; [exact Hsorted|].
          apply Forall_map. exact Hbound. }
        apply Forall_app. split.
        { eapply Forall_impl; [|exact Hbound]. simpl. intros e He. lia. }
        constructor; [simpl; lia|constructor].
    + simpl. eapply kept_weaken; [|exact Hkept]. lia.
Qed.

Lemma process_batch_kept k st w :
  kept chunks (k * BATCH_SIZE) st ->
  kept chunks (S k * BATCH_SIZE)
       (fst (process_batch api chunks (st, w) (k * BATCH_SIZE))).
Proof.
  intros Hkept. unfold process_batch.
  destruct (generate_batch_embeddings api _ 3 w) as [[values|e] w1];
    cbn [fst].
  - set (batch := slice chunks (k * BATCH_SIZE) BATCH_SIZE).
    assert (Hlen : length batch <= BATCH_SIZE).
    { unfold batch, slice. rewrite length_firstn. lia. }
    eapply kept_weaken;
      [|apply (store_kept (k * BATCH_SIZE) batch 0 values st)].
    + rewrite Nat.mul_succ_l. lia.
    + intros t c Ht. rewrite Nat.add_0_r. now apply nth_error_slice in Ht.
    + now rewrite Nat.add_0_r.
  - eapply kept_weaken; [|exact Hkept]. rewrite Nat.mul_succ_l. lia.
Qed.

Lemma fold_kept (n : nat) :
  forall a s,
    kept chunks (a * BATCH_SIZE) (fst s) ->
    kept chunks ((a + n) * BATCH_SIZE)
         (fst (fold_left (process_batch api chunks)
                 (map (fun j => j * BATCH_SIZE) (seq a n)) s)).
Proof.
  induction n as [|n IH]; intros a [st w] Hkept; simpl.
  - now rewrite Nat.add_0_r.
  - replace (a + S n) with (S a + n) by lia. apply IH.
    apply (process_batch_kept a st w Hkept).
Qed.

Lemma sorted_from (l : list nat) :
  forall y k x,
    StronglySorted lt (y :: l) ->
    nth_error (y :: l) k = Some x -> y + k <= x.
Proof.
  induction l as [|z l IH]; intros y [|k] x Hs Hnth; simpl in Hnth.
  - injection Hnth as <-. lia.
  - destruct k; discriminate.
  - injection Hnth as <-. lia.
  - apply StronglySorted_inv in Hs. destruct Hs as [Hs Hy].
    specialize (IH z k x Hs Hnth).
    inversion Hy as [|? ? Hyz _]; subst. lia.
Qed.

Lemma sorted_position (l : list nat) :
  StronglySorted lt l ->
  forall k x, nth_error l k = Some x -> k <= x.
Proof.
  intros Hs k x Hnth. destruct l as [|y l]; [destruct k; discriminate|].
  pose proof (sorted_from l y k x Hs Hnth). lia.
Qed.

Lemma index_kept :
  kept chunks (total_batches chunks * BATCH_SIZE)
       (fst (index_chunks api chunks)).
Proof.
  apply (fold_kept (total_batches chunks) 0 (empty, start)).
  repeat split; constructor.
Qed.

(** The stored ids follow the order of the input. *)
Lemma stored_ids_in_order :
  Subseq (ids (fst (index_chunks api chunks))) (map id chunks).
Proof.
  pose proof (fold_pairs api chunks (range_step (length chunks) BATCH_SIZE)
                empty start eq_refl) as [Hlen Hpairs].
  fold (index_chunks api chunks) in Hlen, Hpairs. simpl in Hpairs.
  rewrite <- (map_fst_combine _ _ Hlen), Hpairs.
  apply (expected_ids_in_order api chunks _ 0 start).
Qed.

(** X3.  After any run of the indexer, the mapping list names the stored
    ids, in their order; each of its entries copies the id, text and
    metadata of the input chunk found at its [embeddingIndex]; these
    indices grow strictly, so that the entry at place [k] has an
    [embeddingIndex] of [k] or more: the position of the chunk in the
    input, which is beyond its place in the lists once a batch was
    lost. *)
Theorem mapping_describes_input :
  let st := fst (index_chunks api chunks) in
  map entry_id (mapping st) = ids st /\
  Forall (describes chunks) (mapping st) /\
  StronglySorted lt (map embeddingIndex (mapping st)) /\
  forall k e, nth_error (mapping st) k = Some e -> k <= embeddingIndex e.
Proof.
  intros st.
  destruct index_kept as (Hids & Hdesc & Hsorted & _). fold st in Hids, Hdesc, Hsorted.
  repeat split; try assumption.
  intros k e Hnth. apply (sorted_position _ Hsorted).
  now rewrite nth_error_map, Hnth.
Qed.

End MappingFacts.

(** ** Runs in which every request succeeds *)

Section DependableFacts.
Import PyStr Data Indexer.

Variable api : service.
Variable chunks : list chunk.
Hypothesis Hdependable : dependable api.

Lemma batches_before (n k : nat) :
  k < (n + 100 - 1) / 100 <-> k * 100 < n.
Proof.
  pose proof (Nat.div_mod_eq (n + 100 - 1) 100) as Hdiv.
  pose proof (Nat.mod_upper_bound (n + 100 - 1) 100 ltac:(lia)) as Hmod.
  lia.
Qed.

Lemma firstn_plus {A} (l : list A) :
  forall n m, firstn (n + m) l = firstn n l ++ firstn m (skipn n l).
Proof.
  induction l as [|x l IH]; intros [|n] m; simpl;
    try (now rewrite ?firstn_nil).
  now rewrite IH.
Qed.

Lemma map_add_seq (i n : nat) :
  forall a, map (fun j => i + j) (seq a n) = seq (i + a) n.
Proof.
  induction n as [|n IH]; intros a; simpl; [reflexivity|].
  rewrite IH. now rewrite Nat.add_succ_r.
Qed.

(** The inner loop when the vectors are enough for the batch. *)
Lemma store_full i (batch : list chunk) :
  forall a values st,
    a + length batch <= length values ->
    store i (combine (seq a (length batch)) batch) values st
    = ({| ids := ids st ++ map id batch;
          embeddings := embeddings st ++ firstn (length batch) (skipn a values);
          mapping := mapping st ++
                     map (entry_of i) (combine (seq a (length batch)) batch) |},
       None).
Proof.
  induction batch as [|c batch IH]; intros a values st Hlen; simpl.
  - destruct st. simpl. now rewrite !app_nil_r.
  - destruct (nth_error values a) as [embedding|] eqn:Hnth.
    + simpl in Hlen. rewrite IH by lia. simpl.
      rewrite (skipn_nth_error values a Hnth).
      simpl. rewrite <- !app_assoc. reflexivity.
    + apply nth_error_None in Hnth. simpl in Hlen. lia.
Qed.

Lemma entry_indices i (batch : list chunk) :
  forall a,
    map embeddingIndex (map (entry_of i) (combine (seq a (length batch)) batch))
    = seq (i + a) (length batch).
Proof.
  induction batch as [|c batch IH]; intros a; simpl; [reflexivity|].
  rewrite IH. now rewrite Nat.add_succ_r.
Qed.

Lemma orderly_step k s :
  k < total_batches chunks ->
  orderly api chunks k s ->
  orderly api chunks (S k) (process_batch api chunks s (k * BATCH_SIZE)).
Proof.
  intros Hk. destruct s as [st w].
  intros (Hids & Hemb & Hidx & Hcalls & Htrace). cbn [fst snd] in *.
  apply batches_before in Hk.
  unfold process_batch, generate_batch_embeddings.
  set (batch := slice chunks (k * BATCH_SIZE) BATCH_SIZE).
  destruct (Hdependable (calls w) (map text batch)) as [values [Hcall Hlen]].
  change (seq 0 3) with [0; 1; 2]. cbn [attempts]. rewrite Hcall.
  rewrite length_map in Hlen.
  unfold enumerate. rewrite store_full by lia. cbn [skipn fst].
  rewrite firstn_all2 by lia.
  assert (Hbatch : length batch = Nat.min 100 (length chunks - k * 100)).
  { unfold batch, slice, BATCH_SIZE. now rewrite length_firstn, length_skipn. }
  assert (Hnext : (k * BATCH_SIZE + BATCH_SIZE <? length chunks)
                  = (S k <? total_batches chunks)).
  { unfold total_batches, BATCH_SIZE.
    destruct (S k <? (length chunks + 100 - 1) / 100) eqn:Hb.
    - apply Nat.ltb_lt, batches_before in Hb. apply Nat.ltb_lt. lia.
    - apply Nat.ltb_ge in Hb. apply Nat.ltb_ge.
      destruct (Nat.lt_ge_cases (S k * 100) (length chunks)) as [Hlt|Hge];
        [apply batches_before in Hlt; lia|lia]. }
  unfold orderly. cbn [fst snd ids embeddings mapping].
  replace (S k * BATCH_SIZE) with (k * BATCH_SIZE + BATCH_SIZE)
    by (unfold BATCH_SIZE; lia).
  split.
  { rewrite Hids, firstn_plus, map_app. reflexivity. }
  split.
  { rewrite Hemb, seq_S, flat_map_app. cbn [flat_map]. rewrite app_nil_r.
    f_equal. unfold answered, batch_texts. rewrite Nat.add_0_l.
    fold batch. rewrite Hcalls in Hcall. now rewrite Hcall. }
  split.
  { rewrite map_app, Hidx, entry_indices, Nat.add_0_r.
    rewrite !length_firstn, Hbatch. unfold BATCH_SIZE.
    replace (Nat.min (k * 100) (length chunks)) with (k * 100) by lia.
    rewrite <- seq_app. f_equal. lia. }
  split.
  { destruct (k * BATCH_SIZE + BATCH_SIZE <? length chunks);
      cbn [calls sleep request]; lia. }
  rewrite seq_S, flat_map_app. cbn [flat_map]. rewrite app_nil_r.
  rewrite Hnext, Nat.add_0_l.
  destruct (S k <? total_batches chunks);
    cbn [trace sleep request]; rewrite Htrace, Hcalls, <- ?app_assoc;
    reflexivity.
Qed.

Lemma orderly_fold (n : nat) :
  forall a s,
    a + n <= total_batches chunks ->
    orderly api chunks a s ->
    orderly api chunks (a + n)
      (fold_left (process_batch api chunks)
         (map (fun j => j * BATCH_SIZE) (seq a n)) s).
Proof.
  induction n as [|n IH]; intros a s Hle Hs; simpl.
  - now rewrite Nat.add_0_r.
  - replace (a + S n) with (S a + n) by lia. apply IH; [lia|].
    apply orderly_step; [lia|exact Hs].
Qed.

(** The storage and the trace at the end of such a run. *)
Lemma dependable_end :
  let run := index_chunks api chunks in
  let st := fst run in
  ids st = map id chunks /\
  embeddings st
  = flat_map (fun j => answered api j (batch_texts chunks j))
             (seq 0 (total_batches chunks)) /\
  length (embeddings st) = length chunks /\
  map embeddingIndex (mapping st) = seq 0 (length chunks) /\
  totalChunks st = length chunks /\
  calls (snd run) = total_batches chunks /\
  trace (snd run) = quiet_trace (total_batches chunks).
Proof.
  intros run st.
  assert (Hstart : orderly api chunks 0 (empty, start))
    by (repeat split; reflexivity).
  pose proof (orderly_fold (total_batches chunks) 0 (empty, start)
                (le_n _) Hstart) as Hend.
  fold (range_step (length chunks) BATCH_SIZE) in Hend.
  change (fold_left (process_batch api chunks)
            (map (fun j => j * BATCH_SIZE) (seq 0 (total_batches chunks)))
            (empty, start)) with run in Hend.
  rewrite Nat.add_0_l in Hend.
  destruct Hend as (Hids & Hemb & Hidx & Hcalls & Htrace). fold st in Hids, Hemb, Hidx.
  assert (Hall : firstn (total_batches chunks * BATCH_SIZE) chunks = chunks).
  { apply firstn_all2. unfold total_batches, BATCH_SIZE.
    destruct (Nat.lt_ge_cases
                ((length chunks + 100 - 1) / 100 * 100) (length chunks))
      as [Hlt|Hge]; [|exact Hge].
    apply batches_before in Hlt. lia. }
  rewrite Hall in Hids, Hidx.
  pose proof (fold_pairs api chunks (range_step (length chunks) BATCH_SIZE)
                empty start eq_refl) as [Hlen _].
  fold (index_chunks api chunks) in Hlen. fold run in Hlen. fold st in Hlen.
  assert (Hcount : length (ids st) = length chunks)
    by (now rewrite Hids, length_map).
  repeat split; try assumption.
  - now rewrite <- Hlen.
Qed.

(** X4.  When the service answers every request with one vector for each
    text, the run stores every chunk: the ids are those of the input in
    order, the embeddings are the answers of the successive requests put
    end to end, each [embeddingIndex] is the place of its entry, one
    request is made for each batch of 100, and the run pauses half a
    second after every batch but the last. *)
Theorem dependable_run :
  let run := index_chunks api chunks in
  let st := fst run in
  ids st = map id chunks /\
  embeddings st
  = flat_map (fun j => answered api j (batch_texts chunks j))
             (seq 0 (total_batches chunks)) /\
  length (embeddings st) = length chunks /\
  map embeddingIndex (mapping st) = seq 0 (length chunks) /\
  totalChunks st = length chunks /\
  calls (snd run) = total_batches chunks /\
  trace (snd run) = quiet_trace (total_batches chunks).
Proof. exact dependable_end. Qed.

End DependableFacts.

(** Two chunks and a service that always answers: one request, no
    pause. *)
Lemma dependable_run_witness :
  let run := Indexer.index_chunks IndexerExamples.steady
               IndexerExamples.two_chunks in
  Indexer.ids (fst run) = [PyStr.L "c0"; PyStr.L "c1"] /\
  Indexer.trace (snd run) = [Indexer.Request 0].
Proof.
  assert (Hdep : Indexer.dependable IndexerExamples.steady).
  { intros n texts. eexists. split; [reflexivity|apply length_map]. }
  destruct (dependable_run IndexerExamples.steady IndexerExamples.two_chunks
              Hdep) as (Hids & _ & _ & _ & _ & _ & Htrace).
  split; [exact Hids|exact Htrace].
Defined.

(* ================================================================== *)
(** * The index written, read back *)
(* ================================================================== *)

Section PipelineFacts.
Import PyStr Data Indexer Pipeline.

Variable api : service.
Variable chunks : list chunk.

Lemma unanswered_batch texts retries w :
  unanswering api ->
  exists e w', generate_batch_embeddings api texts retries w = (Raise e, w').
Proof.
  intros Hnever.
  destruct (generate_batch_embeddings api texts retries w) as [r w'] eqn:Hrun.
  destruct r as [values|e]; [|now exists e, w'].
  exfalso. unfold generate_batch_embeddings in Hrun.
  destruct (attempts_outcome api texts retries retries 0 w _ _ eq_refl Hrun)
    as (_ & _ & _ & _ & _ & Hans).
  destruct (Hnever (calls w' - 1) texts) as [message Hfail].
  congruence.
Qed.

Lemma unanswered_fold (starts : list nat) :
  unanswering api ->
  forall st w,
    fst (fold_left (process_batch api chunks) starts (st, w)) = st.
Proof.
  intros Hnever. induction starts as [|i starts IH]; intros st w; simpl;
    [reflexivity|].
  destruct (unanswered_batch (map text (slice chunks i BATCH_SIZE)) 3 w Hnever)
    as (e & w' & Hrun).
  rewrite Hrun. apply IH.
Qed.

(** X5.  When the embedding service never answers, the indexer ends with
    empty lists all the same and reports 0 chunks of dimension 768; the
    two files it then writes make the change-detection run raise
    [AxisError] at its first guideline chunk. *)
Theorem unanswered_index_aborts_detection rt sv c more :
  unanswering api ->
  let st := fst (index_chunks api chunks) in
  st = empty /\
  totalChunks st = 0 /\
  embeddingDimension st = 768 /\
  Diff.main rt sv (saved_files st) (Some (c :: more)) = Raise AxisError.
Proof.
  intros Hnever st.
  assert (Hst : st = empty) by (apply unanswered_fold; exact Hnever).
  rewrite Hst. repeat split; reflexivity.
Qed.

(** ** Looking a stored text up *)

Lemma eqs_true (a b : str) : Diff.eqs a b = true <-> a = b.
Proof.
  unfold Diff.eqs. destruct (list_eq_dec ascii_dec a b); split; intros H;
    try reflexivity; try assumption; try discriminate; contradiction.
Qed.

Lemma find_by_key {V} (key : str) (v : V) (d : list (str * V)) :
  NoDup (map fst d) -> In (key, v) d ->
  find (fun kv => Diff.eqs (fst kv) key) d = Some (key, v).
Proof.
  induction d as [|[k' v'] d IH]; intros Hnodup Hin; [contradiction|].
  simpl in *. inversion Hnodup as [|? ? Hnotin Hnodup']; subst.
  destruct (Diff.eqs k' key) eqn:Heq.
  - apply eqs_true in Heq. subst k'.
    destruct Hin as [Hin|Hin]; [now rewrite Hin|].
    exfalso. apply Hnotin. apply (in_map fst) in Hin. exact Hin.
  - destruct Hin as [Hin|Hin]; [|now apply IH].
    injection Hin as -> _. assert (Diff.eqs key key = true)
      by (now apply eqs_true). congruence.
Qed.

(** A dict whose items have distinct keys gives back the value of each
    item. *)
Lemma dict_get_item {V} (key : str) (v : V) (d : list (str * V)) :
  NoDup (map fst d) -> In (key, v) d -> Diff.dict_get d key = Some v.
Proof.
  intros Hnodup Hin. unfold Diff.dict_get.
  rewrite (find_by_key key v (rev d)); [reflexivity| |now apply in_rev in Hin].
  rewrite map_rev. now apply NoDup_rev.
Qed.

(** X6.  Chunks with distinct ids, whatever the run: when the files the
    indexer wrote load, the index has the stored ids, and the text found in
    it for each of them is the text of the input chunk of that id. *)
Theorem stored_text_found :
  NoDup (map id chunks) ->
  let st := fst (index_chunks api chunks) in
  forall db,
    Diff.load_vector_db (saved_files st) = Ok (Some db) ->
    Diff.ids db = ids st /\
    forall k cid,
      nth_error (Diff.ids db) k = Some cid ->
      exists c, In c chunks /\ id c = cid /\
                Diff.dict_get (Diff.texts db) cid = Some (text c).
Proof.
  intros Hdistinct st db Hload.
  unfold Diff.load_vector_db, saved_files in Hload. simpl in Hload.
  destruct (Diff.np_array (embeddings st)) as [a|e]; [|discriminate].
  injection Hload as <-. simpl. split; [reflexivity|].
  intros k cid Hk.
  destruct (index_kept api chunks) as (Hids & Hdesc & _ & _).
  fold st in Hids, Hdesc.
  assert (Hnodup : NoDup (ids st)).
  { eapply Subseq_NoDup; [apply stored_ids_in_order|exact Hdistinct]. }
  rewrite <- Hids, nth_error_map in Hk.
  destruct (nth_error (mapping st) k) as [e|] eqn:He; [|discriminate].
  injection Hk as <-.
  apply nth_error_In in He.
  rewrite Forall_forall in Hdesc.
  destruct (Hdesc e He) as (c & Hc & Hid & Htext & _).
  exists c. split; [eapply nth_error_In; exact Hc|]. split; [now rewrite Hid|].
  rewrite <- Htext. apply dict_get_item.
  - replace (map fst (map (fun e0 => (entry_id e0, entry_text e0))
                        (mapping st)))
      with (map entry_id (mapping st)) by (now rewrite map_map).
    now rewrite Hids.
  - apply (in_map (fun e0 => (entry_id e0, entry_text e0))) in He. exact He.
Qed.

(** ** Loading the index of a run without failure *)

Lemma np_array_rows (d : nat) (rows : list vector) :
  rows <> [] -> Forall (fun v => length v = d) rows ->
  Diff.np_array rows = Ok (Diff.Array2 d (map Diff.float32_array rows)).
Proof.
  intros Hne Hall. destruct rows as [|r rows]; [contradiction|].
  unfold Diff.np_array.
  assert (Hr : length r = d) by (now inversion Hall).
  replace (forallb (fun r' => length r' =? length r) (r :: rows)) with true.
  - now rewrite Hr.
  - symmetry. apply forallb_forall. intros v Hv.
    rewrite Forall_forall in Hall. rewrite (Hall v Hv), Hr.
    apply Nat.eqb_refl.
Qed.

Lemma entries_in_place (m : list entry) :
  Forall (describes chunks) m ->
  map embeddingIndex m = seq 0 (length chunks) ->
  map (fun e => (entry_id e, entry_text e)) m
  = map (fun c => (id c, text c)) chunks.
Proof.
  intros Hdesc Hidx. apply nth_error_ext. intros k.
  rewrite !nth_error_map.
  assert (Hk : nth_error (map embeddingIndex m) k
               = nth_error (seq 0 (length chunks)) k) by now rewrite Hidx.
  rewrite nth_error_map, nth_error_seq in Hk.
  destruct (nth_error m k) as [e|] eqn:He; simpl in Hk.
  - destruct (k <? length chunks); [|discriminate].
    injection Hk as Hk. simpl in Hk.
    rewrite Forall_forall in Hdesc.
    destruct (Hdesc e (nth_error_In _ _ He)) as (c & Hc & Hid & Htext & _).
    rewrite Hk in Hc. rewrite Hc. simpl. now rewrite Hid, Htext.
  - destruct (k <? length chunks) eqn:Hlt; [discriminate|].
    apply Nat.ltb_ge in Hlt. apply nth_error_None in Hlt. now rewrite Hlt.
Qed.

(** X7.  When every request is answered with one vector of length [d] for
    each text and there is a chunk to index, the files written load as an
    index of [d] columns that has one row and one id for each input chunk,
    in the order of the input; each row is the stored vector converted to
    float32. *)
Theorem dependable_index_loads (d : nat) :
  dependable api -> of_dimension d api -> chunks <> [] ->
  let st := fst (index_chunks api chunks) in
  Diff.load_vector_db (saved_files st)
  = Ok (Some {| Diff.ids := map id chunks;
                Diff.embeddings :=
                  Diff.Array2 d (map Diff.float32_array (embeddings st));
                Diff.texts := map (fun c => (id c, text c)) chunks |}) /\
  length (embeddings st) = length chunks.
Proof.
  intros Hdep Hdim Hne st.
  destruct (dependable_end api chunks Hdep)
    as (Hids & Hemb & Hlen & Hidx & _ & _ & _).
  fold st in Hids, Hemb, Hlen, Hidx.
  split; [|exact Hlen].
  unfold Diff.load_vector_db, saved_files. simpl.
  rewrite (np_array_rows d).
  - rewrite Hids. f_equal. f_equal. f_equal.
    destruct (index_kept api chunks) as (_ & Hdesc & _ & _).
    apply entries_in_place; assumption.
  - intros Hnil. rewrite Hnil in Hlen. destruct chunks; [contradiction|].
    discriminate.
  - rewrite Hemb. apply Forall_forall. intros v Hv.
    apply in_flat_map in Hv. destruct Hv as (j & _ & Hv).
    exact (Hdim j _ v Hv).
Qed.

End PipelineFacts.

(** The service out of quota, two chunks to index, one to analyse. *)
Lemma unanswered_index_witness :
  Diff.main DiffExamples.runtime_ex DiffServices.prose
    (Pipeline.saved_files
       (fst (Indexer.index_chunks IndexerExamples.out_of_quota
               IndexerExamples.two_chunks)))
    (Some [DiffExamples.guideline_chunk])
  = Data.Raise Data.AxisError.
Proof.
  assert (Hnever : Pipeline.unanswering IndexerExamples.out_of_quota).
  { intros n texts. eexists. reflexivity. }
  destruct (unanswered_index_aborts_detection IndexerExamples.out_of_quota
              IndexerExamples.two_chunks DiffExamples.runtime_ex
              DiffServices.prose DiffExamples.guideline_chunk [] Hnever)
    as (_ & _ & _ & Hmain).
  exact Hmain.
Defined.

Lemma two_chunks_distinct : NoDup (map Data.id IndexerExamples.two_chunks).
Proof. repeat constructor; simpl; intuition discriminate. Qed.

Lemma steady_dependable : Indexer.dependable IndexerExamples.steady.
Proof. intros n texts. eexists. split; [reflexivity|apply length_map]. Qed.

Lemma two_chunk_index_loads :
  Diff.load_vector_db
    (Pipeline.saved_files
       (fst (Indexer.index_chunks IndexerExamples.steady
               IndexerExamples.two_chunks)))
  = Data.Ok (Some IndexerExamples.two_chunk_index).
Proof. reflexivity. Qed.

(** The text found for the second id is the text of the second chunk. *)
Lemma stored_text_found_witness :
  exists c,
    In c IndexerExamples.two_chunks /\ Data.id c = PyStr.L "c1" /\
    Diff.dict_get (Diff.texts IndexerExamples.two_chunk_index) (PyStr.L "c1")
    = Some (Data.text c).
Proof.
  destruct (stored_text_found IndexerExamples.steady
              IndexerExamples.two_chunks two_chunks_distinct
              IndexerExamples.two_chunk_index two_chunk_index_loads)
    as [_ Hfound].
  exact (Hfound 1 (PyStr.L "c1") eq_refl).
Defined.

(** Two chunks, vectors of length 2: the index loads with two columns. *)
Lemma dependable_index_loads_witness :
  exists db,
    Diff.load_vector_db
      (Pipeline.saved_files
         (fst (Indexer.index_chunks IndexerExamples.steady
                 IndexerExamples.two_chunks)))
    = Data.Ok (Some db) /\
    Diff.ids db = [PyStr.L "c0"; PyStr.L "c1"].
Proof.
  assert (Hdim : Pipeline.of_dimension 2 IndexerExamples.steady).
  { intros n texts v Hv. unfold Indexer.answered, IndexerExamples.steady in Hv.
    apply in_map_iff in Hv. destruct Hv as (t & <- & _). reflexivity. }
  destruct (dependable_index_loads IndexerExamples.steady
              IndexerExamples.two_chunks 2 steady_dependable Hdim
              ltac:(discriminate)) as [Hload _].
  eexists. split; [exact Hload|reflexivity].
Defined.

(* ================================================================== *)
(** * More on the guideline segmenter *)
(* ================================================================== *)

(** ** The matcher only moves forward *)

Section MatcherFacts.
Import PyStr Re.

Variable A : Type.

Lemma rep_forward (p : ascii -> bool) lo hi (s : str) :
  forall n prev (k : cont A) x,
    rep p lo hi n prev s k = Some x ->
    exists prev' s', k prev' s' = Some x /\ length s' <= length s.
Proof.
  induction s as [|c s IH]; intros n prev k x Hrep; simpl in Hrep.
  - destruct (lo <=? n); [|discriminate]. exists prev, []. now split.
  - assert (Hstop : (if lo <=? n then k prev (c :: s) else None) = Some x ->
                    exists prev' s', k prev' s' = Some x /\
                                     length s' <= length (c :: s)).
    { destruct (lo <=? n); [|discriminate]. intros Hk.
      exists prev, (c :: s). now split. }
    destruct (p c && below n hi); [|now apply Hstop].
    destruct (rep p lo hi (S n) (Some c) s k) as [y|] eqn:Hmore;
      simpl in Hrep; [|now apply Hstop].
    injection Hrep as <-. apply IH in Hmore.
    destruct Hmore as (prev' & s' & Hk & Hlen).
    exists prev', s'. split; [exact Hk|simpl; lia].
Qed.

Lemma run_forward (r : re) :
  forall prev (s : str) (k : cont A) x,
    run r prev s k = Some x ->
    exists prev' s', k prev' s' = Some x /\ length s' <= length s.
Proof.
  induction r as [|p|r1 IH1 r2 IH2|r1 IH1 r2 IH2|p lo hi| |];
    intros prev s k x Hrun; simpl in Hrun.
  - exists prev, s. now split.
  - destruct s as [|c s]; [discriminate|].
    destruct (p c); [|discriminate].
    exists (Some c), s. split; [exact Hrun|simpl; lia].
  - apply IH1 in Hrun. destruct Hrun as (p1 & s1 & Hrun & Hlen1).
    apply IH2 in Hrun. destruct Hrun as (p2 & s2 & Hk & Hlen2).
    exists p2, s2. split; [exact Hk|lia].
  - destruct (run r1 prev s k) as [y|] eqn:Hfirst; simpl in Hrun.
    + injection Hrun as <-. now apply IH1 in Hfirst.
    + now apply IH2 in Hrun.
  - now apply rep_forward in Hrun.
  - destruct (at_bol prev); [|discriminate]. exists prev, s. now split.
  - destruct (at_eol s); [|discriminate]. exists prev, s. now split.
Qed.

End MatcherFacts.

Section SplitFacts.
Import PyStr Re.

(** A match and what follows it fit in the text matched against. *)
Lemma match_here_fits (p : pattern) prev (s : str) (h : hit) :
  match_here p prev s = Some h ->
  length (captured h) + length (rest h) <= length s.
Proof.
  unfold match_here. intros Hm.
  apply run_forward in Hm. destruct Hm as (p1 & s1 & Hm & Hlen1).
  apply run_forward in Hm. destruct Hm as (p2 & s2 & Hm & Hlen2).
  apply run_forward in Hm. destruct Hm as (p3 & s3 & Hm & Hlen3).
  injection Hm as <-. simpl. rewrite length_firstn. lia.
Qed.

(** No part of a split is longer than what was to be split. *)
Lemma split_at_parts (fuel : nat) (p : pattern) :
  forall prev (piece s : str) part,
    In part (split_at fuel p prev piece s) ->
    length part <= length piece + length s.
Proof.
  induction fuel as [|fuel IH]; intros prev piece s part Hin; simpl in Hin.
  - destruct Hin as [<-|[]]. now rewrite length_app, length_rev.
  - assert (Hstep : In part
                      match s with
                      | [] => [rev piece]
                      | c :: s' => split_at fuel p (Some c) (c :: piece) s'
                      end ->
                    length part <= length piece + length s).
    { destruct s as [|c s'].
      - intros [<-|[]]. rewrite length_rev. lia.
      - intros Hin'. apply IH in Hin'. simpl in *. lia. }
    destruct (match_here p prev s) as [h|] eqn:Hm; [|now apply Hstep].
    destruct (length (rest h) <? length s); [|now apply Hstep].
    apply match_here_fits in Hm.
    destruct Hin as [<-|[<-|Hin]].
    + rewrite length_rev. lia.
    + lia.
    + apply IH in Hin. simpl in Hin. lia.
Qed.

Lemma re_split_parts (p : pattern) (s part : str) :
  In part (re_split p s) -> length part <= length s.
Proof.
  intros Hin. apply split_at_parts in Hin. simpl in Hin. exact Hin.
Qed.

Lemma lstrip_shorter (s : str) : length (lstrip s) <= length s.
Proof.
  induction s as [|c s IH]; simpl; [lia|].
  destruct (is_space c); simpl; lia.
Qed.

Lemma strip_shorter (s : str) : length (strip s) <= length s.
Proof.
  unfold strip, rstrip. rewrite length_rev.
  etransitivity; [apply lstrip_shorter|]. rewrite length_rev.
  apply lstrip_shorter.
Qed.

(** The words of a text, one blank between them, fit in the text. *)
Lemma split_from_fits (s : str) :
  forall cur,
    Ingester.letters (PyStr.split_from cur s)
      + length (PyStr.split_from cur s)
    <= length cur + length s + 1.
Proof.
  unfold Ingester.letters.
  induction s as [|c s IH]; intros cur; simpl.
  - destruct cur; simpl; [lia|]. rewrite length_app, length_rev. simpl. lia.
  - destruct (is_space c).
    + destruct cur as [|c' cur].
      * specialize (IH []). simpl in IH. lia.
      * specialize (IH []). simpl in *.
        rewrite length_app, length_rev. simpl. lia.
    + specialize (IH (c :: cur)). simpl in IH. lia.
Qed.

End SplitFacts.

(** ** What a chunk holds *)

Section ContentFacts.
Import PyStr Re Data Ingester.

Variable txt src : str.

Lemma joined_words_fit : length (join (L " ") (split txt)) <= length txt.
Proof.
  rewrite join_length. change (length (L " ")) with 1. unfold split.
  pose proof (split_from_fits txt []) as Hfit.
  change (length (@nil ascii)) with 0 in Hfit.
  destruct (PyStr.split_from [] txt) as [|w ws].
  - unfold letters. simpl. lia.
  - simpl length in *. lia.
Qed.

Lemma windows_content (starts : list nat) :
  forall chunks c,
    In c (fold_left (window_step (split txt) src) starts chunks) ->
    In c chunks \/ chunk_of txt src 100 c.
Proof.
  induction starts as [|i starts IH]; intros chunks c Hin; simpl in Hin.
  - now left.
  - apply IH in Hin. destruct Hin as [Hin|Hin]; [|now right].
    unfold window_step in Hin.
    destruct (100 <? _) eqn:Hlong; [|now left].
    apply in_app_or in Hin. destruct Hin as [Hin|[<-|[]]]; [now left|].
    right. eexists _, _, _. split; [reflexivity|].
    split; [now apply Nat.ltb_lt|].
    etransitivity; [apply window_length|apply joined_words_fit].
Qed.

Lemma later_part_content c : from_later_part txt src c -> chunk_of txt src 50 c.
Proof.
  intros (p & part & header & n & _ & Hpart & Hlong & ->).
  exists header, (strip part), n. split; [reflexivity|]. split; [exact Hlong|].
  etransitivity; [apply strip_shorter|].
  apply (re_split_parts p). destruct (re_split p txt); [contradiction|].
  now right.
Qed.

Lemma chunk_content c :
  In c (chunk_by_headers txt src) -> chunk_of txt src 50 c.
Proof.
  intros Hin. unfold chunk_by_headers, fallback in Hin.
  destruct (_ && _).
  - apply windows_content in Hin. destruct Hin as [Hin|Hin].
    + apply try_patterns_origin in Hin; [|apply incl_refl].
      destruct Hin as [[]|Hin]. now apply later_part_content.
    + destruct Hin as (header & body & n & Hc & Hlong & Hfit).
      exists header, body, n. repeat split; try assumption. lia.
  - apply try_patterns_origin in Hin; [|apply incl_refl].
    destruct Hin as [[]|Hin]. now apply later_part_content.
Qed.

End ContentFacts.

Section ContentTheorems.
Import PyStr Re Data Ingester.

(** X8.  Every chunk of [chunk_by_headers] is a header line, a source
    line, an empty line and a body; the body has more than 50 characters
    and is never longer than the text it was taken from; the metadata give
    the file name without its directories as source, "guideline" as type,
    and the header as topic. *)
Theorem chunks_have_content (txt src : str) (c : chunk) :
  In c (chunk_by_headers txt src) ->
  exists header body n,
    50 < length body /\ length body <= length txt /\
    id c = chunk_id src n /\
    text c = L "TOPIC: " ++ header ++ nl ++ L "SOURCE: " ++ basename src
               ++ nl ++ nl ++ body /\
    meta c = {| source := basename src; type := L "guideline";
                topic := header |}.
Proof.
  intros Hin. apply chunk_content in Hin.
  destruct Hin as (header & body & n & -> & Hlong & Hfit).
  exists header, body, n. repeat split; assumption.
Qed.

(** X9.  A text of at most 50 characters, the empty text among them,
    gives no chunk at all. *)
Theorem short_text_no_chunk (txt src : str) :
  length txt <= 50 -> chunk_by_headers txt src = [].
Proof.
  intros Hshort. destruct (chunk_by_headers txt src) as [|c l] eqn:Hc;
    [reflexivity|].
  assert (Hin : In c (chunk_by_headers txt src)) by (rewrite Hc; now left).
  apply chunk_content in Hin.
  destruct Hin as (header & body & n & _ & Hlong & Hfit). lia.
Qed.

End ContentTheorems.

(** The chunk under the numbered heading of the example guideline. *)
Lemma chunks_have_content_witness :
  exists (header body : PyStr.str) (n : nat),
    50 < length body /\ length body <= length IngesterExamples.guideline /\
    Data.id (hd (Ingester.make_chunk [] [] [] 0)
               (Ingester.chunk_by_headers IngesterExamples.guideline
                  IngesterExamples.pdf))
    = Ingester.chunk_id IngesterExamples.pdf n /\
    Data.topic (Data.meta
      (hd (Ingester.make_chunk [] [] [] 0)
          (Ingester.chunk_by_headers IngesterExamples.guideline
             IngesterExamples.pdf))) = header.
Proof.
  destruct (chunks_have_content IngesterExamples.guideline
              IngesterExamples.pdf
              (hd (Ingester.make_chunk [] [] [] 0)
                  (Ingester.chunk_by_headers IngesterExamples.guideline
                     IngesterExamples.pdf)))
    as (header & body & n & Hlong & Hfit & Hid & Htext & Hmeta).
  { vm_compute. left. reflexivity. }
  exists header, body, n. split; [exact Hlong|]. split; [exact Hfit|].
  split; [exact Hid|]. now rewrite Hmeta.
Defined.

(** A note of 26 characters under a keyword heading. *)
Lemma short_text_no_chunk_witness :
  Ingester.chunk_by_headers IngesterExamples.note IngesterExamples.pdf = [].
Proof.
  apply short_text_no_chunk. apply Nat.leb_le. vm_compute. reflexivity.
Defined.

(** ** The numbering of the chunks *)

Section NumberingFacts.
Import PyStr Re Data Ingester.

Lemma of_nat_inj (a b : nat) : of_nat a = of_nat b -> a = b.
Proof.
  unfold of_nat, L. intros H.
  apply (f_equal string_of_list_ascii) in H.
  rewrite !string_of_list_ascii_of_string in H.
  apply (f_equal DecimalString.NilZero.uint_of_string) in H.
  assert (Hnorm : forall n, DecimalString.NilZero.uint_of_string
                              (DecimalString.NilZero.string_of_uint
                                 (Nat.to_uint n))
                            = Some (Nat.to_uint n)).
  { intros n. apply DecimalString.NilZero.usu.
    rewrite <- (DecimalNat.Unsigned.of_to n) at 1.
    rewrite DecimalNat.Unsigned.to_of. apply DecimalFacts.unorm_nonnil. }
  rewrite !Hnorm in H. injection H as H.
  now apply DecimalNat.Unsigned.to_uint_inj.
Qed.

Variable src : str.

Lemma chunk_id_inj (a b : nat) : chunk_id src a = chunk_id src b -> a = b.
Proof.
  unfold chunk_id. intros H.
  repeat (apply app_inv_head in H). now apply of_nat_inj.
Qed.

Lemma chunk_ids_distinct (n : nat) : NoDup (map (chunk_id src) (seq 0 n)).
Proof.
  generalize 0. induction n as [|n IH]; intros a; simpl; constructor.
  - intros Hin. apply in_map_iff in Hin. destruct Hin as (b & Hb & Hin).
    apply chunk_id_inj in Hb. apply in_seq in Hin. lia.
  - apply IH.
Qed.

Lemma numbered_snoc chunks header body :
  numbered src chunks ->
  numbered src (chunks ++ [make_chunk src header body (length chunks)]).
Proof.
  unfold numbered. intros H.
  rewrite map_app, length_app, H. simpl length.
  rewrite Nat.add_1_r, seq_S, map_app. reflexivity.
Qed.

Lemma scan_parts_numbered (p : pattern) (parts : list (nat * str)) :
  forall header chunks,
    numbered src chunks ->
    numbered src (scan_parts p src parts header chunks).
Proof.
  induction parts as [|[i part] parts IH]; intros header chunks H; simpl;
    [exact H|].
  destruct (i =? 0); [now apply IH|].
  destruct (re_match p (strip part)); [now apply IH|].
  destruct (50 <? length (strip part)); [|now apply IH].
  apply IH. now apply numbered_snoc.
Qed.

Lemma try_patterns_numbered (txt : str) (ps : list pattern) :
  forall chunks,
    numbered src chunks -> numbered src (try_patterns ps txt src chunks).
Proof.
  induction ps as [|p ps IH]; intros chunks H; simpl; [exact H|].
  assert (Hscan : numbered src (scan_pattern p txt src chunks))
    by (now apply scan_parts_numbered).
  destruct (0 <? length (scan_pattern p txt src chunks));
    [exact Hscan|now apply IH].
Qed.

Lemma windows_numbered (words : list str) (starts : list nat) :
  forall chunks,
    numbered src chunks ->
    numbered src (fold_left (window_step words src) starts chunks).
Proof.
  induction starts as [|i starts IH]; intros chunks H; simpl; [exact H|].
  apply IH. unfold window_step.
  destruct (100 <? _); [now apply numbered_snoc|exact H].
Qed.

Lemma windows_sectioned (words : list str) (starts : list nat) :
  forall chunks,
    sectioned chunks ->
    sectioned (fold_left (window_step words src) starts chunks) /\
    length (fold_left (window_step words src) starts chunks)
    <= length chunks + length starts.
Proof.
  induction starts as [|i starts IH]; intros chunks H; simpl;
    [split; [exact H|lia]|].
  unfold window_step at 2 4.
  destruct (100 <? _).
  - destruct (IH (chunks ++
                  [make_chunk src (L "Section " ++ of_nat (length chunks + 1))
                     (join (L " ") (slice words i (chunk_size / 5)))
                     (length chunks)])) as [Hs Hl].
    + unfold sectioned in *. rewrite map_app, length_app, H. simpl length.
      rewrite (Nat.add_1_r (length chunks)) at 2.
      rewrite seq_S, map_app. reflexivity.
    + split; [exact Hs|]. rewrite length_app in Hl.
      change (length [_]) with 1 in Hl. lia.
  - destruct (IH chunks H) as [Hs Hl]. split; [exact Hs|lia].
Qed.

(** The pattern loop ends with the chunks of the first pattern that makes
    any, or with none. *)
Lemma try_patterns_first (txt : str) (ps : list pattern) :
  (exists before p after,
     ps = before ++ p :: after /\
     Forall (fun q => scan_pattern q txt src [] = []) before /\
     scan_pattern p txt src [] <> [] /\
     try_patterns ps txt src [] = scan_pattern p txt src []) \/
  (Forall (fun q => scan_pattern q txt src [] = []) ps /\
   try_patterns ps txt src [] = []).
Proof.
  induction ps as [|p ps IH]; simpl.
  - right. split; [constructor|reflexivity].
  - destruct (scan_pattern p txt src []) as [|c l] eqn:Hscan; simpl.
    + destruct IH as [(before & q & after & -> & Hnone & Hsome & Htry)
                     |[Hnone Htry]].
      * left. exists (p :: before), q, after.
        split; [reflexivity|]. split; [now constructor|]. now split.
      * right. split; [now constructor|exact Htry].
    + left. exists [], p, ps. split; [reflexivity|]. split; [constructor|].
      rewrite Hscan. split; [discriminate|reflexivity].
Qed.

End NumberingFacts.

Section NumberingTheorems.
Import PyStr Re Data Ingester.

(** X10.  The chunks of one call of [chunk_by_headers] are numbered from 0
    in their order, each id being "guide_", the file name without its
    ".pdf", "_" and the number; so no two of them have the same id. *)
Theorem chunk_ids_numbered (txt src : str) :
  map id (chunk_by_headers txt src)
  = map (chunk_id src) (seq 0 (length (chunk_by_headers txt src))) /\
  NoDup (map id (chunk_by_headers txt src)).
Proof.
  assert (H : numbered src (chunk_by_headers txt src)).
  { unfold chunk_by_headers, fallback.
    assert (Htry : numbered src (try_patterns patterns txt src []))
      by (apply try_patterns_numbered; reflexivity).
    destruct (_ && _); [now apply windows_numbered|exact Htry]. }
  split; [exact H|]. rewrite H. apply chunk_ids_distinct.
Qed.

(** X11.  The patterns are tried in their order and the first that makes
    a chunk decides alone: the result is what that pattern makes, the
    patterns before it having made nothing and those after it not being
    tried; the windows of the fallback are made only when no pattern made
    a chunk. *)
Theorem first_pattern_decides (txt src : str) :
  (exists before p after,
     patterns = before ++ p :: after /\
     Forall (fun q => scan_pattern q txt src [] = []) before /\
     scan_pattern p txt src [] <> [] /\
     chunk_by_headers txt src = scan_pattern p txt src []) \/
  (Forall (fun q => scan_pattern q txt src [] = []) patterns /\
   chunk_by_headers txt src = fallback txt src []).
Proof.
  unfold chunk_by_headers.
  destruct (try_patterns_first src txt patterns)
    as [(before & p & after & Hps & Hnone & Hsome & Htry)|[Hnone Htry]].
  - left. exists before, p, after. repeat split; try assumption.
    rewrite Htry. unfold fallback.
    destruct (scan_pattern p txt src []); [contradiction|reflexivity].
  - right. split; [exact Hnone|]. now rewrite Htry.
Qed.

(** X12.  When no pattern made a chunk, the chunks are labelled
    "Section 1", "Section 2", ... in their order, and there are no more of
    them than windows of 400 words. *)
Theorem windows_are_sections (txt src : str) :
  try_patterns patterns txt src [] = [] ->
  map (fun c => topic (meta c)) (chunk_by_headers txt src)
  = map (fun k => L "Section " ++ of_nat (k + 1))
        (seq 0 (length (chunk_by_headers txt src))) /\
  length (chunk_by_headers txt src) <= (length (split txt) + 399) / 400.
Proof.
  intros Hnone. unfold chunk_by_headers, fallback. rewrite Hnone.
  destruct (_ && _).
  - destruct (windows_sectioned src (split txt)
                (range_step (length (split txt)) (chunk_size / 5)) [])
      as [Hs Hl]; [reflexivity|].
    split; [exact Hs|].
    unfold range_step in *. rewrite length_map, length_seq in Hl.
    change (chunk_size / 5) with 400 in *.
    replace (length (split txt) + 400 - 1) with (length (split txt) + 399)
      in * by lia.
    exact Hl.
  - split; [reflexivity|apply Nat.le_0_l].
Qed.

End NumberingTheorems.

(** Thirty words without a heading: one chunk, "Section 1". *)
Lemma windows_are_sections_witness :
  map (fun c => Data.topic (Data.meta c))
      (Ingester.chunk_by_headers IngesterExamples.plain IngesterExamples.pdf)
  = [PyStr.L "Section 1"].
Proof.
  destruct (windows_are_sections IngesterExamples.plain IngesterExamples.pdf)
    as [Htopics _]; [vm_compute; reflexivity|].
  rewrite Htopics. vm_compute. reflexivity.
Defined.

(** ** The cleaning of the extracted text *)

Section CleaningFacts.
Import PyStr Re Data Ingester.

Lemma rep_consumes {A} (p : ascii -> bool) lo hi (s : str) :
  forall n prev (k : cont A) x,
    rep p lo hi n prev s k = Some x ->
    exists prev' s', k prev' s' = Some x /\ (lo - n) + length s' <= length s.
Proof.
  induction s as [|c s IH]; intros n prev k x Hrep; simpl in Hrep.
  - destruct (lo <=? n) eqn:Hlo; [|discriminate].
    apply Nat.leb_le in Hlo. exists prev, []. split; [exact Hrep|simpl; lia].
  - assert (Hstop : (if lo <=? n then k prev (c :: s) else None) = Some x ->
                    exists prev' s', k prev' s' = Some x /\
                                     (lo - n) + length s' <= length (c :: s)).
    { destruct (lo <=? n) eqn:Hlo; [|discriminate]. intros Hk.
      apply Nat.leb_le in Hlo. exists prev, (c :: s).
      split; [exact Hk|simpl; lia]. }
    destruct (p c && below n hi); [|now apply Hstop].
    destruct (rep p lo hi (S n) (Some c) s k) as [y|] eqn:Hmore;
      simpl in Hrep; [|now apply Hstop].
    injection Hrep as <-. apply IH in Hmore.
    destruct Hmore as (prev' & s' & Hk & Hlen).
    exists prev', s'. split; [exact Hk|simpl; lia].
Qed.

(** Replacing matches by something no longer than any match does not
    lengthen the text. *)
Lemma sub_at_shorter (r : re) (repl : str) :
  (forall prev s prev' s',
     run r prev s (fun a b => Some (a, b)) = Some (prev', s') ->
     length repl + length s' <= length s) ->
  forall fuel prev s, length (sub_at fuel r repl prev s) <= length s.
Proof.
  intros Hmatch. induction fuel as [|fuel IH]; intros prev s; simpl; [lia|].
  assert (Hstep : length match s with
                         | [] => []
                         | c :: s' => c :: sub_at fuel r repl (Some c) s'
                         end <= length s).
  { destruct s as [|c s']; simpl; [lia|]. specialize (IH (Some c) s'). lia. }
  destruct (run r prev s (fun prev' s' => Some (prev', s')))
    as [[prev' s']|] eqn:Hrun; [|exact Hstep].
  destruct (length s' <? length s); [|exact Hstep].
  rewrite length_app. specialize (IH prev' s').
  specialize (Hmatch _ _ _ _ Hrun). lia.
Qed.

Lemma lstrip_idempotent (s : str) : lstrip (lstrip s) = lstrip s.
Proof.
  induction s as [|c s IH]; simpl; [reflexivity|].
  destruct (is_space c) eqn:Hc; [exact IH|]. simpl. now rewrite Hc.
Qed.

Lemma lstrip_keeps_last (l : str) (c : ascii) :
  is_space c = false -> exists l', lstrip (l ++ [c]) = l' ++ [c].
Proof.
  intros Hc. induction l as [|d l IH]; simpl.
  - rewrite Hc. now exists [].
  - destruct (is_space d); [exact IH|]. now exists (d :: l).
Qed.

Lemma lstrip_fixed (s : str) :
  lstrip s = s <-> s = [] \/ exists c s', s = c :: s' /\ is_space c = false.
Proof.
  split.
  - destruct s as [|c s']; [now left|]. simpl.
    destruct (is_space c) eqn:Hc.
    + intros H. pose proof (lstrip_shorter s') as Hlen.
      rewrite H in Hlen. simpl in Hlen. lia.
    + intros _. right. now exists c, s'.
  - intros [->|(c & s' & -> & Hc)]; simpl; [reflexivity|now rewrite Hc].
Qed.

Lemma strip_fixed (s : str) :
  lstrip (strip s) = strip s /\ rstrip (strip s) = strip s.
Proof.
  split.
  - unfold strip, rstrip.
    destruct (lstrip s) as [|c u] eqn:Hu; [reflexivity|].
    assert (Hc : is_space c = false).
    { assert (Hfix : lstrip (c :: u) = c :: u)
        by (rewrite <- Hu; apply lstrip_idempotent).
      apply lstrip_fixed in Hfix.
      destruct Hfix as [Hnil|(c' & s' & Heq & Hc')]; [discriminate|].
      now injection Heq as -> _. }
    simpl rev. destruct (lstrip_keeps_last (rev u) c Hc) as [l' Hl'].
    rewrite Hl', rev_app_distr. simpl. now rewrite Hc.
  - unfold strip, rstrip. now rewrite rev_involutive, lstrip_idempotent.
Qed.

(** X13.  [clean_text] never lengthens the text, and what it returns
    neither begins nor ends with a blank character. *)
Theorem clean_text_tidy (txt : str) :
  length (clean_text txt) <= length txt /\
  lstrip (clean_text txt) = clean_text txt /\
  rstrip (clean_text txt) = clean_text txt.
Proof.
  split; [|apply strip_fixed].
  unfold clean_text, re_sub.
  etransitivity; [apply strip_shorter|].
  etransitivity; [apply sub_at_shorter|].
  - intros prev s prev' s' Hrun. apply run_forward in Hrun.
    destruct Hrun as (a & b & Hk & Hlen). injection Hk as <- <-.
    simpl. exact Hlen.
  - apply sub_at_shorter.
    intros prev s prev' s' Hrun. unfold pat_blank_lines in Hrun.
    simpl in Hrun. apply rep_consumes in Hrun.
    destruct Hrun as (a & b & Hk & Hlen). injection Hk as <- <-.
    simpl in *. lia.
Qed.

End CleaningFacts.

(* ================================================================== *)
(** * More on the change-detection script *)
(* ================================================================== *)

(** ** The category of a trend *)

Section CategoryFacts.
Import PyStr Data Diff.

Lemma startswith_app (p a b : str) :
  startswith p a = true -> startswith p (a ++ b) = true.
Proof.
  revert a. induction p as [|x p IH]; intros [|y a] H; simpl in *;
    try reflexivity; try discriminate.
  apply andb_true_iff in H. destruct H as [Hxy Hp].
  rewrite Hxy. simpl. now apply IH.
Qed.

Lemma contains_app_l (p a b : str) :
  contains p a = true -> contains p (a ++ b) = true.
Proof.
  induction a as [|y a IH]; simpl; intros H.
  - rewrite orb_false_r in H. destruct p; [|discriminate].
    destruct b; reflexivity.
  - apply orb_true_iff in H. destruct H as [H|H].
    + change (y :: a ++ b) with ((y :: a) ++ b).
      rewrite (startswith_app p (y :: a) b H). reflexivity.
    + rewrite (IH H). apply orb_true_r.
Qed.

Lemma contains_app_r (p a b : str) :
  contains p b = true -> contains p (a ++ b) = true.
Proof.
  intros H. induction a as [|y a IH]; simpl; [exact H|].
  rewrite IH. apply orb_true_r.
Qed.

Lemma lower_char_idempotent (c : ascii) :
  lower_char (lower_char c) = lower_char c.
Proof.
  destruct c as [[] [] [] [] [] [] [] []]; vm_compute; reflexivity.
Qed.

Lemma lower_idempotent (s : str) : lower (lower s) = lower s.
Proof.
  unfold lower. rewrite map_map. apply map_ext. apply lower_char_idempotent.
Qed.

Lemma any_in_part (keywords : list string) (a b : str) :
  any_in keywords a = true \/ any_in keywords b = true ->
  any_in keywords (a ++ L " " ++ b) = true.
Proof.
  unfold any_in. rewrite !existsb_exists.
  intros [(kw & Hin & Hkw)|(kw & Hin & Hkw)]; exists kw; (split; [exact Hin|]).
  - now apply contains_app_l.
  - now apply contains_app_r, contains_app_r.
Qed.

Lemma lower_parts (a b : str) :
  lower (a ++ L " " ++ b) = lower a ++ L " " ++ lower b.
Proof. unfold lower. now rewrite !map_app. Qed.

(** X14.  [detect_category] answers one of six labels; it does not look at
    the case of the letters; and a keyword of the first table
    (tuberculosis ...) found in the topic or in the text alone makes the
    category "TB", whatever other keywords are there. *)
Theorem category_of_keywords (topic txt : str) :
  In (detect_category topic txt)
     [L "TB"; L "Asthma"; L "ARDS"; L "COPD"; L "Pneumonia"; L "Other"] /\
  detect_category (lower topic) (lower txt) = detect_category topic txt /\
  (any_in ["tuberculosis"; " tb "; "dr-tb"; "mdr-tb"; "xdr-tb"; "ntep";
           "rntcp"; "dots"]%string (lower topic) = true \/
   any_in ["tuberculosis"; " tb "; "dr-tb"; "mdr-tb"; "xdr-tb"; "ntep";
           "rntcp"; "dots"]%string (lower txt) = true ->
   detect_category topic txt = L "TB").
Proof.
  split; [|split].
  - unfold detect_category.
    repeat match goal with
           | |- In (if ?b then _ else _) _ => destruct b
           end; simpl; auto 10.
  - unfold detect_category. cbv zeta.
    rewrite (lower_parts (lower topic) (lower txt)), !lower_idempotent.
    rewrite <- lower_parts. reflexivity.
  - intros Hkw. unfold detect_category. cbv zeta. rewrite lower_parts.
    now rewrite (any_in_part _ (lower topic) (lower txt) Hkw).
Qed.

End CategoryFacts.

(** ** What a report holds *)

Section ReportFacts.
Import PyStr Data Diff.

Variable rt : runtime.
Variable sv : services.
Variable fs : files.

Lemma record_verdict_adds c verdict trends out :
  record_verdict c verdict trends = Ok out ->
  out = trends \/
  exists t, out = trends ++ [t] /\ recorded [c] t.
Proof.
  unfold record_verdict. destruct verdict as [| | | | |fields];
    try discriminate.
  destruct (dict_get fields (L "has_shift")) as [v|] eqn:Hshift;
    [|intros H; injection H as <-; now left].
  destruct (truthy v) eqn:Htrue; [|intros H; injection H as <-; now left].
  destruct (get_str fields (L "topic")) as [topic_text|] eqn:Htopic;
    [|discriminate].
  destruct (get_str fields (L "new_concept")) as [new_concept|] eqn:Hnew;
    [|discriminate].
  destruct (dict_get fields (L "exam_relevance_score")) as [score|] eqn:Hscore;
    [|discriminate].
  intros H. injection H as <-. right. eexists. split; [reflexivity|].
  unfold recorded. cbn [verdict_fields source_guideline category].
  split; [exists c; split; [now left|reflexivity]|].
  split; [now exists v|]. split; [now rewrite Hscore|].
  now exists topic_text, new_concept.
Qed.

Lemma recorded_among (chunks more : list chunk) t :
  recorded chunks t -> incl chunks more -> recorded more t.
Proof.
  intros ((c & Hin & Hsrc) & Hrest) Hincl.
  split; [exists c; split; [now apply Hincl|exact Hsrc]|exact Hrest].
Qed.

Lemma scan_adds (todo : list (nat * chunk)) :
  forall g trends out,
    scan rt sv fs todo g trends = Ok out ->
    exists added,
      out = trends ++ added /\
      Forall (recorded (map snd todo)) added /\
      Indexer.Subseq (map source_guideline added)
                     (map (fun ic => source (meta (snd ic))) todo).
Proof.
  induction todo as [|[i c] todo IH]; intros g trends out Hscan;
    simpl in Hscan.
  - injection Hscan as <-. exists []. rewrite app_nil_r.
    repeat split; constructor.
  - destruct (analyze_chunk rt sv fs g i c) as [[verdict|e] g'];
      [|discriminate].
    destruct (record_verdict c verdict trends) as [trends'|e] eqn:Hrec;
      [|discriminate].
    apply IH in Hscan. destruct Hscan as (added & -> & Hall & Hsub).
    assert (Hmore : Forall (recorded (map snd ((i, c) :: todo))) added).
    { eapply Forall_impl; [|exact Hall]. intros t Ht.
      eapply recorded_among; [exact Ht|]. intros x Hx. now right. }
    apply record_verdict_adds in Hrec.
    destruct Hrec as [->|(t & -> & Ht)].
    + exists added. split; [reflexivity|]. split; [exact Hmore|].
      simpl. now constructor.
    + exists (t :: added). split; [now rewrite <- app_assoc|]. split.
      * constructor; [|exact Hmore].
        eapply recorded_among; [exact Ht|]. intros x [<-|[]]. now left.
      * simpl. destruct Ht as ((c' & [<-|[]] & ->) & _). now constructor.
Qed.

Lemma Subseq_length {A} (l m : list A) :
  Indexer.Subseq l m -> length l <= length m.
Proof. induction 1; simpl; lia. Qed.

Lemma enumerate_snd {A} (l : list A) : map snd (enumerate l) = l.
Proof.
  unfold enumerate. generalize 0.
  induction l as [|x l IH]; intros a; simpl; [reflexivity|]. now rewrite IH.
Qed.

(** X15.  A report that [main] writes counts its trends, which are at
    most one for each guideline chunk and in the order of the chunks; each
    trend has the source of its chunk, a verdict whose [has_shift] is true
    and which has an [exam_relevance_score], and the category of its topic
    and new concept; the sources listed are those of the trends, each
    once. *)
Theorem report_is_sound (chunks : list chunk) (r : report) :
  main rt sv fs (Some chunks) = Ok (Some r) ->
  total_trends r = length (trends_out r) /\
  total_trends r <= length chunks /\
  Forall (recorded chunks) (trends_out r) /\
  Indexer.Subseq (map source_guideline (trends_out r))
                 (map (fun c => source (meta c)) chunks) /\
  NoDup (sources_analyzed r) /\
  forall s, In s (sources_analyzed r)
            <-> In s (map source_guideline (trends_out r)).
Proof.
  unfold main. intros Hmain.
  destruct (scan rt sv fs (enumerate chunks) None []) as [trends|e] eqn:Hscan;
    [|discriminate].
  injection Hmain as <-. simpl.
  apply scan_adds in Hscan. destruct Hscan as (added & Hout & Hall & Hsub).
  simpl in Hout. subst added. rewrite enumerate_snd in Hall.
  assert (Hsub' : Indexer.Subseq (map source_guideline trends)
                    (map (fun c => source (meta c)) chunks)).
  { rewrite <- (enumerate_snd chunks) at 1. rewrite map_map. exact Hsub. }
  split; [reflexivity|]. split.
  { apply Subseq_length in Hsub'. now rewrite !length_map in Hsub'. }
  split; [exact Hall|]. split; [exact Hsub'|].
  split; [apply NoDup_nodup|]. intros s. apply nodup_In.
Qed.

End ReportFacts.

(** One guideline chunk and a model that reports a shift. *)
Lemma report_is_sound_witness :
  exists r,
    Diff.main DiffExamples.runtime_ex Scenario.answering
      DiffExamples.small_files (Some [DiffExamples.guideline_chunk])
    = Data.Ok (Some r) /\
    Diff.total_trends r = length (Diff.trends_out r) /\
    Forall (Diff.recorded [DiffExamples.guideline_chunk]) (Diff.trends_out r).
Proof.
  destruct copd_scenario as [fields Hrun].
  eexists. split; [exact Hrun|].
  destruct (report_is_sound DiffExamples.runtime_ex Scenario.answering
              DiffExamples.small_files [DiffExamples.guideline_chunk] _ Hrun)
    as (Hcount & _ & Hall & _).
  split; [exact Hcount|exact Hall].
Defined.

(** ** Verdicts that end the run *)

Section VerdictFacts.
Import PyStr Data Diff.

Variable rt : runtime.
Variable sv : services.
Variable fs : files.

Lemma analyze_answered g n c context g' response_text verdict :
  find_relevant_textbook_chunks rt sv fs g n c = (Ok context, g') ->
  (length context =? 0) || contains (L "unavailable") context = false ->
  generate_content sv n (DIFF_PROMPT rt (firstn 4000 (text c))
                                        (firstn 4000 context))
  = Some response_text ->
  json_loads rt (unfence response_text) = Some verdict ->
  analyze_chunk rt sv fs g n c = (Ok verdict, g').
Proof.
  intros Hfound Hsent Hcall Hparse. unfold analyze_chunk.
  now rewrite Hfound, Hsent, Hcall, Hparse.
Qed.

Lemma record_not_object c verdict trends :
  (forall fields, verdict <> JObject fields) ->
  record_verdict c verdict trends = Raise AttributeError.
Proof.
  intros Hno. destruct verdict as [| | | | |fields]; try reflexivity.
  now destruct (Hno fields).
Qed.

Lemma record_unscored c fields v trends :
  dict_get fields (L "has_shift") = Some v ->
  truthy v = true ->
  dict_get fields (L "exam_relevance_score") = None ->
  record_verdict c (JObject fields) trends
  = Raise match get_str fields (L "topic"),
                get_str fields (L "new_concept") with
          | Ok _, Ok _ => KeyError
          | _, _ => TypeError
          end.
Proof.
  intros Hshift Htrue Hscore. unfold record_verdict.
  rewrite Hshift, Htrue, Hscore.
  destruct (get_str fields (L "topic")); [|reflexivity].
  destruct (get_str fields (L "new_concept")); reflexivity.
Qed.

(** X16.  The model answered and [json.loads] took its text.  When the
    value read is no object (a list, a number, a string, true, null),
    the run ends there with [AttributeError]; when it is an object whose
    [has_shift] is true and which has no [exam_relevance_score], the run
    ends with [KeyError] when its topic and its new concept are strings or
    absent, and with [TypeError] when one of them is there and is no
    string.  The chunks still to scan are not looked at. *)
Theorem unexpected_verdict_aborts g n c context g' response_text verdict :
  find_relevant_textbook_chunks rt sv fs g n c = (Ok context, g') ->
  (length context =? 0) || contains (L "unavailable") context = false ->
  generate_content sv n (DIFF_PROMPT rt (firstn 4000 (text c))
                                        (firstn 4000 context))
  = Some response_text ->
  json_loads rt (unfence response_text) = Some verdict ->
  forall todo trends,
    ((forall fields, verdict <> JObject fields) ->
     scan rt sv fs ((n, c) :: todo) g trends = Raise AttributeError) /\
    (forall fields v,
       verdict = JObject fields ->
       dict_get fields (L "has_shift") = Some v ->
       truthy v = true ->
       dict_get fields (L "exam_relevance_score") = None ->
       scan rt sv fs ((n, c) :: todo) g trends
       = Raise match get_str fields (L "topic"),
                     get_str fields (L "new_concept") with
               | Ok _, Ok _ => KeyError
               | _, _ => TypeError
               end).
Proof.
  intros Hfound Hsent Hcall Hparse todo trends.
  pose proof (analyze_answered g n c context g' response_text verdict
                Hfound Hsent Hcall Hparse) as Hanalysis.
  split.
  - intros Hno. cbn [scan]. rewrite Hanalysis.
    now rewrite (record_not_object c verdict trends Hno).
  - intros fields v -> Hshift Htrue Hscore. cbn [scan]. rewrite Hanalysis.
    now rewrite (record_unscored c fields v trends Hshift Htrue Hscore).
Qed.

End VerdictFacts.

(** The model answers a list: the run ends with [AttributeError]. *)
Lemma unexpected_verdict_witness :
  Diff.main DiffExamples.runtime_ex DiffServices.listing
    DiffExamples.small_files (Some [DiffExamples.guideline_chunk])
  = Data.Raise Data.AttributeError.
Proof.
  unfold Diff.main.
  change (Data.enumerate [DiffExamples.guideline_chunk])
    with [(0, DiffExamples.guideline_chunk)].
  destruct (unexpected_verdict_aborts DiffExamples.runtime_ex
              DiffServices.listing DiffExamples.small_files None 0
              DiffExamples.guideline_chunk DiffServices.twins_context
              (Some DiffExamples.twins) (PyStr.L "[1, 2]")
              (Diff.JArray [Diff.JNumber 1; Diff.JNumber 2])
              (found_context_for DiffServices.listing 0
                 DiffExamples.guideline_chunk eq_refl)
              eq_refl eq_refl eq_refl [] [])
    as [Hlist _].
  rewrite Hlist; [reflexivity|]. intros fields. discriminate.
Defined.

(** ** Query vectors of another length than the rows *)

Section DimensionFacts.
Import PyStr Data F32 Diff.

Variable rt : runtime.
Variable sv : services.
Variable fs : files.

Lemma search_mismatch db d rows q k :
  embeddings db = Array2 d rows ->
  is_zero (norm q) = false ->
  length q <> d ->
  search rt db q k = Raise ValueError.
Proof.
  intros Harr Hnorm Hlen. unfold search. rewrite Harr. simpl.
  rewrite Hnorm.
  destruct (d =? length q) eqn:Hd; [|reflexivity].
  apply Nat.eqb_eq in Hd. now destruct Hlen.
Qed.

(** X17.  When the embedding model answers a vector whose norm, computed
    in float32 as the code computes it, is not zero, and which has another
    length than the rows of the loaded index, the dot product raises
    [ValueError]: nothing catches it, and the run ends there. *)
Theorem dimension_mismatch_aborts db d rows n c values :
  embeddings db = Array2 d rows ->
  embed_content sv n (text c) = Some values ->
  is_zero (norm (float32_array values)) = false ->
  length values <> d ->
  analyze_chunk rt sv fs (Some db) n c = (Raise ValueError, Some db) /\
  forall todo trends,
    scan rt sv fs ((n, c) :: todo) (Some db) trends = Raise ValueError.
Proof.
  intros Harr Hembed Hnorm Hlen.
  assert (Hanalysis : analyze_chunk rt sv fs (Some db) n c
                      = (Raise ValueError, Some db)).
  { unfold analyze_chunk, find_relevant_textbook_chunks, get_embedding.
    rewrite Hembed. cbv zeta.
    rewrite (search_mismatch db d rows (float32_array values) 3 Harr Hnorm);
      [reflexivity|].
    unfold float32_array. now rewrite length_map. }
  split; [exact Hanalysis|].
  intros todo trends. cbn [scan]. now rewrite Hanalysis.
Qed.

End DimensionFacts.

(** An index of dimension 2 and a model of dimension 3. *)
Lemma dimension_mismatch_witness :
  Diff.scan DiffExamples.runtime_ex DiffServices.wide
    DiffExamples.small_files [(0, DiffExamples.guideline_chunk)]
    (Some DiffExamples.twins) []
  = Data.Raise Data.ValueError.
Proof.
  destruct (dimension_mismatch_aborts DiffExamples.runtime_ex
              DiffServices.wide DiffExamples.small_files DiffExamples.twins
              2 [DiffExamples.e1; DiffExamples.e1] 0
              DiffExamples.guideline_chunk
              [Data.py 1 0; Data.py 0 0; Data.py 0 0]
              eq_refl eq_refl eq_refl)
    as [_ Hscan]; [simpl; lia|].
  exact (Hscan [] []).
Defined.

(** ** What [load_vector_db] returns *)

Section LoadingFacts.
Import PyStr Data F32 Diff.

Lemma np_array_shape (rows : list vector) :
  match np_array rows with
  | Ok (Array1 values) => rows = [] /\ values = []
  | Ok (Array2 d rows') =>
      rows' = map float32_array rows /\ rows <> [] /\
      Forall (fun r => length r = d) rows
  | Raise e =>
      e = ValueError /\
      exists r1 r2, In r1 rows /\ In r2 rows /\ length r1 <> length r2
  end.
Proof.
  unfold np_array. destruct rows as [|r rows]; [now split|].
  destruct (forallb _ _) eqn:Hall.
  - split; [reflexivity|]. split; [discriminate|].
    apply Forall_forall. intros r' Hin.
    rewrite forallb_forall in Hall. apply Nat.eqb_eq. now apply Hall.
  - split; [reflexivity|].
    assert (Hex : existsb (fun r' => negb (length r' =? length r)) (r :: rows)
                  = true).
    { clear -Hall. induction (r :: rows) as [|x l IH]; simpl in *;
        [discriminate|].
      apply andb_false_iff in Hall. destruct Hall as [Hx|Hl].
      - now rewrite Hx.
      - rewrite (IH Hl). apply orb_true_r. }
    apply existsb_exists in Hex. destruct Hex as (r' & Hin & Hne).
    exists r', r. split; [exact Hin|]. split; [now left|].
    apply negb_true_iff, Nat.eqb_neq in Hne. exact Hne.
Qed.

(** X18.  On index files whose values have the types the indexer
    writes, [load_vector_db] answers [None] when the embeddings file is
    missing, or is read and the mapping file is missing.  It raises what
    reading a file raises, [KeyError] when the embeddings object has no
    [ids] or no [embeddings], and [ValueError] when two rows differ in
    length.  Otherwise the index has the ids and the texts of the files,
    and an array that is either empty and of one dimension, the file
    having no row, or the rows of the file converted to float32, all of
    one length. *)
Theorem loaded_index_shape (fs : files) :
  match load_vector_db fs with
  | Ok None =>
      TEXTBOOK_EMBEDDINGS fs = None \/
      (exists data, TEXTBOOK_EMBEDDINGS fs = Some (Ok data)) /\
      chunk_mapping fs = None
  | Ok (Some db) =>
      exists data rows,
        TEXTBOOK_EMBEDDINGS fs = Some (Ok data) /\
        chunk_mapping fs = Some (Ok (texts db)) /\
        json_ids data = Some (ids db) /\
        json_embeddings data = Some rows /\
        match embeddings db with
        | Array1 values => rows = [] /\ values = []
        | Array2 d converted =>
            converted = map float32_array rows /\ rows <> [] /\
            Forall (fun r => length r = d) converted
        end
  | Raise e =>
      TEXTBOOK_EMBEDDINGS fs = Some (Raise e) \/
      exists data,
        TEXTBOOK_EMBEDDINGS fs = Some (Ok data) /\
        (chunk_mapping fs = Some (Raise e) \/
         exists mapping,
           chunk_mapping fs = Some (Ok mapping) /\
           ((e = KeyError /\
             (json_ids data = None \/ json_embeddings data = None)) \/
            (e = ValueError /\
             exists rows r1 r2,
               json_embeddings data = Some rows /\
               In r1 rows /\ In r2 rows /\ length r1 <> length r2)))
  end.
Proof.
  unfold load_vector_db.
  destruct (TEXTBOOK_EMBEDDINGS fs) as [[data|e]|]; [|now left|now left].
  destruct (chunk_mapping fs) as [[mapping|e]|].
  - destruct (json_ids data) as [data_ids|] eqn:Hids.
    + destruct (json_embeddings data) as [rows|] eqn:Hrows.
      * pose proof (np_array_shape rows) as Hshape.
        destruct (np_array rows) as [[values|d converted]|e].
        -- exists data, rows. cbn. destruct Hshape as [-> ->].
           repeat split; (assumption || reflexivity).
        -- exists data, rows. destruct Hshape as (-> & Hsome & Hall).
           cbn. repeat split; try assumption; try reflexivity.
           apply Forall_forall. intros r Hr. apply in_map_iff in Hr.
           destruct Hr as (r0 & <- & Hr0). rewrite Forall_forall in Hall.
           unfold float32_array. rewrite length_map. now apply Hall.
        -- destruct Hshape as (-> & r1 & r2 & H1 & H2 & Hne).
           right. exists data. split; [reflexivity|]. right.
           exists mapping. split; [reflexivity|]. right.
           split; [reflexivity|]. now exists rows, r1, r2.
      * right. exists data. split; [reflexivity|]. right.
        exists mapping. split; [reflexivity|]. left. split; [reflexivity|].
        now right.
    + right. exists data. split; [reflexivity|]. right.
      exists mapping. split; [reflexivity|]. left. split; [reflexivity|].
      now left.
  - right. exists data. split; [reflexivity|]. now left.
  - right. split; [now exists data|reflexivity].
Qed.

End LoadingFacts.

(** ** The word "unavailable" in a textbook passage *)

Section WordFacts.
Import PyStr Data Diff.

Variable rt : runtime.
Variable sv : services.
Variable fs : files.

Lemma contains_join (w sep p : str) (parts : list str) :
  In p parts -> contains w p = true -> contains w (join sep parts) = true.
Proof.
  intros Hin Hw. induction parts as [|p0 rest IH]; [destruct Hin|].
  destruct rest as [|p1 rest].
  - destruct Hin as [->|[]]. exact Hw.
  - change (join sep (p0 :: p1 :: rest))
      with (p0 ++ sep ++ join sep (p1 :: rest)).
    destruct Hin as [->|Hin].
    + now apply contains_app_l.
    + apply contains_app_r, contains_app_r. now apply IH.
Qed.

Lemma contains_show_hit (w : str) (h : hit) :
  contains w (hit_text h) = true -> contains w (show_hit rt h) = true.
Proof.
  intros Hw. unfold show_hit.
  now apply contains_app_r, contains_app_r, contains_app_r, contains_app_r.
Qed.

(** X19.  When one of the passages the search returns has the word
    "unavailable" in its text, the chunk is skipped as if no baseline
    were there: the model is not asked, whatever it would answer, and no
    trend is added. *)
Theorem unavailable_word_skips db n c hits h :
  search rt db (float32_array (get_embedding sv n (text c))) 3 = Ok hits ->
  In h hits ->
  contains (L "unavailable") (hit_text h) = true ->
  analyze_chunk rt sv fs (Some db) n c = (Ok no_shift, Some db) /\
  forall todo trends,
    scan rt sv fs ((n, c) :: todo) (Some db) trends
    = scan rt sv fs todo (Some db) trends.
Proof.
  intros Hsearch Hin Hword.
  assert (Hanalysis : analyze_chunk rt sv fs (Some db) n c
                      = (Ok no_shift, Some db)).
  { unfold analyze_chunk, find_relevant_textbook_chunks. cbv zeta.
    rewrite Hsearch.
    rewrite (contains_join (L "unavailable") _ (show_hit rt h)
               (map (show_hit rt) hits)).
    - now rewrite orb_true_r.
    - now apply in_map.
    - now apply contains_show_hit. }
  split; [exact Hanalysis|].
  intros todo trends. cbn [scan]. now rewrite Hanalysis.
Qed.

End WordFacts.

Lemma caveat_search :
  Diff.search DiffExamples.runtime_ex DiffExamples.caveat DiffExamples.e1 3
  = Data.Ok [Diff.hit_at DiffExamples.caveat DiffExamples.e1
               [DiffExamples.e1] 0].
Proof.
  rewrite (search_scored DiffExamples.runtime_ex DiffExamples.caveat 2
             [DiffExamples.e1] DiffExamples.e1 3 eq_refl eq_refl
             norm_e1_nonzero).
  reflexivity.
Qed.

(** A passage on missing data, and a model that would report a shift. *)
Lemma unavailable_word_witness :
  Diff.analyze_chunk DiffExamples.runtime_ex Scenario.answering
    DiffExamples.small_files (Some DiffExamples.caveat) 0
    DiffExamples.guideline_chunk
  = (Data.Ok Diff.no_shift, Some DiffExamples.caveat).
Proof.
  destruct (unavailable_word_skips DiffExamples.runtime_ex Scenario.answering
              DiffExamples.small_files DiffExamples.caveat 0
              DiffExamples.guideline_chunk _
              (Diff.hit_at DiffExamples.caveat DiffExamples.e1
                 [DiffExamples.e1] 0)
              caveat_search (or_introl eq_refl) eq_refl)
    as [Hskip _].
  exact Hskip.
Defined.

(* ================================================================== *)
(** * The directory of guidelines *)
(* ================================================================== *)

Section DirectoryFacts.
Import PyStr Re Data Ingester.

Lemma split_at_last {A} (x : A) (a a' b b' : list A) :
  ~ In x b -> ~ In x b' ->
  a ++ x :: b = a' ++ x :: b' -> a = a' /\ b = b'.
Proof.
  intros Hb Hb'. revert a'.
  induction a as [|y a IH]; intros [|y' a'] Heq; simpl in Heq.
  - injection Heq as <-. now split.
  - injection Heq as <- ->. destruct Hb. apply in_or_app. right. now left.
  - injection Heq as -> <-. destruct Hb'. apply in_or_app. right. now left.
  - injection Heq as <- Heq. destruct (IH a' Heq) as [-> ->]. now split.
Qed.

Lemma digits_no_underscore (d : Decimal.uint) :
  ~ In "_"%char (L (DecimalString.NilEmpty.string_of_uint d)).
Proof.
  induction d; simpl; intros H; try (destruct H as [H|H];
    [discriminate|now apply IHd]).
  exact H.
Qed.

Lemma of_nat_no_underscore (n : nat) : ~ In "_"%char (of_nat n).
Proof.
  unfold of_nat, DecimalString.NilZero.string_of_uint.
  destruct (Nat.to_uint n) eqn:Hd; try (rewrite <- Hd at 1);
    try apply digits_no_underscore.
  simpl. intros [H|[]]. discriminate.
Qed.

(** The id tells the file and the number. *)
Lemma chunk_id_tells (src src' : str) (n n' : nat) :
  chunk_id src n = chunk_id src' n' -> stem src = stem src' /\ n = n'.
Proof.
  unfold chunk_id. fold (stem src). fold (stem src'). intros H.
  apply app_inv_head in H.
  change (L "_" ++ of_nat n) with ("_"%char :: of_nat n) in H.
  change (L "_" ++ of_nat n') with ("_"%char :: of_nat n') in H.
  apply split_at_last in H; try apply of_nat_no_underscore.
  destruct H as [Hstem Hn]. split; [exact Hstem|now apply of_nat_inj].
Qed.

Lemma short_no_chunk (txt src : str) :
  length txt <= 50 -> chunk_by_headers txt src = [].
Proof.
  intros Hshort. destruct (chunk_by_headers txt src) as [|c l] eqn:Hc;
    [reflexivity|].
  assert (Hin : In c (chunk_by_headers txt src)) by (rewrite Hc; now left).
  apply chunk_content in Hin.
  destruct Hin as (header & body & n & _ & Hlong & Hfit). lia.
Qed.

Lemma clean_text_shorter (txt : str) : length (clean_text txt) <= length txt.
Proof.
  unfold clean_text, re_sub.
  etransitivity; [apply strip_shorter|].
  etransitivity; [apply sub_at_shorter|].
  - intros prev s prev' s' Hrun. apply run_forward in Hrun.
    destruct Hrun as (a & b & Hk & Hlen). injection Hk as <- <-.
    simpl. exact Hlen.
  - apply sub_at_shorter.
    intros prev s prev' s' Hrun. unfold pat_blank_lines in Hrun.
    simpl in Hrun. apply rep_consumes in Hrun.
    destruct Hrun as (a & b & Hk & Hlen). injection Hk as <- <-.
    simpl in *. lia.
Qed.

(** The chunks of one file. *)
Lemma file_chunk (f : pdf_file) (c : chunk) :
  In c (chunk_by_headers (clean_text (load_pdf (snd f))) (fst f)) ->
  exists header body n,
    c = make_chunk (fst f) header body n /\
    50 < length body /\ length body <= length (load_pdf (snd f)).
Proof.
  intros Hin. apply chunk_content in Hin.
  destruct Hin as (header & body & n & -> & Hlong & Hfit).
  exists header, body, n. split; [reflexivity|]. split; [exact Hlong|].
  etransitivity; [exact Hfit|apply clean_text_shorter].
Qed.

Lemma file_ids (txt src : str) :
  NoDup (map id (chunk_by_headers txt src)) /\
  forall i, In i (map id (chunk_by_headers txt src)) ->
            exists n, i = chunk_id src n.
Proof.
  assert (H : numbered src (chunk_by_headers txt src)).
  { unfold chunk_by_headers, fallback.
    assert (Htry : numbered src (try_patterns patterns txt src []))
      by (apply try_patterns_numbered; reflexivity).
    destruct (_ && _); [now apply windows_numbered|exact Htry]. }
  unfold numbered in H. split; [rewrite H; apply chunk_ids_distinct|].
  intros i Hin. rewrite H in Hin. apply in_map_iff in Hin.
  destruct Hin as (n & <- & _). now exists n.
Qed.

Lemma directory_ids (files : list pdf_file) :
  NoDup (map (fun f => stem (fst f)) files) ->
  NoDup (map id
           (flat_map (fun f => chunk_by_headers (clean_text (load_pdf (snd f)))
                                                (fst f))
                     files)) /\
  forall i,
    In i (map id
            (flat_map (fun f => chunk_by_headers
                                  (clean_text (load_pdf (snd f))) (fst f))
                      files)) ->
    exists f n, In f files /\ i = chunk_id (fst f) n.
Proof.
  induction files as [|f files IH]; intros Hstems; simpl.
  - split; [constructor|]. intros i [].
  - inversion Hstems as [|s l Hfresh Hrest]; subst.
    destruct (IH Hrest) as [Hnodup Hfrom].
    destruct (file_ids (clean_text (load_pdf (snd f))) (fst f))
      as [Hown Hmine].
    rewrite map_app. split.
    + apply NoDup_app; [exact Hown|exact Hnodup|].
      intros i Hi Hi'. apply Hmine in Hi. destruct Hi as (n & ->).
      apply Hfrom in Hi'. destruct Hi' as (f' & n' & Hin & Heq).
      apply chunk_id_tells in Heq. destruct Heq as [Hstem _].
      apply Hfresh. rewrite Hstem.
      now apply (in_map (fun f => stem (fst f))).
    + intros i Hi. apply in_app_or in Hi. destruct Hi as [Hi|Hi].
      * apply Hmine in Hi. destruct Hi as (n & ->).
        exists f, n. split; [now left|reflexivity].
      * apply Hfrom in Hi. destruct Hi as (f' & n' & Hin & ->).
        exists f', n'. split; [now right|reflexivity].
Qed.

End DirectoryFacts.

Section DirectoryTheorems.
Import PyStr Re Data Ingester.

(** X20.  When no two files of the directory have the same name once
    ".pdf" is taken out of it, no two chunks written have the same id. *)
Theorem directory_ids_distinct (files : list pdf_file) (chunks : list chunk) :
  NoDup (map (fun f => stem (fst f)) files) ->
  process_directory (Some files) = Some chunks ->
  NoDup (map id chunks).
Proof.
  intros Hstems Hrun. injection Hrun as <-.
  now apply directory_ids.
Qed.

(** X21.  A file that cannot be opened, or from which at most 50
    characters are extracted, leaves no trace: the chunks written are
    those of the other files, as if it had not been in the directory. *)
Theorem unreadable_file_is_skipped (before after : list pdf_file)
    (f : pdf_file) :
  snd f = None \/ length (load_pdf (snd f)) <= 50 ->
  process_directory (Some (before ++ f :: after))
  = process_directory (Some (before ++ after)).
Proof.
  intros Hshort.
  assert (Hlen : length (load_pdf (snd f)) <= 50).
  { destruct Hshort as [->|H]; [simpl; lia|exact H]. }
  unfold process_directory. f_equal.
  rewrite !flat_map_app. f_equal. simpl.
  rewrite short_no_chunk; [reflexivity|].
  etransitivity; [apply clean_text_shorter|exact Hlen].
Qed.

(** X22.  Every chunk written comes from a file of the directory: it has
    that file's name as source and in its id, "guideline" as type, and a
    body of more than 50 characters that is no longer than the text
    extracted from the file. *)
Theorem directory_chunks_sourced (files : list pdf_file)
    (chunks : list chunk) (c : chunk) :
  process_directory (Some files) = Some chunks ->
  In c chunks ->
  exists f header body n,
    In f files /\
    50 < length body /\ length body <= length (load_pdf (snd f)) /\
    id c = chunk_id (fst f) n /\
    text c = L "TOPIC: " ++ header ++ nl ++ L "SOURCE: " ++ basename (fst f)
               ++ nl ++ nl ++ body /\
    meta c = {| source := basename (fst f); type := L "guideline";
                topic := header |}.
Proof.
  intros Hrun Hin. injection Hrun as <-.
  apply in_flat_map in Hin. destruct Hin as (f & Hf & Hin).
  apply file_chunk in Hin.
  destruct Hin as (header & body & n & -> & Hlong & Hfit).
  exists f, header, body, n. repeat split; assumption.
Qed.

End DirectoryTheorems.

Lemma directory_stems :
  NoDup (map (fun f => Ingester.stem (fst f)) IngesterExamples.directory).
Proof.
  vm_compute. repeat constructor; simpl; intuition discriminate.
Qed.

(** The three files of the example directory. *)
Lemma directory_ids_distinct_witness :
  exists chunks,
    Ingester.process_directory (Some IngesterExamples.directory)
    = Some chunks /\
    NoDup (map Data.id chunks).
Proof.
  eexists. split; [reflexivity|].
  apply (directory_ids_distinct IngesterExamples.directory _
           directory_stems eq_refl).
Defined.

(** The file of the example directory that cannot be opened. *)
Lemma unreadable_file_witness :
  Ingester.process_directory (Some IngesterExamples.directory)
  = Ingester.process_directory
      (Some [(IngesterExamples.pdf, Some [Some IngesterExamples.guideline]);
             (IngesterExamples.pdf2,
              Some [Some IngesterExamples.guideline; None;
                    Some IngesterExamples.paragraph])]).
Proof.
  apply (unreadable_file_is_skipped
           [(IngesterExamples.pdf, Some [Some IngesterExamples.guideline])]
           [(IngesterExamples.pdf2,
             Some [Some IngesterExamples.guideline; None;
                   Some IngesterExamples.paragraph])]
           (PyStr.L "data/guidelines/broken.pdf", None)).
  left. reflexivity.
Defined.

(** The first chunk written for the example directory. *)
Lemma directory_chunks_sourced_witness :
  exists f,
    In f IngesterExamples.directory /\
    Data.source (Data.meta (hd (Ingester.make_chunk [] [] [] 0)
                               IngesterExamples.written))
    = PyStr.basename (fst f).
Proof.
  destruct (directory_chunks_sourced IngesterExamples.directory
              IngesterExamples.written
              (hd (Ingester.make_chunk [] [] [] 0) IngesterExamples.written)
              eq_refl)
    as (f & header & body & n & Hf & _ & _ & _ & _ & Hmeta).
  { vm_compute. left. reflexivity. }
  exists f. split; [exact Hf|]. now rewrite Hmeta.
Defined.

(* ================================================================== *)
(** * The code fences around a verdict *)
(* ================================================================== *)

Section FenceFacts.
Import PyStr Data Diff.

Lemma lstrip_blanks (blanks s : str) :
  forallb is_space blanks = true -> lstrip (blanks ++ s) = lstrip s.
Proof.
  induction blanks as [|c blanks IH]; simpl; intros H; [reflexivity|].
  apply andb_true_iff in H. destruct H as [Hc H]. rewrite Hc. now apply IH.
Qed.

Lemma forallb_rev {A} (f : A -> bool) (l : list A) :
  forallb f (rev l) = forallb f l.
Proof.
  induction l as [|x l IH]; simpl; [reflexivity|].
  rewrite forallb_app, IH. simpl. rewrite andb_true_r. apply andb_comm.
Qed.

(** Blanks around a text that begins and ends with other characters. *)
Lemma strip_blanks (before after middle : str) (c d : ascii) :
  forallb is_space before = true ->
  forallb is_space after = true ->
  is_space c = false -> is_space d = false ->
  strip (before ++ (c :: middle ++ [d]) ++ after) = c :: middle ++ [d].
Proof.
  intros Hb Ha Hc Hd. unfold strip, rstrip.
  rewrite (lstrip_blanks before _ Hb).
  assert (Hl : lstrip ((c :: middle ++ [d]) ++ after)
               = (c :: middle ++ [d]) ++ after).
  { simpl. now rewrite Hc. }
  rewrite Hl, rev_app_distr.
  rewrite lstrip_blanks by now rewrite forallb_rev.
  assert (Hr : rev (c :: middle ++ [d]) = d :: rev (c :: middle)).
  { change (c :: middle ++ [d]) with ((c :: middle) ++ [d]).
    now rewrite rev_app_distr. }
  rewrite Hr. cbn [lstrip]. rewrite Hd, <- Hr. apply rev_involutive.
Qed.

Lemma startswith_self (old s : str) : startswith old (old ++ s) = true.
Proof.
  induction old as [|x old IH]; simpl; [reflexivity|].
  unfold eqc. now rewrite Ascii.eqb_refl.
Qed.

Lemma replace_skips (old new l s : str) :
  replace_from old new (length l) (l ++ s) = replace_from old new 0 s.
Proof.
  induction l as [|c l IH]; simpl; [reflexivity|exact IH].
Qed.

(** An occurrence at the head is replaced, and the search goes on behind
    it. *)
Lemma replace_head (x : ascii) (old new s : str) :
  replace (x :: old) new ((x :: old) ++ s)
  = new ++ replace (x :: old) new s.
Proof.
  unfold replace. cbn [app replace_from].
  change (x :: old ++ s) with ((x :: old) ++ s).
  rewrite startswith_self.
  replace (length (x :: old) - 1) with (length old) by (simpl; lia).
  now rewrite replace_skips.
Qed.

Lemma absent_first (x : ascii) (s : str) :
  contains [x] s = false -> forall c s', s = c :: s' -> eqc x c = false.
Proof.
  intros H c s' ->. simpl in H. apply orb_false_iff in H.
  destruct H as [H _]. now rewrite andb_true_r in H.
Qed.

(** A text without the first character of [old] is left as it is, and
    the search goes on behind it. *)
Lemma replace_absent (x : ascii) (old new p s : str) :
  contains [x] p = false ->
  replace (x :: old) new (p ++ s) = p ++ replace (x :: old) new s.
Proof.
  unfold replace. induction p as [|c p IH]; intros Hp; [reflexivity|].
  cbn [app replace_from startswith].
  rewrite (absent_first x (c :: p) Hp c p eq_refl). cbn [andb].
  f_equal. apply IH. simpl in Hp. apply orb_false_iff in Hp. apply Hp.
Qed.

End FenceFacts.

Section FenceTheorems.
Import PyStr Data Diff.

(** X23.  A reply made of a payload without backquote between the fences
    [```json] and [```], with any blanks before and after, is unfenced to
    the payload, character for character. *)
Theorem fenced_payload_is_read (before payload after : str) :
  forallb is_space before = true ->
  forallb is_space after = true ->
  contains (L "`") payload = false ->
  unfence (before ++ L "```json" ++ payload ++ L "```" ++ after) = payload.
Proof.
  intros Hb Ha Hp. unfold unfence.
  assert (Hstrip : strip (before ++ L "```json" ++ payload ++ L "```" ++ after)
                   = L "```json" ++ payload ++ L "```").
  { replace (before ++ L "```json" ++ payload ++ L "```" ++ after)
      with (before ++ ("`"%char :: (L "``json" ++ payload ++ L "``")
                         ++ ["`"%char]) ++ after).
    - rewrite strip_blanks by (assumption || reflexivity).
      simpl. now rewrite <- !app_assoc.
    - simpl. rewrite <- !app_assoc. reflexivity. }
  rewrite Hstrip.
  change (L "```json") with ("`"%char :: L "``json").
  rewrite replace_head. cbn [app].
  rewrite (replace_absent "`"%char (L "``json") [] payload (L "```") Hp).
  change (replace ("`"%char :: L "``json") [] (L "```")) with (L "```").
  change (L "```") with ("`"%char :: L "``") at 1.
  rewrite (replace_absent "`"%char (L "``") [] payload (L "```") Hp).
  change (replace ("`"%char :: L "``") [] (L "```")) with (@nil ascii).
  apply app_nil_r.
Qed.

End FenceTheorems.

(** The verdict of no shift on a line of its own inside the fences. *)
Lemma fenced_payload_witness :
  Diff.unfence Scenario.fenced_reply = Scenario.calm_verdict.
Proof.
  apply (fenced_payload_is_read [Re.newline] Scenario.calm_verdict
           (PyStr.L "  ")); reflexivity.
Defined.

(* ================================================================== *)
(** * The loaded index during a run *)
(* ================================================================== *)

Section CacheFacts.
Import PyStr Data Diff.

Variable rt : runtime.
Variable sv : services.

Lemma analyze_loaded (fs fs' : files) db n c :
  analyze_chunk rt sv fs (Some db) n c = analyze_chunk rt sv fs' (Some db) n c
  /\ (snd (analyze_chunk rt sv fs (Some db) n c) = Some db).
Proof.
  unfold analyze_chunk, find_relevant_textbook_chunks. cbv zeta.
  destruct (search rt db (float32_array (get_embedding sv n (text c))) 3)
    as [hits|e]; [|now split].
  destruct (_ || _); [now split|].
  destruct (generate_content sv n _) as [response_text|]; [|now split].
  destruct (json_loads rt (unfence response_text)); now split.
Qed.

Lemma scan_loaded (fs fs' : files) db (todo : list (nat * chunk)) :
  forall trends,
    scan rt sv fs todo (Some db) trends = scan rt sv fs' todo (Some db) trends.
Proof.
  induction todo as [|[i c] todo IH]; intros trends; [reflexivity|].
  cbn [scan]. destruct (analyze_loaded fs fs' db i c) as [Hsame Hkept].
  rewrite <- Hsame.
  destruct (analyze_chunk rt sv fs (Some db) i c) as [analysed g].
  simpl in Hkept. subst g.
  destruct analysed as [verdict|e]; [|reflexivity].
  destruct (record_verdict c verdict trends); [apply IH|reflexivity].
Qed.

(** X24.  The index is read from the files for the first chunk and kept:
    once it is loaded, what the files hold has no part in the rest of the
    run, and a run that loads it goes as if it had been there from the
    start. *)
Theorem loaded_index_is_kept (fs : files) db :
  (forall fs' todo trends,
     scan rt sv fs todo (Some db) trends
     = scan rt sv fs' todo (Some db) trends) /\
  (load_vector_db fs = Ok (Some db) ->
   forall todo trends,
     scan rt sv fs todo None trends = scan rt sv fs todo (Some db) trends).
Proof.
  split; [intros fs' todo trends; apply scan_loaded|].
  intros Hload [|[i c] todo] trends; [reflexivity|].
  cbn [scan].
  assert (Hsame : analyze_chunk rt sv fs None i c
                  = analyze_chunk rt sv fs (Some db) i c).
  { unfold analyze_chunk, find_relevant_textbook_chunks. now rewrite Hload. }
  now rewrite Hsame.
Qed.

End CacheFacts.

(** The index of the twins, loaded from its files. *)
Lemma loaded_index_witness :
  Diff.scan DiffExamples.runtime_ex Scenario.answering
    DiffExamples.small_files [(0, DiffExamples.guideline_chunk)] None []
  = Diff.scan DiffExamples.runtime_ex Scenario.answering
      DiffExamples.small_files [(0, DiffExamples.guideline_chunk)]
      (Some DiffExamples.twins) [].
Proof.
  destruct (loaded_index_is_kept DiffExamples.runtime_ex Scenario.answering
              DiffExamples.small_files DiffExamples.twins) as [_ Hrun].
  exact (Hrun load_small_files [(0, DiffExamples.guideline_chunk)] []).
Defined.

(** A topic on drug-resistant tuberculosis. *)
Lemma category_of_keywords_witness :
  Diff.detect_category (PyStr.L "MDR-TB regimen")
    (PyStr.L "Shorter all-oral regimen for asthma patients")
  = PyStr.L "TB".
Proof.
  destruct (category_of_keywords (PyStr.L "MDR-TB regimen")
              (PyStr.L "Shorter all-oral regimen for asthma patients"))
    as (_ & _ & Htb).
  apply Htb. left. reflexivity.
Defined.
